(** * byMCP payroll skill: ledger, page matching, Qonto client, orchestrator

    A shallow embedding of [skills/payroll] (idempotency.py,
    pdf_processor.py, qonto_client.py, __init__.py) and the properties of
    the payroll disbursement pipeline.

    Conventions of the model.
    - A Python [str] is a list of Unicode code points ([list N]).  The
      character classes ([str.lower], [str.isspace], the regex classes
      [\s], [\d], [\w]) are Python's on the code points below 256 and on
      the euro sign; [isspace] is Python's complete table.
    - Python [int] is [Z]; binary64 floats are modelled by their exact
      rational value with round-to-nearest-even written out.
    - The SQLite table [transfers] is a finite map from the primary key
      to the remaining columns.
    - Bank, clock and file system are explicit: every call of
      [requests.request] consumes the next entry of a script of raw
      outcomes, and the effects of a run are collected in a trace. *)

From Stdlib Require Import ZArith NArith List Lia Bool String Ascii.
From Stdlib Require Import QArith.
From stdpp Require Import gmap list.

Local Open Scope N_scope.

(** ** Text: Python [str] operations *)

Module Text.

Abbreviation text := (list N) (only parsing).

Definition of_string (s : string) : list N :=
  List.map N_of_ascii (list_ascii_of_string s).

(** [str.lower] on one code point: A-Z and the Latin-1 capitals. *)
Definition lower_char (c : N) : N :=
  if ((65 <=? c) && (c <=? 90))
     || ((192 <=? c) && (c <=? 222) && negb (c =? 215))
  then c + 32 else c.

Definition lower (s : list N) : list N := List.map lower_char s.

(** [str.isspace] for one code point (the table of CPython). *)
Definition isspace (c : N) : bool :=
  ((9 <=? c) && (c <=? 13)) || ((28 <=? c) && (c <=? 32))
  || (c =? 133) || (c =? 160) || (c =? 5760)
  || ((8192 <=? c) && (c <=? 8202))
  || (c =? 8232) || (c =? 8233) || (c =? 8239) || (c =? 8287) || (c =? 12288).

Fixpoint lstrip (s : list N) : list N :=
  match s with
  | c :: s' => if isspace c then lstrip s' else s
  | [] => []
  end.

Definition rstrip (s : list N) : list N := rev (lstrip (rev s)).

(** [s.strip()] *)
Definition strip (s : list N) : list N := rstrip (lstrip s).

(** [s.split()]: maximal runs of non-space characters; [cur] is the
    current run, reversed. *)
Fixpoint split_from (cur s : list N) : list (list N) :=
  match s with
  | [] => match cur with [] => [] | _ => [rev cur] end
  | c :: s' =>
      if isspace c
      then match cur with
           | [] => split_from [] s'
           | _ => rev cur :: split_from [] s'
           end
      else split_from (c :: cur) s'
  end.

Definition split (s : list N) : list (list N) := split_from [] s.

Fixpoint starts_with (p s : list N) : bool :=
  match p, s with
  | [], _ => true
  | a :: p', b :: s' => (a =? b) && starts_with p' s'
  | _ :: _, [] => false
  end.

(** [sub in s] *)
Fixpoint contains (s sub : list N) : bool :=
  starts_with sub s
  || match s with
     | [] => false
     | _ :: s' => contains s' sub
     end.

Fixpoint uint_digits (d : Decimal.uint) : list N :=
  match d with
  | Decimal.Nil => []
  | Decimal.D0 d => 48 :: uint_digits d
  | Decimal.D1 d => 49 :: uint_digits d
  | Decimal.D2 d => 50 :: uint_digits d
  | Decimal.D3 d => 51 :: uint_digits d
  | Decimal.D4 d => 52 :: uint_digits d
  | Decimal.D5 d => 53 :: uint_digits d
  | Decimal.D6 d => 54 :: uint_digits d
  | Decimal.D7 d => 55 :: uint_digits d
  | Decimal.D8 d => 56 :: uint_digits d
  | Decimal.D9 d => 57 :: uint_digits d
  end.

(** [str(n)] for an [int]. *)
Definition str_of_int (z : Z) : list N :=
  match Z.to_int z with
  | Decimal.Pos d => uint_digits d
  | Decimal.Neg d => 45 :: uint_digits d
  end.

(** [str.upper] on one code point; the sharp s becomes two letters. *)
Definition upper_char (c : N) : list N :=
  if ((97 <=? c) && (c <=? 122))
     || ((224 <=? c) && (c <=? 254) && negb (c =? 247))
  then [c - 32]
  else if c =? 223 then [83; 83]
  else if c =? 255 then [376]
  else if c =? 181 then [924]
  else [c].

Definition upper (s : list N) : list N := List.concat (List.map upper_char s).

(** [s.replace(old, new)] for a one-character [old]. *)
Definition replace_char (old : N) (new : list N) (s : list N) : list N :=
  List.concat (List.map (fun c => if c =? old then new else [c]) s).

(** [s.encode()]: UTF-8. *)
Definition utf8_char (c : N) : list N :=
  if c <? 128 then [c]
  else if c <? 2048 then [192 + c / 64; 128 + c mod 64]
  else if c <? 65536 then [224 + c / 4096; 128 + (c / 64) mod 64; 128 + c mod 64]
  else [240 + c / 262144; 128 + (c / 4096) mod 64; 128 + (c / 64) mod 64;
        128 + c mod 64].

Definition encode (s : list N) : list N := List.concat (List.map utf8_char s).

End Text.

(** ** hashlib.sha256 (FIPS 180-4) on lists of bytes *)

Module Sha256.

Definition w32 (x : N) : N := x mod 4294967296.
Definition add32 (a b : N) : N := w32 (a + b).
Definition rotr (n x : N) : N := N.lor (N.shiftr x n) (w32 (N.shiftl x (32 - n))).
Definition not32 (x : N) : N := 4294967295 - x.

Definition K : list N :=
  [1116352408; 1899447441; 3049323471; 3921009573; 961987163; 1508970993;
   2453635748; 2870763221; 3624381080; 310598401; 607225278; 1426881987;
   1925078388; 2162078206; 2614888103; 3248222580; 3835390401; 4022224774;
   264347078; 604807628; 770255983; 1249150122; 1555081692; 1996064986;
   2554220882; 2821834349; 2952996808; 3210313671; 3336571891; 3584528711;
   113926993; 338241895; 666307205; 773529912; 1294757372; 1396182291;
   1695183700; 1986661051; 2177026350; 2456956037; 2730485921; 2820302411;
   3259730800; 3345764771; 3516065817; 3600352804; 4094571909; 275423344;
   430227734; 506948616; 659060556; 883997877; 958139571; 1322822218;
   1537002063; 1747873779; 1955562222; 2024104815; 2227730452; 2361852424;
   2428436474; 2756734187; 3204031479; 3329325298].

Definition H0 : list N :=
  [1779033703; 3144134277; 1013904242; 2773480762; 1359893119; 2600822924;
   528734635; 1541459225].

Definition ssig0 (x : N) := N.lxor (N.lxor (rotr 7 x) (rotr 18 x)) (N.shiftr x 3).
Definition ssig1 (x : N) := N.lxor (N.lxor (rotr 17 x) (rotr 19 x)) (N.shiftr x 10).
Definition bsig0 (x : N) := N.lxor (N.lxor (rotr 2 x) (rotr 13 x)) (rotr 22 x).
Definition bsig1 (x : N) := N.lxor (N.lxor (rotr 6 x) (rotr 11 x)) (rotr 25 x).
Definition ch (x y z : N) := N.lxor (N.land x y) (N.land (not32 x) z).
Definition maj (x y z : N) := N.lxor (N.lxor (N.land x y) (N.land x z)) (N.land y z).

(** Big-endian bytes of [x], [n] of them. *)
Fixpoint be_bytes (n : nat) (x : N) : list N :=
  match n with
  | O => []
  | S n' => be_bytes n' (x / 256) ++ [x mod 256]
  end.

Definition pad (msg : list N) : list N :=
  let len := N.of_nat (List.length msg) in
  let zeros := N.to_nat ((119 - len mod 64) mod 64) in
  msg ++ [128] ++ List.repeat 0 zeros ++ be_bytes 8 (8 * len).

Fixpoint words (n : nat) (bs : list N) : list N :=
  match n with
  | O => []
  | S n' =>
      match bs with
      | a :: b :: c :: d :: bs' =>
          (((a * 256 + b) * 256 + c) * 256 + d) :: words n' bs'
      | _ => []
      end
  end.

(** The message schedule, most recent word first. *)
Fixpoint schedule (n : nat) (wrev : list N) : list N :=
  match n with
  | O => wrev
  | S n' =>
      let w := add32 (add32 (ssig1 (nth 1 wrev 0)) (nth 6 wrev 0))
                     (add32 (ssig0 (nth 14 wrev 0)) (nth 15 wrev 0)) in
      schedule n' (w :: wrev)
  end.

Definition round (st : list N) (kw : N * N) : list N :=
  match st with
  | [a; b; c; d; e; f; g; h] =>
      let t1 := add32 (add32 (add32 h (bsig1 e)) (add32 (ch e f g) (fst kw))) (snd kw) in
      let t2 := add32 (bsig0 a) (maj a b c) in
      [add32 t1 t2; a; b; c; add32 d t1; e; f; g]
  | _ => st
  end.

Fixpoint zip_add (xs ys : list N) : list N :=
  match xs, ys with
  | x :: xs', y :: ys' => add32 x y :: zip_add xs' ys'
  | _, _ => []
  end.

Definition compress (st block : list N) : list N :=
  let w := rev (schedule 48 (rev (words 16 block))) in
  zip_add st (fold_left round (combine K w) st).

Fixpoint blocks (n : nat) (st bs : list N) : list N :=
  match n with
  | O => st
  | S n' => blocks n' (compress st (firstn 64 bs)) (skipn 64 bs)
  end.

Definition digest (msg : list N) : list N :=
  let p := pad msg in
  List.concat (List.map (be_bytes 4) (blocks (List.length p / 64) H0 p)).

Definition hex_digit (n : N) : N := if n <? 10 then 48 + n else 87 + n.

(** [hashlib.sha256(msg).hexdigest()] *)
Definition hexdigest (msg : list N) : list N :=
  List.concat (List.map (fun b => [hex_digit (b / 16); hex_digit (b mod 16)]) (digest msg)).

End Sha256.

(** ** The [re] patterns of pdf_processor.py

    A backtracking matcher with the priorities of Python's [re]: greedy
    repetition, left alternative first, leftmost match for [search].  A
    repetition only iterates a body that consumes input; the bodies of
    the patterns below always do. *)

Module Regex.

Inductive re : Type :=
| Eps
| Cls (p : N -> bool)
| Seq (r1 r2 : re)
| Alt (r1 r2 : re)
| Star (r : re)
| Opt (r : re)
| Grp (r : re)
| NotBehind (p : N -> bool).

(** [before] is the text left of the cursor, nearest character first;
    [cap] is group 1. *)
Record mstate := MState { before : list N; rest : list N; cap : option (list N) }.

Fixpoint run (r : re) (st : mstate) (k : mstate -> option mstate) : option mstate :=
  match r with
  | Eps => k st
  | Cls p =>
      match rest st with
      | c :: s' => if p c then k (MState (c :: before st) s' (cap st)) else None
      | [] => None
      end
  | Seq r1 r2 => run r1 st (fun st' => run r2 st' k)
  | Alt r1 r2 =>
      match run r1 st k with
      | Some m => Some m
      | None => run r2 st k
      end
  | Opt r1 =>
      match run r1 st k with
      | Some m => Some m
      | None => k st
      end
  | Star r1 =>
      (fix loop (n : nat) (st : mstate) : option mstate :=
         match n with
         | O => k st
         | S n' =>
             match run r1 st (fun st' =>
                     if (List.length (rest st') <? List.length (rest st))%nat
                     then loop n' st' else None) with
             | Some m => Some m
             | None => k st
             end
         end) (S (List.length (rest st))) st
  | Grp r1 =>
      run r1 st (fun st' =>
        k (MState (before st') (rest st')
             (Some (firstn (List.length (rest st) - List.length (rest st')) (rest st)))))
  | NotBehind p =>
      match before st with
      | c :: _ => if p c then None else k st
      | [] => k st
      end
  end.

(** [pattern.search(text)], then [match.group(1)]. *)
Fixpoint search_from (r : re) (bef s : list N) : option (list N) :=
  match run r (MState bef s None) Some with
  | Some m => Some (default [] (cap m))
  | None =>
      match s with
      | [] => None
      | c :: s' => search_from r (c :: bef) s'
      end
  end.

Definition search (r : re) (s : list N) : option (list N) := search_from r [] s.

Definition seq (rs : list re) : re := fold_right Seq Eps rs.

Definition chr (c : N) : re := Cls (N.eqb c).

(** A literal under [(?i)]. *)
Definition ilit (s : string) : re :=
  seq (List.map (fun c => Cls (fun x => Text.lower_char x =? Text.lower_char c))
         (Text.of_string s)).

Definition lit (s : string) : re := seq (List.map chr (Text.of_string s)).

Definition is_digit (c : N) : bool := (48 <=? c) && (c <=? 57).

(** [\w] *)
Definition is_word (c : N) : bool :=
  is_digit c || ((65 <=? c) && (c <=? 90)) || (c =? 95) || ((97 <=? c) && (c <=? 122))
  || (c =? 170) || (c =? 178) || (c =? 179) || (c =? 181) || (c =? 185) || (c =? 186)
  || ((188 <=? c) && (c <=? 190))
  || ((192 <=? c) && (c <=? 255) && negb (c =? 215) && negb (c =? 247)).

Definition ws : re := Star (Cls Text.isspace).
Definition digit : re := Cls is_digit.
Definition euro : N := 8364.
Definition u_umlaut : N := 252.

(** [_SEP = \s*[:\-=]?\s*] *)
Definition SEP : re :=
  seq [ws; Opt (Cls (fun c => (c =? 58) || (c =? 45) || (c =? 61))); ws].

(** [_AMT = (\d{1,3}(?:\.\d{3})*,\d{2})] *)
Definition AMT : re :=
  Grp (seq [digit; Opt (Seq digit (Opt digit));
            Star (seq [chr 46; digit; digit; digit]);
            chr 44; digit; digit]).

(** [_EUR]: optionally EUR or the euro sign, then blanks; under [(?i)] *)
Definition EUR : re := Opt (Seq (Alt (ilit "EUR") (chr euro)) ws).

Definition labelled (label : re) : re := seq [label; SEP; EUR; AMT].

Definition AMOUNT_PATTERNS : list re :=
  [ seq [ilit "auszahlungsbetrag"; ws; chr 10; Star (Cls (fun c => negb (c =? 10)));
         NotBehind is_digit; NotBehind (N.eqb 46); AMT];
    labelled (ilit "auszahlungsbetrag");
    labelled (ilit "nettolohn");
    labelled (ilit "nettogehalt");
    labelled (ilit "netto");
    labelled (seq [Cls (fun x => Text.lower_char x =? u_umlaut);
                   ilit "berweisung"; Star (Cls is_word)]);
    labelled (ilit "zahlbetrag");
    labelled (ilit "betrag");
    seq [AMT; ws; Alt (lit "EUR") (chr euro)] ].

End Regex.

(** ** binary64 arithmetic as far as [round(float(s) * 100)] needs it *)

Module Float64.

Local Open Scope Z_scope.

(** A non-negative double: [Fin m e] is [m * 2^e]; [Inf] is [inf]. *)
Inductive float : Type :=
| Fin (m e : Z)
| Inf.

(** Quotient rounded to nearest, ties to even. *)
Definition div_rne (num den : Z) : Z :=
  let q := num / den in
  let r := num mod den in
  if 2 * r <? den then q
  else if den <? 2 * r then q + 1
  else if Z.even q then q else q + 1.

Definition scaled (p q e : Z) : Z * Z :=
  if 0 <=? e then (p, q * 2 ^ e) else (p * 2 ^ (- e), q).

(** The double nearest to [p / q], for [0 <= p] and [0 < q]. *)
Definition of_ratio (p q : Z) : float :=
  if p =? 0 then Fin 0 0
  else
    let e1 := Z.log2 p - Z.log2 q - 52 in
    let '(n1, d1) := scaled p q e1 in
    let e2 := if 2 ^ 52 <=? n1 / d1 then e1 else e1 - 1 in
    let e := Z.max e2 (-1074) in
    let '(n, d) := scaled p q e in
    let m := div_rne n d in
    if (971 <? e) || ((e =? 971) && (2 ^ 53 <=? m)) then Inf else Fin m e.

(** [x * 100] *)
Definition mul100 (x : float) : float :=
  match x with
  | Fin m e => if 0 <=? e then of_ratio (m * 100 * 2 ^ e) 1 else of_ratio (m * 100) (2 ^ (- e))
  | Inf => Inf
  end.

(** [round(x)]: [None] is [OverflowError]. *)
Definition round (x : float) : option Z :=
  match x with
  | Fin m e => Some (if 0 <=? e then m * 2 ^ e else div_rne m (2 ^ (- e)))
  | Inf => None
  end.

Fixpoint digits_value (acc : Z) (ds : list N) : option Z :=
  match ds with
  | [] => Some acc
  | d :: ds' =>
      if Regex.is_digit d then digits_value (10 * acc + (Z.of_N d - 48)) ds' else None
  end.

Fixpoint split_at_dot (ds : list N) : list N * option (list N) :=
  match ds with
  | [] => ([], None)
  | d :: ds' =>
      if (d =? 46)%N then ([], Some ds')
      else let '(a, b) := split_at_dot ds' in (d :: a, b)
  end.

(** [float(s)] on a plain decimal numeral ([digits], [digits.digits],
    [digits.] or [.digits]); [None] is [ValueError].  Signs, exponents,
    [inf]/[nan], underscores and surrounding blanks, which [float] also
    reads, do not occur in a match of [_AMT] and are left out. *)
Definition parse (s : list N) : option float :=
  let '(ip, fp) := split_at_dot s in
  let fp' := default [] fp in
  match ip, fp' with
  | [], [] => None
  | _, _ =>
      match digits_value 0 (ip ++ fp') with
      | Some n => Some (of_ratio n (10 ^ Z.of_nat (List.length fp')))
      | None => None
      end
  end.

End Float64.

(** ** Exceptions *)

Inductive config_reason : Type :=
| MissingVariables (names : list string)
| ConnectionFailed
| AccountNotRetrievable (status : Z)
| NoAccountWithIban.

(** The Python exceptions that occur.  [Diverge] is not one of them: it
    marks a loop of the model that used up its fuel. *)
Inductive exn : Type :=
| ValueError
| OverflowError
| IndexError
| KeyError
| ConnectionError
| QontoConfigError (reason : config_reason)
| Diverge.

(** ** idempotency.py: the table [transfers] *)

Module Ledger.

Inductive transfer_status : Type := pending | success | failed.

#[global] Instance transfer_status_eq_dec : EqDecision transfer_status.
Proof. solve_decision. Defined.

(** One row, without its primary key. *)
Record row : Type := Row {
  employee_name : list N;
  period : list N;
  amount_cents : Z;
  status : transfer_status;
  transfer_id : option (list N);
  created_at : N;
  updated_at : N }.

Definition make_idempotency_key (name period : list N) (amount_cents : Z) : list N :=
  let raw := Text.lower (Text.strip name) ++ [124] ++ period ++ [124]
             ++ Text.str_of_int amount_cents in
  Sha256.hexdigest (Text.encode raw).

Definition is_already_processed (db : gmap (list N) row) (key : list N) : bool :=
  match db !! key with
  | Some r => bool_decide (status r = success)
  | None => false
  end.

(** An INTEGER column holds a signed 64-bit value; sqlite3 raises
    OverflowError when binding a larger [int]. *)
Definition fits_integer (z : Z) : bool :=
  ((- 2 ^ 63 <=? z) && (z <? 2 ^ 63))%Z.

Definition record_pending (now : N) (key name period : list N) (amount_cents : Z)
    (db : gmap (list N) row) : exn + gmap (list N) row :=
  if fits_integer amount_cents then
    match db !! key with
    | None => inr (<[key := Row name period amount_cents pending None now now]> db)
    | Some r =>
        inr (<[key := Row (employee_name r) (Ledger.period r) (Ledger.amount_cents r)
                        pending (transfer_id r) (created_at r) now]> db)
    end
  else inl OverflowError.

Definition record_success (now : N) (key : list N) (transfer_id : option (list N))
    (db : gmap (list N) row) : gmap (list N) row :=
  match db !! key with
  | None => db
  | Some r =>
      <[key := Row (employee_name r) (period r) (amount_cents r)
                 success transfer_id (created_at r) now]> db
  end.

Definition record_failure (now : N) (key : list N)
    (db : gmap (list N) row) : gmap (list N) row :=
  match db !! key with
  | None => db
  | Some r =>
      <[key := Row (employee_name r) (period r) (amount_cents r)
                 failed (Ledger.transfer_id r) (created_at r) now]> db
  end.

End Ledger.

(** ** The world a run acts on *)

Module Http.

Inductive http_request : Type :=
| GetOrganization
| PostVerifyPayee (iban name : list N)
| PostTransfer (idempotency_key vop_proof_token name iban : list N)
    (amount_cents : Z) (period : list N) (sca_session_token : option (list N))
| GetScaSession (token : list N).

(** What the client reads from the JSON body of a response. *)
Record body : Type := Body {
  bank_accounts : list (list N * list N);
  proof_token : option (list N);
  sca_session_token : list N;
  transfer_ref : list N;
  sca_result : list N;
  mentions_idempotency : bool;
  error_message : list N }.

Record response : Type := Response {
  status_code : Z;
  retry_after : option N;
  resp_body : body }.

Inductive raw_result : Type :=
| Answer (r : response)
| RaisesTimeout
| RaisesConnectionError.

(** One call of [requests.request]: how long it takes and how it ends. *)
Record outcome : Type := Outcome { elapsed_ms : N; result : raw_result }.

End Http.

Import Http.

Inductive ledger_write : Type :=
| WritePending (key : list N)
| WriteSuccess (key : list N) (transfer_id : option (list N))
| WriteFailure (key : list N).

Inductive event : Type :=
| EvRequest (req : http_request)
| EvSleep (seconds : N)
| EvCommit (w : ledger_write)
| EvSavePage (page : nat) (path : list N).

Inductive failure : Type :=
| NoError
| VopFailed (e : exn)
| NotReachable
| ScaWithoutToken
| ScaDeniedOrTimeout
| AlreadyKnown
| BankError (message : list N).

Inductive level : Type := INFO | WARNING | ERROR.

Inductive message : Type :=
| CsvLoaded (n : nat)
| PdfProcessing
| PdfSaved (path : list N)
| PageUnmatched (page : nat)
| PdfError (page : option nat)
| TransfersSkipped
| ConfigMissing (reason : config_reason)
| NoAmount (name : list N)
| AlreadyProcessed (name : list N)
| Transferring (name iban_masked : list N) (amount_cents : Z)
| PleaseApprove (name : list N)
| WaitingForApproval (remaining_s : N)
| ScaDenied
| ScaTimeout
| TransferOk (name : list N) (transfer_id : option (list N))
| TransferFailed (name : list N) (error : failure)
| Summary (period : list N) (saved ok failed : nat) (failed_names : list (list N)).

(** [clock] is [time.time()] in milliseconds, [bank] what the coming
    calls of [requests.request] meet (an exhausted script is an
    unreachable bank), [db] the table, [trace] the effects so far with
    the latest first, [logs] the list that [_log] appends to. *)
Record world : Type := World {
  clock : N;
  bank : list outcome;
  db : gmap (list N) Ledger.row;
  trace : list event;
  logs : list (level * message) }.

(** ** State and exceptions *)

Definition M (A : Type) : Type := world -> (exn + A) * world.

#[global] Instance M_ret : MRet M := fun A a w => (inr a, w).

#[global] Instance M_bind : MBind M := fun A B f m w =>
  match m w with
  | (inr a, w') => f a w'
  | (inl e, w') => (inl e, w')
  end.

Definition raise {A} (e : exn) : M A := fun w => (inl e, w).

(** [try: m  except <handles>: h] *)
Definition try_except {A} (m : M A) (handles : exn -> bool) (h : exn -> M A) : M A :=
  fun w =>
    match m w with
    | (inl e, w') => if handles e then h e w' else (inl e, w')
    | r => r
    end.

Definition lift {A} (r : exn + A) : M A := fun w => (r, w).

Definition emit (ev : event) : M unit :=
  fun w => (inr tt, World (clock w) (bank w) (db w) (ev :: trace w) (logs w)).

Definition _log (l : level) (msg : message) : M unit :=
  fun w => (inr tt, World (clock w) (bank w) (db w) (trace w) (logs w ++ [(l, msg)])).

Definition now : M N := fun w => (inr (clock w), w).

(** [time.sleep(seconds)] *)
Definition sleep (seconds : N) : M unit :=
  fun w => (inr tt, World (clock w + 1000 * seconds) (bank w) (db w)
                      (EvSleep seconds :: trace w) (logs w)).

(** [requests.request(...)] *)
Definition send (req : http_request) : M raw_result :=
  fun w =>
    match bank w with
    | o :: script =>
        (inr (result o),
         World (clock w + elapsed_ms o) script (db w) (EvRequest req :: trace w) (logs w))
    | [] =>
        (inr RaisesConnectionError,
         World (clock w) [] (db w) (EvRequest req :: trace w) (logs w))
    end.

Definition is_python_exception (e : exn) : bool :=
  match e with Diverge => false | _ => true end.

Definition is_connection_error (e : exn) : bool :=
  match e with ConnectionError => true | _ => false end.

Definition is_config_error (e : exn) : bool :=
  match e with QontoConfigError _ => true | _ => false end.

(** The ledger operations as effects: each commits before it returns. *)
Definition is_already_processed (key : list N) : M bool :=
  fun w => (inr (Ledger.is_already_processed (db w) key), w).

Definition record_pending (key name period : list N) (amount_cents : Z) : M unit :=
  fun w =>
    match Ledger.record_pending (clock w) key name period amount_cents (db w) with
    | inr db' =>
        (inr tt, World (clock w) (bank w) db' (EvCommit (WritePending key) :: trace w) (logs w))
    | inl e => (inl e, w)
    end.

Definition record_success (key : list N) (transfer_id : option (list N)) : M unit :=
  fun w =>
    (inr tt, World (clock w) (bank w) (Ledger.record_success (clock w) key transfer_id (db w))
               (EvCommit (WriteSuccess key transfer_id) :: trace w) (logs w)).

Definition record_failure (key : list N) (error : failure) : M unit :=
  fun w =>
    (inr tt, World (clock w) (bank w) (Ledger.record_failure (clock w) key (db w))
               (EvCommit (WriteFailure key) :: trace w) (logs w)).

(** ** pdf_processor.py *)

Module Pdf.

(** csv_parser.Employee *)
Record Employee : Type := MkEmployee {
  name : list N;
  iban : list N;
  iban_masked : list N;
  target_dir : list N;
  page_index : Z;
  amount_cents : Z;
  pdf_saved : bool }.

Record ProcessingResult : Type := MkResult {
  saved_files : list (list N);
  unmatched_pages : list nat;
  errors : list (option nat) }.

Definition _german_amount_to_cents (amount_str : list N) : exn + Z :=
  match Float64.parse (Text.replace_char 44 [46] (Text.replace_char 46 [] amount_str)) with
  | None => inl ValueError
  | Some x =>
      match Float64.round (Float64.mul100 x) with
      | None => inl OverflowError
      | Some n => inr n
      end
  end.

(** The [for] loop of [_extract_amount] over the remaining patterns.
    ValueError and OverflowError, which the loop catches, are the only
    exceptions of [_german_amount_to_cents]. *)
Fixpoint extract_amount_loop (patterns : list Regex.re) (text : list N) : Z :=
  match patterns with
  | [] => 0%Z
  | pattern :: patterns' =>
      match Regex.search pattern text with
      | Some g =>
          match _german_amount_to_cents g with
          | inr cents =>
              if (0 <? cents)%Z then cents else extract_amount_loop patterns' text
          | inl _ => extract_amount_loop patterns' text
          end
      | None => extract_amount_loop patterns' text
      end
  end.

Definition _extract_amount (text : list N) : Z :=
  extract_amount_loop Regex.AMOUNT_PATTERNS text.

(** [_make_filename]; [parts[0]] of a blank name raises IndexError. *)
Definition _make_filename (name period : list N) : exn + list N :=
  let period_compact := Text.replace_char 45 [] period in
  match Text.split (Text.strip name) with
  | [] => inl IndexError
  | first :: more =>
      let last := List.last more first in
      inr (period_compact ++ [95] ++ Text.upper (firstn 1 first ++ firstn 2 last))
  end.

(** [_score_name_match] *)
Definition _score_name_match (text name : list N) : exn + Q :=
  let text_lower := Text.lower text in
  let name_lower := Text.strip (Text.lower name) in
  if Text.contains text_lower name_lower then inr 1%Q
  else
    match Text.split name_lower with
    | [] => inl IndexError
    | [part] => inr (if Text.contains text_lower part then 1%Q else 0%Q)
    | first :: more =>
        if forallb (Text.contains text_lower) (first :: more) then inr (7 # 10)%Q
        else if Text.contains text_lower (List.last more first) then inr (4 # 10)%Q
        else if Text.contains text_lower first then inr (2 # 10)%Q
        else inr 0%Q
    end.

(** The inner loop of [process_pdf]: the employee, by position in the
    roster, with the first strictly greater score. *)
Fixpoint best_match (text : list N) (employees : list Employee) (i : nat)
    (best_score : Q) (best_emp : option nat) : exn + (Q * option nat) :=
  match employees with
  | [] => inr (best_score, best_emp)
  | emp :: employees' =>
      match _score_name_match text (name emp) with
      | inl e => inl e
      | inr score =>
          if negb (Qle_bool score best_score)
          then best_match text employees' (S i) score (Some i)
          else best_match text employees' (S i) best_score best_emp
      end
  end.

(** Is the page kept, and for which employee: the test
    [best_emp is None or best_score < 0.4]. *)
Definition match_page (text : list N) (employees : list Employee) : exn + option nat :=
  match best_match text employees 0 0%Q None with
  | inl e => inl e
  | inr (best_score, best_emp) =>
      match best_emp with
      | None => inr None
      | Some i => if negb (Qle_bool (4 # 10) best_score) then inr None else inr (Some i)
      end
  end.

Definition set_match (idx : nat) (amount : Z) (e : Employee) : Employee :=
  MkEmployee (name e) (iban e) (iban_masked e) (target_dir e)
    (Z.of_nat idx) amount (pdf_saved e).

Definition set_saved (e : Employee) : Employee :=
  MkEmployee (name e) (iban e) (iban_masked e) (target_dir e)
    (page_index e) (amount_cents e) true.

(** One page of the loop of [process_pdf].  [writable] tells whether
    writing a path succeeds (otherwise OSError). *)
Definition process_page (writable : list N -> bool) (period : list N)
    (skip_save : list (list N)) (idx : nat) (text : list N)
    (st : list Employee * ProcessingResult) : M (list Employee * ProcessingResult) :=
  let '(employees, res) := st in
  let amount := _extract_amount text in
  best ← lift (match_page text employees);
  match best with
  | None =>
      mret (employees,
            MkResult (saved_files res) (unmatched_pages res ++ [S idx]) (errors res))
  | Some i =>
      match employees !! i with
      | None => mret (employees, res)
      | Some emp =>
          let employees1 := <[i := set_match idx amount emp]> employees in
          if bool_decide (name emp ∈ skip_save) then mret (employees1, res)
          else
            file ← lift (_make_filename (name emp) period);
            let output_path := target_dir emp ++ [47] ++ file ++ Text.of_string ".pdf" in
            if writable output_path then
              emit (EvSavePage idx output_path);;
              mret (<[i := set_saved (set_match idx amount emp)]> employees1,
                    MkResult (saved_files res ++ [output_path]) (unmatched_pages res)
                      (errors res))
            else
              mret (employees1,
                    MkResult (saved_files res) (unmatched_pages res)
                      (errors res ++ [Some (S idx)]))
      end
  end.

Fixpoint process_pages (writable : list N -> bool) (period : list N)
    (skip_save : list (list N)) (idx : nat) (pages : list (list N))
    (st : list Employee * ProcessingResult) : M (list Employee * ProcessingResult) :=
  match pages with
  | [] => mret st
  | text :: pages' =>
      st' ← process_page writable period skip_save idx text st;
      process_pages writable period skip_save (S idx) pages' st'
  end.

(** [process_pdf].  The document is [None] when it cannot be opened,
    else the text of its pages (empty where extraction fails).  The
    roster is updated in place; the updated roster is returned with the
    result. *)
Definition process_pdf (writable : list N -> bool) (pdf : option (list (list N)))
    (employees : list Employee) (period : list N) (skip_save : list (list N))
    : M (list Employee * ProcessingResult) :=
  match pdf with
  | None => mret (employees, MkResult [] [] [None])
  | Some pages =>
      process_pages writable period skip_save 0 pages (employees, MkResult [] [] [])
  end.

End Pdf.

(** ** qonto_client.py *)

Module Qonto.

Record TransferResult : Type := MkTransferResult {
  success : bool;
  transfer_id : option (list N);
  error : failure;
  status_code : option Z }.

(** The environment variables, empty when unset. *)
Record environ : Type := Environ {
  QONTO_LOGIN : list N;
  QONTO_SECRET_KEY : list N;
  QONTO_DEBIT_IBAN : list N;
  QONTO_CLIENT_ID : list N;
  QONTO_CLIENT_SECRET : list N }.

Record QontoClient : Type := MkClient {
  debit_iban : list N;
  _bank_account_id : list N }.

Definition is_transient (code : Z) : bool := ((code =? 429) || (500 <=? code))%Z.

(** The loop [for attempt in range(1, retries + 1)] of [_request];
    [left] counts the attempts that remain. *)
Fixpoint request_attempts (req : http_request) (retries attempt : N) (left : nat)
    : M response :=
  match left with
  | O => raise ConnectionError
  | S left' =>
      r ← send req;
      match r with
      | Answer resp =>
          if is_transient (Http.status_code resp) && (attempt <? retries)
          then sleep (default (2 ^ attempt) (retry_after resp));;
               request_attempts req retries (attempt + 1) left'
          else mret resp
      | RaisesTimeout | RaisesConnectionError =>
          (if attempt <? retries then sleep (2 ^ attempt) else mret tt);;
          request_attempts req retries (attempt + 1) left'
      end
  end.

Definition _request_with (retries : N) (req : http_request) : M response :=
  request_attempts req retries 1 (N.to_nat retries).

(** [_request] with its default [retries=3], as every caller uses it. *)
Definition _request (req : http_request) : M response := _request_with 3 req.

(** [try: resp = self._request(...)] with [except ConnectionError]
    around it: [None] stands for the exception that was caught. *)
Definition _request_caught (req : http_request) : M (option response) :=
  try_except (r ← _request req; mret (Some r)) is_connection_error (fun _ => mret None).

Definition _resolve_bank_account_id (debit_iban : list N) : M (list N) :=
  resp ← try_except (_request GetOrganization) is_connection_error
            (fun _ => raise (QontoConfigError ConnectionFailed));
  if negb (Http.status_code resp =? 200)%Z
  then raise (QontoConfigError (AccountNotRetrievable (Http.status_code resp)))
  else
    match List.find (fun a => bool_decide (fst a = debit_iban))
            (bank_accounts (resp_body resp)) with
    | Some a => mret (snd a)
    | None => raise (QontoConfigError NoAccountWithIban)
    end.

Definition missing_variables (env : environ) : list string :=
  List.map fst
    (List.filter (fun p => match Text.strip (snd p) with [] => true | _ => false end)
       [("QONTO_LOGIN"%string, QONTO_LOGIN env);
        ("QONTO_SECRET_KEY"%string, QONTO_SECRET_KEY env);
        ("QONTO_DEBIT_IBAN"%string, QONTO_DEBIT_IBAN env);
        ("QONTO_CLIENT_ID"%string, QONTO_CLIENT_ID env);
        ("QONTO_CLIENT_SECRET"%string, QONTO_CLIENT_SECRET env)]).

(** [QontoClient.__init__] *)
Definition new_client (env : environ) : M QontoClient :=
  match missing_variables env with
  | [] =>
      let iban := Text.strip (QONTO_DEBIT_IBAN env) in
      id ← _resolve_bank_account_id iban;
      mret (MkClient iban id)
  | missing => raise (QontoConfigError (MissingVariables missing))
  end.

Definition _verify_payee (iban name : list N) : M (list N) :=
  resp ← try_except (_request (PostVerifyPayee iban name)) is_connection_error
            (fun _ => raise ValueError);
  if negb (Http.status_code resp =? 200)%Z then raise ValueError
  else
    match proof_token (resp_body resp) with
    | Some token => mret token
    | None => raise KeyError
    end.

Definition is_denial (result : list N) : bool :=
  bool_decide (result ∈ [Text.of_string "deny"; Text.of_string "denied";
                          Text.of_string "rejected"; Text.of_string "cancel"]).

(** The [while time.time() < deadline] loop of [_poll_sca_session]. *)
Fixpoint poll_loop (fuel : nat) (token : list N) (deadline last_log_at : N) : M bool :=
  match fuel with
  | O => raise Diverge
  | S fuel' =>
      t ← now;
      if t <? deadline then
        last ← (if 10000 <=? t - last_log_at
                then _log INFO (WaitingForApproval ((deadline - t) / 1000));; mret t
                else mret last_log_at);
        polled ← _request_caught (GetScaSession token);
        match polled with
        | None => sleep 2;; poll_loop fuel' token deadline last
        | Some resp =>
            if (Http.status_code resp =? 200)%Z then
              let result := sca_result (resp_body resp) in
              if bool_decide (result = Text.of_string "allow") then mret true
              else if is_denial result then _log WARNING ScaDenied;; mret false
              else sleep 2;; poll_loop fuel' token deadline last
            else sleep 2;; poll_loop fuel' token deadline last
        end
      else _log WARNING ScaTimeout;; mret false
  end.

(** Every turn of the loop that goes on sleeps two seconds, so
    [timeout_seconds / 2 + 2] tests of the loop condition are enough. *)
Definition poll_fuel (timeout_seconds : N) : nat := N.to_nat (timeout_seconds / 2 + 2).

Definition _poll_sca_session_for (timeout_seconds : N) (sca_session_token : list N) : M bool :=
  t ← now;
  poll_loop (poll_fuel timeout_seconds) sca_session_token (t + 1000 * timeout_seconds) 0.

(** [_poll_sca_session] with its default [timeout_seconds=300]. *)
Definition _poll_sca_session (sca_session_token : list N) : M bool :=
  _poll_sca_session_for 300 sca_session_token.

Definition _parse_transfer_response (resp : response) : TransferResult :=
  let code := Http.status_code resp in
  if ((code =? 200) || (code =? 201))%Z then
    MkTransferResult true (Some (transfer_ref (resp_body resp))) NoError (Some code)
  else if (code =? 422)%Z then
    if mentions_idempotency (resp_body resp)
    then MkTransferResult true None AlreadyKnown (Some 422%Z)
    else MkTransferResult false None (BankError (error_message (resp_body resp))) (Some 422%Z)
  else MkTransferResult false None (BankError (error_message (resp_body resp))) (Some code).

Definition create_transfer (self : QontoClient) (credit_name credit_iban : list N)
    (amount_cents : Z) (period idempotency_key : list N) : M TransferResult :=
  vop ← try_except (t ← _verify_payee credit_iban credit_name; mret (inr t))
          is_python_exception (fun e => mret (inl e));
  match vop with
  | inl e => mret (MkTransferResult false None (VopFailed e) None)
  | inr vop_token =>
      let post := PostTransfer idempotency_key vop_token credit_name credit_iban
                    amount_cents period in
      first ← _request_caught (post None);
      match first with
      | None => mret (MkTransferResult false None NotReachable None)
      | Some resp =>
          if (Http.status_code resp =? 428)%Z then
            let sca_token := sca_session_token (resp_body resp) in
            match sca_token with
            | [] => mret (MkTransferResult false None ScaWithoutToken (Some 428%Z))
            | _ =>
                _log INFO (PleaseApprove credit_name);;
                approved ← _poll_sca_session sca_token;
                if (approved : bool) then
                  second ← _request_caught (post (Some sca_token));
                  match second with
                  | None => mret (MkTransferResult false None NotReachable None)
                  | Some resp2 => mret (_parse_transfer_response resp2)
                  end
                else mret (MkTransferResult false None ScaDeniedOrTimeout (Some 428%Z))
            end
          else mret (_parse_transfer_response resp)
      end
  end.

End Qonto.

(** ** __init__.py: the tool [payroll_process] *)

Module Payroll.

Record ParseResult : Type := MkParseResult {
  employees : list Pdf.Employee;
  errors : list (list N) }.

Inductive report : Type :=
| CsvErrors (errors : list (list N))
| NoValidEmployees
| Logs (lines : list (level * message)).

(** The body of [for emp in employees]; [acc] is
    [(transfer_ok, transfer_fail)]. *)
Definition process_employee (client : Qonto.QontoClient) (period : list N)
    (emp : Pdf.Employee) (acc : list (list N) * list (list N))
    : M (list (list N) * list (list N)) :=
  let '(transfer_ok, transfer_fail) := acc in
  if (Pdf.amount_cents emp <=? 0)%Z then
    _log WARNING (NoAmount (Pdf.name emp));;
    mret (transfer_ok, transfer_fail ++ [Pdf.name emp])
  else
    let key := Ledger.make_idempotency_key (Pdf.name emp) period (Pdf.amount_cents emp) in
    done ← is_already_processed key;
    if (done : bool) then
      _log INFO (AlreadyProcessed (Pdf.name emp));;
      mret (transfer_ok ++ [Pdf.name emp], transfer_fail)
    else
      record_pending key (Pdf.name emp) period (Pdf.amount_cents emp);;
      _log INFO (Transferring (Pdf.name emp) (Pdf.iban_masked emp) (Pdf.amount_cents emp));;
      result ← Qonto.create_transfer client (Pdf.name emp) (Pdf.iban emp)
                  (Pdf.amount_cents emp) period key;
      if Qonto.success result then
        record_success key (Qonto.transfer_id result);;
        _log INFO (TransferOk (Pdf.name emp) (Qonto.transfer_id result));;
        mret (transfer_ok ++ [Pdf.name emp], transfer_fail)
      else
        record_failure key (Qonto.error result);;
        _log ERROR (TransferFailed (Pdf.name emp) (Qonto.error result));;
        mret (transfer_ok, transfer_fail ++ [Pdf.name emp])
  .

Fixpoint process_employees (client : Qonto.QontoClient) (period : list N)
    (emps : list Pdf.Employee) (acc : list (list N) * list (list N))
    : M (list (list N) * list (list N)) :=
  match emps with
  | [] => mret acc
  | emp :: emps' =>
      acc' ← process_employee client period emp acc;
      process_employees client period emps' acc'
  end.

Definition log_each {A} (l : level) (f : A -> message) (xs : list A) : M unit :=
  fun w => (inr tt, World (clock w) (bank w) (db w) (trace w)
                      (logs w ++ List.map (fun x => (l, f x)) xs)).

Definition start_logs : M unit :=
  fun w => (inr tt, World (clock w) (bank w) (db w) (trace w) []).

Definition get_logs : M (list (level * message)) := fun w => (inr (logs w), w).

(** [payroll_process].  [csv_result] is what [parse_csv] returned,
    [pdf] the document (see [Pdf.process_pdf]), [period] the billing
    period, already defaulted. *)
Definition payroll_process (env : Qonto.environ) (writable : list N -> bool)
    (pdf : option (list (list N))) (csv_result : ParseResult)
    (period : list N) (skip_transfers : bool) : M report :=
  start_logs;;
  match errors csv_result, employees csv_result with
  | _ :: _, _ => mret (CsvErrors (errors csv_result))
  | [], [] => mret NoValidEmployees
  | [], roster =>
      _log INFO (CsvLoaded (List.length roster));;
      _log INFO PdfProcessing;;
      processed ← Pdf.process_pdf writable pdf roster period [];
      let emps := fst processed in
      let pdf_result := snd processed in
      log_each INFO PdfSaved (Pdf.saved_files pdf_result);;
      log_each WARNING PageUnmatched (Pdf.unmatched_pages pdf_result);;
      log_each ERROR PdfError (Pdf.errors pdf_result);;
      if skip_transfers then
        _log INFO TransfersSkipped;;
        lines ← get_logs; mret (Logs lines)
      else
        made ← try_except (c ← Qonto.new_client env; mret (inr c))
                 is_config_error
                 (fun e => mret (inl e));
        match made with
        | inl (QontoConfigError reason) =>
            _log ERROR (ConfigMissing reason);;
            lines ← get_logs; mret (Logs lines)
        | inl e => raise e
        | inr client =>
            counted ← process_employees client period emps ([], []);
            let transfer_ok := fst counted in
            let transfer_fail := snd counted in
            _log INFO (Summary period (List.length (Pdf.saved_files pdf_result))
                         (List.length transfer_ok) (List.length transfer_fail)
                         transfer_fail);;
            lines ← get_logs; mret (Logs lines)
        end
  end.

End Payroll.

(** ** utils/iban_validator.py *)

Module Iban.

Definition entry (country : string) (length : N) : list N * N :=
  (Text.of_string country, length).

(** Country code to the total length of its IBANs. *)
Definition IBAN_LENGTHS : gmap (list N) N :=
  list_to_map
    [entry "AL" 28; entry "AD" 24; entry "AT" 20; entry "AZ" 28; entry "BH" 22;
     entry "BE" 16; entry "BA" 20; entry "BR" 29; entry "BG" 22; entry "CR" 22;
     entry "HR" 21; entry "CY" 28; entry "CZ" 24; entry "DK" 18; entry "DO" 28;
     entry "EE" 20; entry "EG" 29; entry "FO" 18; entry "FI" 18; entry "FR" 27;
     entry "GE" 22; entry "DE" 22; entry "GI" 23; entry "GR" 27; entry "GL" 18;
     entry "GT" 28; entry "HU" 28; entry "IS" 26; entry "IQ" 23; entry "IE" 22;
     entry "IL" 23; entry "IT" 27; entry "JO" 30; entry "KZ" 20; entry "XK" 20;
     entry "KW" 30; entry "LV" 21; entry "LB" 28; entry "LI" 21; entry "LT" 20;
     entry "LU" 20; entry "MT" 31; entry "MR" 27; entry "MU" 30; entry "MD" 24;
     entry "MC" 27; entry "ME" 22; entry "NL" 18; entry "MK" 19; entry "NO" 15;
     entry "PK" 24; entry "PS" 29; entry "PL" 28; entry "PT" 25; entry "QA" 29;
     entry "RO" 24; entry "LC" 32; entry "SM" 27; entry "SA" 24; entry "RS" 22;
     entry "SK" 24; entry "SI" 19; entry "ES" 24; entry "SE" 24; entry "CH" 21;
     entry "TL" 23; entry "TN" 24; entry "TR" 26; entry "UA" 29; entry "AE" 23;
     entry "GB" 22; entry "VA" 22; entry "VG" 24; entry "YE" 30].

Definition is_upper (c : N) : bool := (65 <=? c) && (c <=? 90).

(** The class [A-Z0-9]. *)
Definition is_upper_or_digit (c : N) : bool := is_upper c || Regex.is_digit c.

(** [_IBAN_RE] without its anchors: two letters, two digits, one or
    more letters or digits. *)
Definition _IBAN_RE : Regex.re :=
  Regex.seq [Regex.Cls is_upper; Regex.Cls is_upper;
             Regex.Cls Regex.is_digit; Regex.Cls Regex.is_digit;
             Regex.Cls is_upper_or_digit; Regex.Star (Regex.Cls is_upper_or_digit)].

(** The closing [$]: the end of the text, or the line feed that ends
    the text. *)
Definition at_end (st : Regex.mstate) : option Regex.mstate :=
  match Regex.rest st with
  | [] | [10] => Some st
  | _ => None
  end.

(** [_IBAN_RE.match(s)] as a truth value; [match] anchors at the start. *)
Definition iban_re_match (s : list N) : bool :=
  match Regex.run _IBAN_RE (Regex.MState [] s None) at_end with
  | Some _ => true
  | None => false
  end.

Record ValidationResult : Type := MkValidation {
  valid : bool;
  masked : list N;
  error : list N }.

(** [ch.isalpha()] on the code points below 256 and on the two capitals
    beyond them that [str.upper] makes of such code points. *)
Definition isalpha_char (c : N) : bool :=
  ((65 <=? c) && (c <=? 90)) || ((97 <=? c) && (c <=? 122))
  || (c =? 170) || (c =? 181) || (c =? 186)
  || ((192 <=? c) && (c <=? 255) && negb (c =? 215) && negb (c =? 247))
  || (c =? 376) || (c =? 924).

(** [s.isalpha()]: false on the empty string. *)
Definition isalpha (s : list N) : bool :=
  match s with
  | [] => false
  | _ => forallb isalpha_char s
  end.

(** The blanks that [int] skips at both ends of its argument. *)
Definition int_space (c : N) : bool :=
  ((9 <=? c) && (c <=? 13)) || (c =? 32) || ((127 <? c) && Text.isspace c).

Fixpoint skip_leading (p : N -> bool) (s : list N) : list N :=
  match s with
  | c :: s' => if p c then skip_leading p s' else s
  | [] => []
  end.

(** The digits of a numeral, with single underscores between digits:
    the value and the number of digits read. *)
Fixpoint int_body (after_digit : bool) (acc : Z) (count : nat) (s : list N)
    : option (Z * nat) :=
  match s with
  | [] => if after_digit then Some (acc, count) else None
  | c :: s' =>
      if Regex.is_digit c
      then int_body true (10 * acc + (Z.of_N c - 48)) (S count) s'
      else if (c =? 95) && after_digit then int_body false acc count s'
      else None
  end.

(** [int(s)] for a [str]: blanks around, a sign, decimal digits.
    CPython refuses a numeral of more than 4300 digits. *)
Definition int (s : list N) : exn + Z :=
  let t := rev (skip_leading int_space (rev (skip_leading int_space s))) in
  let signed :=
    match t with
    | 45 :: body => (true, body)
    | 43 :: body => (false, body)
    | _ => (false, t)
    end in
  match int_body false 0 0 (snd signed) with
  | Some (v, count) =>
      if (4300 <? count)%nat then inl ValueError
      else inr (if fst signed then (- v)%Z else v)
  | None => inl ValueError
  end.

Definition _iban_to_int (iban : list N) : exn + Z :=
  let rearranged := skipn 4 iban ++ firstn 4 iban in
  let digits :=
    List.concat
      (List.map (fun ch => if isalpha_char ch
                           then Text.str_of_int (Z.of_N ch - 55) else [ch])
         rearranged) in
  int digits.

Definition _mask_iban (iban : list N) : list N :=
  if (List.length iban <? 8)%nat then iban
  else firstn 4 iban ++ List.repeat 42 (List.length iban - 8)
       ++ skipn (List.length iban - 4) iban.

(** [raw.strip().replace(" ", "").upper()] *)
Definition normalize (raw : list N) : list N :=
  Text.upper (Text.replace_char 32 [] (Text.strip raw)).

Definition validate_iban (raw : list N) : exn + ValidationResult :=
  let iban := normalize raw in
  let rejected (error : list N) := inr (MkValidation false (_mask_iban iban) error) in
  if (List.length iban <? 5)%nat then rejected (Text.of_string "IBAN ist zu kurz.")
  else
    let country := firstn 2 iban in
    if negb (isalpha country) then rejected (Text.of_string "Ungultiger Laendercode.")
    else
      match IBAN_LENGTHS !! country with
      | None => rejected (Text.of_string "Unbekannter Laendercode: " ++ country)
      | Some expected_len =>
          if negb (N.of_nat (List.length iban) =? expected_len) then
            rejected (Text.of_string "Falsche IBAN-Laenge fuer " ++ country
                      ++ Text.of_string ": erwartet "
                      ++ Text.str_of_int (Z.of_N expected_len)
                      ++ Text.of_string ", erhalten "
                      ++ Text.str_of_int (Z.of_nat (List.length iban))
                      ++ Text.of_string ".")
          else if negb (iban_re_match iban) then
            rejected (Text.of_string "IBAN enthaelt ungueltige Zeichen.")
          else
            match _iban_to_int iban with
            | inl e => inl e
            | inr n =>
                if negb (n mod 97 =? 1)%Z then
                  rejected (Text.of_string "IBAN-Pruefsumme (MOD-97) ungueltig.")
                else inr (MkValidation true (_mask_iban iban) [])
            end
      end.

End Iban.

(** ** csv_parser.py *)

Module Csv.

(** How the file at the path reads.  [Table rows fails] stands for a
    file that decodes ([utf-8-sig], else [latin-1]): [rows] are the
    records that [csv.reader] yields for it under the sniffed dialect,
    the header first, and [fails] tells whether the reader then raises
    [csv.Error] instead of stopping. *)
Inductive source : Type :=
| NotFound
| ReadFails
| NotDecodable
| Table (rows : list (list (list N))) (fails : bool).

(** [Path(raw_dir).expanduser().resolve()] and [mkdir(parents=True,
    exist_ok=True)] on it, as the file system answers: the resolved
    directory is there; [mkdir] raises [OSError] with this text; or one
    of the three calls raises another exception.  The directories that
    [mkdir] makes are not part of the model. *)
Inductive dir_outcome : Type :=
| DirReady (target_dir : list N)
| DirRefused (message : list N)
| DirRaises.

(** The set [REQUIRED_COLUMNS], in sorted order. *)
Definition REQUIRED_COLUMNS : list (list N) :=
  [Text.of_string "iban"; Text.of_string "name"; Text.of_string "zielordner"].

(** [sep.join(parts)] *)
Fixpoint join (sep : list N) (parts : list (list N)) : list N :=
  match parts with
  | [] => []
  | [p] => p
  | p :: parts' => p ++ sep ++ join sep parts'
  end.

(** [{f.strip().lower(): f for f in fieldnames}]: a later field name
    replaces an earlier one with the same key. *)
Definition fieldnames_lower (fieldnames : list (list N)) : gmap (list N) (list N) :=
  fold_left (fun m f => <[Text.lower (Text.strip f) := f]> m) fieldnames ∅.

(** The dict that [csv.DictReader] makes of a record: the cells by
    field name, [None] for the fields that the record is too short for.
    Cells beyond the field names go under the key [None], which no
    column name equals, and are left out. *)
Definition dict_row (fieldnames record : list (list N)) : gmap (list N) (option (list N)) :=
  let d := fold_left (fun d kv => <[fst kv := Some (snd kv)]> d)
             (combine fieldnames record) ∅ in
  fold_left (fun d key => <[key := None]> d) (skipn (List.length record) fieldnames) d.

(** [row.get(col) or ""] *)
Definition get_or_empty (row : gmap (list N) (option (list N))) (col : list N) : list N :=
  match row !! col with
  | Some (Some cell) => cell
  | _ => []
  end.

Definition row_label (row_num : Z) (name : list N) : list N :=
  Text.of_string "Zeile " ++ Text.str_of_int row_num ++ Text.of_string " ("
  ++ name ++ Text.of_string "): ".

(** The body of [for row_num, row in enumerate(reader, start=2)] for one
    record; [None] when an exception leaves the loop. *)
Definition parse_row (prepare : list N -> dir_outcome)
    (fieldnames : list (list N)) (name_col iban_col dir_col : list N)
    (row_num : Z) (record : list (list N)) (result : Payroll.ParseResult)
    : option Payroll.ParseResult :=
  let row := dict_row fieldnames record in
  let name := Text.strip (get_or_empty row name_col) in
  let raw_iban :=
    Text.upper (Text.replace_char 32 [] (Text.strip (get_or_empty row iban_col))) in
  let raw_dir := Text.strip (get_or_empty row dir_col) in
  let failed (error : list N) :=
    Some (Payroll.MkParseResult (Payroll.employees result)
            (Payroll.errors result ++ [error])) in
  match name with
  | [] =>
      failed (Text.of_string "Zeile " ++ Text.str_of_int row_num
              ++ Text.of_string ": Kein Name angegeben.")
  | _ =>
      match Iban.validate_iban raw_iban with
      | inl _ => None
      | inr iban_result =>
          if negb (Iban.valid iban_result) then
            failed (row_label row_num name ++ Text.of_string "IBAN ungueltig "
                    ++ [8211] ++ Text.of_string " " ++ Iban.error iban_result)
          else
            match raw_dir with
            | [] => failed (row_label row_num name
                            ++ Text.of_string "Kein Zielordner angegeben.")
            | _ =>
                match prepare raw_dir with
                | DirRaises => None
                | DirRefused exc =>
                    failed (row_label row_num name
                            ++ Text.of_string "Zielordner konnte nicht erstellt werden: "
                            ++ exc)
                | DirReady target_dir =>
                    Some (Payroll.MkParseResult
                            (Payroll.employees result
                             ++ [Pdf.MkEmployee name raw_iban (Iban.masked iban_result)
                                   target_dir (-1) 0 false])
                            (Payroll.errors result))
                end
            end
      end
  end.

(** The loop over the records after the header.  [csv.DictReader] passes
    over empty records; they are not counted. *)
Fixpoint parse_rows (prepare : list N -> dir_outcome)
    (fieldnames : list (list N)) (name_col iban_col dir_col : list N)
    (row_num : Z) (records : list (list (list N))) (result : Payroll.ParseResult)
    : option Payroll.ParseResult :=
  match records with
  | [] => Some result
  | [] :: records' =>
      parse_rows prepare fieldnames name_col iban_col dir_col row_num records' result
  | record :: records' =>
      match parse_row prepare fieldnames name_col iban_col dir_col row_num record result with
      | Some result' =>
          parse_rows prepare fieldnames name_col iban_col dir_col (row_num + 1) records'
            result'
      | None => None
      end
  end.

(** [parse_csv]; [path] is [str(Path(path))].  [None] stands for an
    exception that leaves the function. *)
Definition parse_csv (path : list N) (src : source) (prepare : list N -> dir_outcome)
    : option Payroll.ParseResult :=
  let only (error : list N) := Some (Payroll.MkParseResult [] [error]) in
  match src with
  | NotFound => only (Text.of_string "CSV-Datei nicht gefunden: " ++ path)
  | ReadFails => None
  | NotDecodable =>
      only (Text.of_string "CSV-Datei konnte nicht gelesen werden (Encoding-Fehler).")
  | Table [] true => None
  | Table [] false => only (Text.of_string "CSV hat keine Kopfzeile.")
  | Table (fieldnames :: records) fails =>
      let lowered := fieldnames_lower fieldnames in
      let missing :=
        List.filter (fun col => match lowered !! col with Some _ => false | None => true end)
          REQUIRED_COLUMNS in
      match missing with
      | _ :: _ =>
          only (Text.of_string "CSV fehlen Spalten: "
                ++ join (Text.of_string ", ") missing
                ++ Text.of_string ". Erwartet: "
                ++ join (Text.of_string ", ") REQUIRED_COLUMNS ++ Text.of_string ".")
      | [] =>
          match lowered !! Text.of_string "name", lowered !! Text.of_string "iban",
                lowered !! Text.of_string "zielordner" with
          | Some name_col, Some iban_col, Some dir_col =>
              match parse_rows prepare fieldnames name_col iban_col dir_col 2 records
                      (Payroll.MkParseResult [] []) with
              | Some result =>
                  if fails then None
                  else
                    match Payroll.employees result, Payroll.errors result with
                    | [], [] =>
                        Some (Payroll.MkParseResult []
                                [Text.of_string "CSV enthaelt keine gueltigen Eintraege."])
                    | _, _ => Some result
                    end
              | None => None
              end
          | _, _, _ => None
          end
      end
  end.

End Csv.

(** ** Amounts as text

    The expression [f"{amount_cents / 100:.2f}"] of qonto_client.py
    (the amount of the transfer payload) and of __init__.py (the log
    line of a transfer and the answer of [payroll_check_transfer]). *)

Module Money.

Definition two_digits (n : Z) : list N :=
  [Z.to_N (48 + n / 10); Z.to_N (48 + n mod 10)].

(** [format(x, ".2f")] for a finite double [m * 2^e] that is not
    negative: the value in hundredths, rounded to nearest with ties to
    even, then written with two decimals. *)
Definition format_2f (m e : Z) : list N :=
  let hundredths :=
    if (0 <=? e)%Z then (m * 2 ^ e * 100)%Z
    else Float64.div_rne (m * 100) (2 ^ (- e)) in
  Text.str_of_int (hundredths / 100) ++ [46] ++ two_digits (hundredths mod 100).

(** [amount_cents / 100] is the double nearest to the quotient; the
    division raises OverflowError when that is beyond the doubles. *)
Definition amount_text (amount_cents : Z) : exn + list N :=
  match Float64.of_ratio (Z.abs amount_cents) 100 with
  | Float64.Inf => inl OverflowError
  | Float64.Fin m e =>
      inr ((if (amount_cents <? 0)%Z then [45] else []) ++ format_2f m e)
  end.

End Money.

(** ** Vocabulary of the statements *)

(** How a computation moves the world, whatever it returns. *)
Definition steps (R : world -> world -> Prop) {A} (m : M A) : Prop :=
  forall w, R w (snd (m w)).

(** The table is left as it is and the new events all satisfy [P]. *)
Definition quiet (P : event -> Prop) (w w' : world) : Prop :=
  db w' = db w /\ exists new, trace w' = new ++ trace w /\ Forall P new.

(** Time does not run backwards and the bank script is only consumed. *)
Definition onward (w w' : world) : Prop :=
  clock w <= clock w' /\ exists used, bank w = used ++ bank w'.

(** The computation never uses up the fuel of a loop. *)
Definition never_diverges {A} (m : M A) : Prop :=
  forall w, fst (m w) <> inl Diverge.

(** The client moves the world by [quiet] and [onward] steps at once. *)
Definition client_step (P : event -> Prop) (w w' : world) : Prop :=
  quiet P w w' /\ onward w w'.

(** Events of the client when it works on the transfer with [key]. *)
Definition client_event (key : list N) (ev : event) : Prop :=
  match ev with
  | EvRequest (PostTransfer k _ _ _ _ _ _) => k = key
  | EvRequest _ | EvSleep _ => True
  | EvCommit _ | EvSavePage _ _ => False
  end.












(** A row that is not [success] carries no external transfer id. *)
Definition ledger_consistent (d : gmap (list N) Ledger.row) : Prop :=
  forall k r, d !! k = Some r -> Ledger.status r <> Ledger.success ->
              Ledger.transfer_id r = None.

(** What one pattern yields on a text: the cents of its leftmost match
    when they parse and are strictly positive. *)
Definition pattern_yield (p : Regex.re) (text : list N) : option Z :=
  match Regex.search p text with
  | Some g =>
      match Pdf._german_amount_to_cents g with
      | inr cents => if (0 <? cents)%Z then Some cents else None
      | inl _ => None
      end
  | None => None
  end.



(** The idempotency key of an employee in a billing period. *)
Definition key_of (period : list N) (emp : Pdf.Employee) : list N :=
  Ledger.make_idempotency_key (Pdf.name emp) period (Pdf.amount_cents emp).

(** Rows with status success stay as they are. *)
Definition keeps_success (w w' : world) : Prop :=
  forall k r, db w !! k = Some r -> Ledger.status r = Ledger.success ->
              db w' !! k = Some r.

(** In a trace (latest event first) every transfer request comes after
    a committed pending row for its key. *)
Fixpoint pending_first (tr : list event) : Prop :=
  match tr with
  | [] => True
  | ev :: older =>
      match ev with
      | EvRequest (PostTransfer k _ _ _ _ _ _) => In (EvCommit (WritePending k)) older
      | _ => True
      end /\ pending_first older
  end.

Definition no_transfer_request (ev : event) : Prop :=
  match ev with
  | EvRequest (PostTransfer _ _ _ _ _ _ _) | EvCommit _ => False
  | _ => True
  end.

(** Events of creating the client: requests for the organisation and
    the waits between them. *)
Definition org_event (ev : event) : Prop :=
  match ev with
  | EvRequest GetOrganization | EvSleep _ => True
  | _ => False
  end.

Definition save_event (ev : event) : Prop :=
  match ev with EvSavePage _ _ => True | _ => False end.

(** Processing the document only writes pages. *)
Definition pdf_step (w w' : world) : Prop :=
  clock w' = clock w /\ bank w' = bank w /\ db w' = db w /\ logs w' = logs w
  /\ exists new, trace w' = new ++ trace w /\ Forall save_event new.

(** Only the log lines differ. *)
Definition log_step (w w' : world) : Prop :=
  clock w' = clock w /\ bank w' = bank w /\ db w' = db w /\ trace w' = trace w.

(** What a run of the tool guarantees from one world to a later one. *)
Definition run_step (w w' : world) : Prop :=
  keeps_success w w'
  /\ (ledger_consistent (db w) -> ledger_consistent (db w'))
  /\ exists new, trace w' = new ++ trace w /\ pending_first new.

(** The world with one more line logged. *)
Definition with_log (w : world) (line : level * message) : world :=
  World (clock w) (bank w) (db w) (trace w) (logs w ++ [line]).

(** The world after the pending row [d1] is committed and the transfer
    announced. *)
Definition pending_world (w : world) (key : list N) (d1 : gmap (list N) Ledger.row)
    (emp : Pdf.Employee) : world :=
  World (clock w) (bank w) d1 (EvCommit (WritePending key) :: trace w)
    (logs w ++ [(INFO, Transferring (Pdf.name emp) (Pdf.iban_masked emp)
                         (Pdf.amount_cents emp))]).

(** The world after the outcome [res] of the transfer is recorded. *)
Definition settled (w : world) (key name : list N) (res : Qonto.TransferResult) : world :=
  if Qonto.success res then
    World (clock w) (bank w)
      (Ledger.record_success (clock w) key (Qonto.transfer_id res) (db w))
      (EvCommit (WriteSuccess key (Qonto.transfer_id res)) :: trace w)
      (logs w ++ [(INFO, TransferOk name (Qonto.transfer_id res))])
  else
    World (clock w) (bank w) (Ledger.record_failure (clock w) key (db w))
      (EvCommit (WriteFailure key) :: trace w)
      (logs w ++ [(ERROR, TransferFailed name (Qonto.error res))]).

(** The world when the roster is loaded and the document is opened. *)
Definition roster_loaded (w : world) (n : nat) : world :=
  World (clock w) (bank w) (db w) (trace w) [(INFO, CsvLoaded n); (INFO, PdfProcessing)].

(** The world when the result of the document stage is logged. *)
Definition pages_logged (w : world) (res : Pdf.ProcessingResult) : world :=
  World (clock w) (bank w) (db w) (trace w)
    (((logs w ++ List.map (fun x => (INFO, PdfSaved x)) (Pdf.saved_files res))
      ++ List.map (fun x => (WARNING, PageUnmatched x)) (Pdf.unmatched_pages res))
     ++ List.map (fun x => (ERROR, PdfError x)) (Pdf.errors res)).

(** A run that ends with one more log line returns all its lines. *)
Definition reported (w : world) (line : level * message)
    : (exn + Payroll.report) * world :=
  (inr (Payroll.Logs (logs w ++ [line])), with_log w line).





(** The loop that [Regex.run] runs for a starred pattern. *)
Section StarLoop.

Variables (r1 : Regex.re) (k : Regex.mstate -> option Regex.mstate).

Fixpoint star_loop (n : nat) (st : Regex.mstate) : option Regex.mstate :=
  match n with
  | O => k st
  | S n' =>
      match Regex.run r1 st (fun st' =>
              if (List.length (Regex.rest st') <? List.length (Regex.rest st))%nat
              then star_loop n' st' else None) with
      | Some m => Some m
      | None => k st
      end
  end.

End StarLoop.

(** The number that the MOD-97 check reads off a string of digits and
    capital letters: a digit takes one decimal place, a letter counts
    as 10 to 35 and takes two. *)
Fixpoint iban_number_from (acc : Z) (s : list N) : Z :=
  match s with
  | [] => acc
  | c :: s' =>
      if Regex.is_digit c then iban_number_from (10 * acc + (Z.of_N c - 48)) s'
      else iban_number_from (100 * acc + (Z.of_N c - 55)) s'
  end.

(** The decimal places that a string takes in that number. *)
Fixpoint iban_places (s : list N) : Z :=
  match s with
  | [] => 0
  | c :: s' => (if Regex.is_digit c then 1 else 2) + iban_places s'
  end.

(** The check number of an IBAN: the country code and the check digits
    are moved behind the account part. *)
Definition check_number (iban : list N) : Z :=
  iban_number_from 0 (skipn 4 iban ++ firstn 4 iban).

(** An IBAN as the validator accepts it: a registered country code, the
    length of that country, two check digits, then digits and capital
    letters, and the check number leaves 1 modulo 97. *)
Definition registered_iban (iban : list N) : Prop :=
  Iban.IBAN_LENGTHS !! firstn 2 iban = Some (N.of_nat (List.length iban))
  /\ (exists a b c d account,
        iban = a :: b :: c :: d :: account
        /\ Iban.is_upper a = true /\ Iban.is_upper b = true
        /\ Regex.is_digit c = true /\ Regex.is_digit d = true
        /\ account <> [] /\ forallb Iban.is_upper_or_digit account = true)
  /\ (check_number iban mod 97 = 1)%Z.

(** A text without blanks at its ends. *)
Definition trimmed (t : list N) : Prop :=
  match t with [] => True | c :: _ => Text.isspace c = false end
  /\ match rev t with [] => True | c :: _ => Text.isspace c = false end.

(** The records that [csv.DictReader] turns into rows: the non-empty ones. *)
Definition records_read (records : list (list (list N))) : list (list (list N)) :=
  List.filter (fun record => match record with [] => false | _ => true end) records.

(** What [parse_csv] has checked of an employee it returns: a name
    without blanks around it, an IBAN in normal form that is registered,
    the masked form of that IBAN, a directory that the file system made
    ready, and the fields of the document stage still unset. *)
Definition checked_employee (prepare : list N -> Csv.dir_outcome) (e : Pdf.Employee)
    : Prop :=
  Pdf.name e <> [] /\ Text.strip (Pdf.name e) = Pdf.name e
  /\ Iban.normalize (Pdf.iban e) = Pdf.iban e
  /\ registered_iban (Pdf.iban e)
  /\ Pdf.iban_masked e = Iban._mask_iban (Pdf.iban e)
  /\ (exists raw_dir, raw_dir <> [] /\ prepare raw_dir = Csv.DirReady (Pdf.target_dir e))
  /\ Pdf.page_index e = (-1)%Z /\ Pdf.amount_cents e = 0%Z /\ Pdf.pdf_saved e = false.

(** All three required columns are among the field names. *)
Definition has_required_columns (fieldnames : list (list N)) : Prop :=
  Forall (fun col => is_Some (Csv.fieldnames_lower fieldnames !! col)) Csv.REQUIRED_COLUMNS.


(** The columns of a row that say which payment it stands for. *)
Definition same_payment (r r' : Ledger.row) : Prop :=
  Ledger.employee_name r' = Ledger.employee_name r
  /\ Ledger.period r' = Ledger.period r
  /\ Ledger.amount_cents r' = Ledger.amount_cents r
  /\ Ledger.created_at r' = Ledger.created_at r.

(** Every row is stored under the key of its own name, period and amount. *)
Definition ledger_keyed (d : gmap (list N) Ledger.row) : Prop :=
  forall k r, d !! k = Some r ->
    k = Ledger.make_idempotency_key (Ledger.employee_name r) (Ledger.period r)
          (Ledger.amount_cents r).

(** How a run may change the ledger: no row goes away, a row keeps the
    payment it stands for, a row that is pending afterwards was there
    before as it is, and the rows stay under their own keys. *)
Definition ledger_step (w w' : world) : Prop :=
  (forall k r, db w !! k = Some r ->
     exists r', db w' !! k = Some r' /\ same_payment r r')
  /\ (forall k r', db w' !! k = Some r' -> Ledger.status r' = Ledger.pending ->
        db w !! k = Some r')
  /\ (ledger_keyed (db w) -> ledger_keyed (db w')).

(** Nothing but pages written: clock, bank and ledger are as before. *)
Definition offline_step (w w' : world) : Prop :=
  clock w' = clock w /\ bank w' = bank w /\ db w' = db w
  /\ exists new, trace w' = new ++ trace w /\ Forall save_event new.


(** The last page, numbered from [idx], that is matched to employee [i]
    of the roster, with its text. *)
Fixpoint last_page_of (roster : list Pdf.Employee) (i : nat) (idx : nat)
    (pages : list (list N)) : option (nat * list N) :=
  match pages with
  | [] => None
  | text :: pages' =>
      match last_page_of roster i (S idx) pages' with
      | Some hit => Some hit
      | None =>
          match Pdf.match_page text roster with
          | inr (Some j) => if Nat.eqb j i then Some (idx, text) else None
          | _ => None
          end
      end
  end.

(** The fields of an employee that come from the roster file. *)
Definition same_person (e e' : Pdf.Employee) : Prop :=
  Pdf.name e' = Pdf.name e /\ Pdf.iban e' = Pdf.iban e
  /\ Pdf.iban_masked e' = Pdf.iban_masked e /\ Pdf.target_dir e' = Pdf.target_dir e.

(** The number that a text of decimal digits writes. *)
Definition decimal (ds : list N) : Z :=
  fold_left (fun acc d => (10 * acc + (Z.of_N d - 48))%Z) ds 0%Z.

(** A text of digits with dots between them, as in [1.234.567]. *)
Definition digits_and_dots (s : list N) : Prop :=
  Forall (fun c => Regex.is_digit c = true \/ c = 46) s.

(** ** Sample data *)

Module Sample.

Definition T : string -> list N := Text.of_string.

Definition richter : Pdf.Employee :=
  Pdf.MkEmployee (T "Michael Richter") (T "DE89370400440532013000") (T "DE89****3000")
    (T "/payroll/richter") (-1) 0 false.


Definition page : list N := T "Michael Richter  Auszahlungsbetrag: 7.633,63 EUR".

Definition period : list N := T "2026-02".

Definition key : list N :=
  Ledger.make_idempotency_key (T "Michael Richter") period 763363.

Definition env : Qonto.environ :=
  Qonto.Environ (T "acme") (T "secret") (T "DE02100100100006820101") (T "cid") (T "cs").

Definition no_env : Qonto.environ := Qonto.Environ [] [] [] [] [].

Definition client : Qonto.QontoClient := Qonto.MkClient (T "DE02100100100006820101") (T "acc-1").


Definition answer (code : Z) (b : body) : outcome :=
  Outcome 150 (Answer (Response code None b)).

Definition organization : outcome :=
  answer 200 (Body [(T "DE02100100100006820101", T "acc-1")] None [] [] [] false []).

Definition verified_response : response :=
  Response 200 None (Body [] (Some (T "vop-1")) [] [] [] false []).

Definition verified : outcome := Outcome 150 (Answer verified_response).


Definition created : outcome := answer 201 (Body [] None [] (T "tr-1") [] false []).




Definition start (script : list outcome) : world := World 1760000000000 script ∅ [] [].

Definition paid_row : Ledger.row :=
  Ledger.Row (T "Michael Richter") period 763363 Ledger.success (Some (T "tr-1")) 5 9.

Definition paid_db : gmap (list N) Ledger.row := {[ key := paid_row ]}.

Definition paid_world (script : list outcome) : world :=
  World 1760000000000 script paid_db [] [].


Definition roster : Payroll.ParseResult := Payroll.MkParseResult [richter] [].

Definition always_writable : list N -> bool := fun _ => true.

(** A first run that pays the employee, and the world in which the tool
    is run again: the ledger and the clock as the first run left them,
    and a bank that answers the request for the organisation. *)
Abbreviation first_run :=
  (Payroll.payroll_process env always_writable (Some [page]) roster period false
     (start [organization; verified; created])).

Abbreviation second_start :=
  (World (clock (snd first_run)) [organization] (db (snd first_run))
     (trace (snd first_run)) []).

Abbreviation second_run :=
  (Payroll.payroll_process env always_writable (Some [page]) roster period false
     second_start).

End Sample.

(** ** A sample roster file *)

Module RosterFile.

Definition header : list (list N) :=
  [Sample.T " Name"; Sample.T "IBAN"; Sample.T "Zielordner"].

Definition richter_record : list (list N) :=
  [Sample.T "Michael Richter "; Sample.T "de89 3704 0044 0532 0130 00";
   Sample.T "/payroll/richter"].

(** A record without a name and a record with a wrong check digit. *)
Definition nameless_record : list (list N) :=
  [Sample.T "  "; Sample.T "DE89370400440532013000"; Sample.T "/payroll/x"].

Definition mistyped_record : list (list N) :=
  [Sample.T "Anna Schmidt"; Sample.T "DE89370400440532013001"; Sample.T "/payroll/schmidt"].

Definition table : Csv.source :=
  Csv.Table [header; richter_record; []; nameless_record; mistyped_record] false.

(** A file system on which every directory can be made. *)
Definition ready (raw_dir : list N) : Csv.dir_outcome := Csv.DirReady raw_dir.

Definition richter : Pdf.Employee :=
  Pdf.MkEmployee (Sample.T "Michael Richter") (Sample.T "DE89370400440532013000")
    (Sample.T "DE89**************3000") (Sample.T "/payroll/richter") (-1) 0 false.

Definition parsed : Payroll.ParseResult :=
  Payroll.MkParseResult [richter]
    [Sample.T "Zeile 3: Kein Name angegeben.";
     Sample.T "Zeile 4 (Anna Schmidt): IBAN ungueltig " ++ [8211]
     ++ Sample.T " IBAN-Pruefsumme (MOD-97) ungueltig."].

Definition path : list N := Sample.T "/payroll/roster.csv".

End RosterFile.

(** ** A ledger with a row left pending by an interrupted run *)

Module StaleLedger.

Definition key : list N :=
  Ledger.make_idempotency_key (Sample.T "Anna Schmidt") (Sample.T "2026-01") 250000.

Definition row : Ledger.row :=
  Ledger.Row (Sample.T "Anna Schmidt") (Sample.T "2026-01") 250000 Ledger.pending None 3 3.

Definition start (script : list outcome) : world :=
  World 1760000000000 script {[ key := row ]} [] [].

End StaleLedger.

(** ** A document with two pages for one employee *)

Module TwoPages.

Definition first_page : list N := Sample.T "Michael Richter  Nettolohn: 1.000,00 EUR".

Definition pages : list (list N) := [first_page; Sample.page].

Definition richter_after : Pdf.Employee :=
  Pdf.MkEmployee (Sample.T "Michael Richter") (Sample.T "DE89370400440532013000")
    (Sample.T "DE89****3000") (Sample.T "/payroll/richter") 1 763363 true.

Definition run : (exn + list Pdf.Employee * Pdf.ProcessingResult) * world :=
  Pdf.process_pdf Sample.always_writable (Some pages) [Sample.richter] Sample.period []
    (Sample.start []).

Definition result : Pdf.ProcessingResult :=
  match fst run with
  | inr st => snd st
  | inl _ => Pdf.MkResult [] [] []
  end.

End TwoPages.

(** * Properties *)

(** ** Rules for [steps] *)

Section StepRules.

Context (R : world -> world -> Prop) {Hrefl : Reflexive R} {Htrans : Transitive R}.

Lemma steps_mret {A} (a : A) : steps R (mret a).
Proof. intros w. apply Hrefl. Qed.

Lemma steps_raise {A} (e : exn) : steps R (@raise A e).
Proof. intros w. apply Hrefl. Qed.

Lemma steps_lift {A} (r : exn + A) : steps R (lift r).
Proof. intros w. apply Hrefl. Qed.

Lemma steps_now : steps R now.
Proof. intros w. apply Hrefl. Qed.

Lemma steps_bind {A B} (m : M A) (f : A -> M B) :
  steps R m -> (forall a, steps R (f a)) -> steps R (m ≫= f).
Proof.
  intros Hm Hf w. unfold mbind, M_bind. specialize (Hm w).
  destruct (m w) as [[e|a] w1]; simpl in *; [assumption|].
  etransitivity; [exact Hm | apply Hf].
Qed.

Lemma steps_try_except {A} (m : M A) (handles : exn -> bool) (h : exn -> M A) :
  steps R m -> (forall e, steps R (h e)) -> steps R (try_except m handles h).
Proof.
  intros Hm Hh w. unfold try_except. specialize (Hm w).
  destruct (m w) as [[e|a] w1]; simpl in *; [|assumption].
  destruct (handles e); simpl; [|assumption].
  etransitivity; [exact Hm | apply Hh].
Qed.

End StepRules.

#[global] Instance quiet_refl (P : event -> Prop) : Reflexive (quiet P).
Proof. intros w. split; [reflexivity|]. exists []. split; [reflexivity | constructor]. Qed.

#[global] Instance quiet_trans (P : event -> Prop) : Transitive (quiet P).
Proof.
  intros w1 w2 w3 [Hd1 (n1 & Ht1 & Hf1)] [Hd2 (n2 & Ht2 & Hf2)]. split.
  - congruence.
  - exists (n2 ++ n1). split.
    + rewrite Ht2, Ht1. apply app_assoc.
    + apply Forall_app; split; assumption.
Qed.

#[global] Instance onward_refl : Reflexive onward.
Proof. intros w. split; [lia|]. exists []. reflexivity. Qed.

#[global] Instance onward_trans : Transitive onward.
Proof.
  intros w1 w2 w3 [Hc1 (u1 & Hb1)] [Hc2 (u2 & Hb2)]. split; [lia|].
  exists (u1 ++ u2). rewrite Hb1, Hb2. apply app_assoc.
Qed.

#[global] Instance client_step_refl (P : event -> Prop) : Reflexive (client_step P).
Proof. intros w. split; reflexivity. Qed.

#[global] Instance client_step_trans (P : event -> Prop) : Transitive (client_step P).
Proof. intros w1 w2 w3 [Hq1 Ho1] [Hq2 Ho2]. split; etransitivity; eassumption. Qed.

Section ClientSteps.

Variable P : event -> Prop.
Hypothesis P_sleep : forall s, P (EvSleep s).

Lemma steps_log (l : level) (msg : message) : steps (client_step P) (_log l msg).
Proof.
  intros w. simpl. split.
  - split; [reflexivity|]. exists []. split; [reflexivity | constructor].
  - split; simpl; [lia|]. exists []. reflexivity.
Qed.

Lemma steps_sleep (s : N) : steps (client_step P) (sleep s).
Proof.
  intros w. simpl. split.
  - split; [reflexivity|]. exists [EvSleep s]. split; [reflexivity|].
    repeat constructor. apply P_sleep.
  - split; simpl; [lia|]. exists []. reflexivity.
Qed.

Lemma steps_send (req : http_request) :
  P (EvRequest req) -> steps (client_step P) (send req).
Proof.
  intros Hreq w. unfold send. destruct (bank w) as [|o script] eqn:Hb; simpl.
  - split.
    + split; [reflexivity|]. exists [EvRequest req]. split; [reflexivity|].
      repeat constructor. exact Hreq.
    + split; simpl; [lia|]. exists []. rewrite Hb. reflexivity.
  - split.
    + split; [reflexivity|]. exists [EvRequest req]. split; [reflexivity|].
      repeat constructor. exact Hreq.
    + split; simpl; [lia|]. exists [o]. rewrite Hb. reflexivity.
Qed.

Lemma steps_request_attempts (req : http_request) (retries : N) :
  P (EvRequest req) ->
  forall (left : nat) (attempt : N),
    steps (client_step P) (Qonto.request_attempts req retries attempt left).
Proof.
  intros Hreq left. induction left as [|left IH]; intros attempt; simpl.
  - apply steps_raise; apply _.
  - apply steps_bind; try apply _; [apply steps_send; exact Hreq|].
    intros [resp| |].
    + destruct (_ && _).
      * apply steps_bind; try apply _; [apply steps_sleep|]. intros _. apply IH.
      * apply steps_mret; apply _.
    + apply steps_bind; try apply _; [|intros _; apply IH].
      destruct (_ <? _); [apply steps_sleep | apply steps_mret; apply _].
    + apply steps_bind; try apply _; [|intros _; apply IH].
      destruct (_ <? _); [apply steps_sleep | apply steps_mret; apply _].
Qed.

Lemma steps_request (req : http_request) :
  P (EvRequest req) -> steps (client_step P) (Qonto._request req).
Proof. intros Hreq. apply steps_request_attempts. exact Hreq. Qed.

Lemma steps_request_caught (req : http_request) :
  P (EvRequest req) -> steps (client_step P) (Qonto._request_caught req).
Proof.
  intros Hreq. unfold Qonto._request_caught.
  apply steps_try_except; try apply _.
  - apply steps_bind; try apply _; [apply steps_request; exact Hreq|].
    intros r. apply steps_mret; apply _.
  - intros e. apply steps_mret; apply _.
Qed.

End ClientSteps.

Ltac step_rule :=
  first [ apply steps_mret | apply steps_raise | apply steps_lift | apply steps_now
        | apply steps_log | apply steps_sleep; intros ?; exact I
        | apply steps_request; [intros ?; exact I | simpl; solve [trivial]]
        | apply steps_request_caught; [intros ?; exact I | simpl; solve [trivial]]
        | apply steps_bind | apply steps_try_except ];
  try apply _.

Ltac step_case :=
  match goal with
  | |- steps _ (match ?x with _ => _ end) => destruct x
  | |- steps _ (if ?b then _ else _) => destruct b
  | |- forall _, _ => intros ?
  end.

Ltac steps_auto := repeat first [step_rule | step_case].

Lemma steps_verify_payee (key iban name : list N) :
  steps (client_step (client_event key)) (Qonto._verify_payee iban name).
Proof. unfold Qonto._verify_payee. steps_auto. Qed.

Lemma steps_poll_loop (key token : list N) (deadline : N) :
  forall (fuel : nat) (last_log_at : N),
    steps (client_step (client_event key))
      (Qonto.poll_loop fuel token deadline last_log_at).
Proof.
  induction fuel as [|fuel IH]; intros last; simpl.
  - steps_auto.
  - repeat first [apply IH | step_rule | step_case].
Qed.

Lemma steps_poll_sca_session (key token : list N) :
  steps (client_step (client_event key)) (Qonto._poll_sca_session token).
Proof.
  unfold Qonto._poll_sca_session, Qonto._poll_sca_session_for.
  step_rule; [step_rule|]. intros t. apply steps_poll_loop.
Qed.

Lemma steps_create_transfer (self : Qonto.QontoClient) (name iban : list N)
    (amount : Z) (period key : list N) :
  steps (client_step (client_event key))
    (Qonto.create_transfer self name iban amount period key).
Proof.
  unfold Qonto.create_transfer.
  repeat first [apply steps_verify_payee | apply steps_poll_sca_session
               | step_rule | step_case].
Qed.

(** Creating the client only asks for the organisation. *)
Lemma steps_new_client (env : Qonto.environ) :
  steps (client_step org_event) (Qonto.new_client env).
Proof.
  unfold Qonto.new_client, Qonto._resolve_bank_account_id. steps_auto.
Qed.

(** ** What the client returns *)

Lemma bind_unfold {A B} (m : M A) (f : A -> M B) (w : world) :
  (m ≫= f) w = match m w with
               | (inr a, w') => f a w'
               | (inl e, w') => (inl e, w')
               end.
Proof. reflexivity. Qed.

(** [_request] returns a response or raises ConnectionError. *)
Lemma request_attempts_result (req : http_request) (retries : N) :
  forall (left : nat) (attempt : N) (w : world),
    (exists resp, fst (Qonto.request_attempts req retries attempt left w) = inr resp)
    \/ fst (Qonto.request_attempts req retries attempt left w) = inl ConnectionError.
Proof.
  induction left as [|left IH]; intros attempt w; simpl.
  - right. reflexivity.
  - rewrite bind_unfold. unfold send.
    destruct (bank w) as [|[d [resp| |]] script]; simpl;
      try (destruct (attempt <? retries); simpl; apply IH).
    destruct (_ && _); simpl; [apply IH | left; eauto].
Qed.

Lemma request_result (req : http_request) (w : world) :
  (exists resp, fst (Qonto._request req w) = inr resp)
  \/ fst (Qonto._request req w) = inl ConnectionError.
Proof. apply request_attempts_result. Qed.

(** A guarded request, as [create_transfer] and the poll loop make it,
    always returns. *)
Lemma guarded_request_returns (req : http_request) (w : world) :
  exists o, fst (Qonto._request_caught req w) = inr o.
Proof.
  unfold Qonto._request_caught, try_except. rewrite bind_unfold.
  destruct (request_result req w) as [[resp H]|H];
    destruct (Qonto._request req w) as [[e|r] w1]; simpl in *; try discriminate.
  - eauto.
  - inversion H; subst. simpl. eauto.
Qed.

(** With [fuel] tests of the loop condition left and the deadline no
    more than two seconds per remaining test away, the poll loop
    returns. *)
Lemma poll_loop_returns (token : list N) (deadline : N) :
  forall (fuel : nat) (last : N) (w : world),
    fuel <> O ->
    deadline <= clock w + 2000 * N.of_nat (pred fuel) ->
    exists b, fst (Qonto.poll_loop fuel token deadline last w) = inr b.
Proof.
  induction fuel as [|fuel IH]; intros last w Hfuel Hdl; [congruence|].
  simpl in Hdl. simpl Qonto.poll_loop. rewrite bind_unfold. simpl.
  destruct (clock w <? deadline) eqn:Hlt; [|simpl; eauto].
  apply N.ltb_lt in Hlt.
  assert (Hf : fuel <> O) by (intros ->; simpl in Hdl; lia).
  rewrite bind_unfold.
  set (m0 := if 10000 <=? clock w - last then _ else _).
  assert (Hm0 : exists l w0, m0 w = (inr l, w0) /\ clock w0 = clock w).
  { subst m0. destruct (10000 <=? clock w - last); simpl; eauto. }
  destruct Hm0 as (l & w0 & -> & Hc0).
  rewrite bind_unfold.
  pose proof (guarded_request_returns (GetScaSession token) w0) as [o Ho].
  pose proof (steps_request_caught (client_event token) (fun _ => I)
                (GetScaSession token) I w0) as [_ [Hclk _]].
  destruct (Qonto._request_caught _ w0) as [[e|o'] w1]; simpl in Ho, Hclk; [discriminate|].
  assert (Hnext : forall last', exists b,
            fst ((sleep 2;; Qonto.poll_loop fuel token deadline last') w1) = inr b).
  { intros last'. rewrite bind_unfold. simpl. apply IH; [exact Hf|]. simpl.
    destruct fuel as [|fuel']; [congruence|]. simpl pred. lia. }
  destruct o' as [resp|]; [|apply Hnext].
  destruct (Http.status_code resp =? 200)%Z; [|apply Hnext].
  destruct (bool_decide _); [simpl; eauto|].
  destruct (Qonto.is_denial _); [simpl; eauto | apply Hnext].
Qed.

Lemma poll_sca_session_returns (token : list N) (w : world) :
  exists b, fst (Qonto._poll_sca_session token w) = inr b.
Proof.
  unfold Qonto._poll_sca_session, Qonto._poll_sca_session_for.
  rewrite bind_unfold. unfold now. cbv beta iota. apply poll_loop_returns.
  - vm_compute. discriminate.
  - change (N.of_nat (pred (Qonto.poll_fuel 300))) with 151. lia.
Qed.

(** ** No loop of the model runs out of fuel *)

Lemma nd_mret {A} (a : A) : never_diverges (mret a).
Proof. intros w. discriminate. Qed.

Lemma nd_raise {A} (e : exn) : e <> Diverge -> never_diverges (@raise A e).
Proof. intros He w. simpl. congruence. Qed.

Lemma nd_lift {A} (r : exn + A) : r <> inl Diverge -> never_diverges (lift r).
Proof. intros Hr w. exact Hr. Qed.

Lemma nd_bind {A B} (m : M A) (f : A -> M B) :
  never_diverges m -> (forall a, never_diverges (f a)) -> never_diverges (m ≫= f).
Proof.
  intros Hm Hf w. rewrite bind_unfold. specialize (Hm w).
  destruct (m w) as [[e|a] w1]; [|apply Hf].
  simpl in *. intros E. apply Hm. congruence.
Qed.

Lemma nd_try_except {A} (m : M A) (handles : exn -> bool) (h : exn -> M A) :
  never_diverges m -> (forall e, never_diverges (h e)) ->
  never_diverges (try_except m handles h).
Proof.
  intros Hm Hh w. unfold try_except. specialize (Hm w).
  destruct (m w) as [[e|a] w1]; [|discriminate].
  destruct (handles e); [apply Hh | exact Hm].
Qed.

Lemma nd_request (req : http_request) : never_diverges (Qonto._request req).
Proof.
  intros w. destruct (request_result req w) as [[resp H]|H]; rewrite H; discriminate.
Qed.

Lemma nd_request_caught (req : http_request) :
  never_diverges (Qonto._request_caught req).
Proof.
  intros w. destruct (guarded_request_returns req w) as [o H]. rewrite H. discriminate.
Qed.

Lemma nd_poll_sca_session (token : list N) : never_diverges (Qonto._poll_sca_session token).
Proof.
  intros w. destruct (poll_sca_session_returns token w) as [b H]. rewrite H. discriminate.
Qed.

Ltac nd_rule :=
  first [ apply nd_mret | apply nd_request | apply nd_request_caught
        | apply nd_poll_sca_session
        | apply nd_raise; discriminate | apply nd_bind | apply nd_try_except
        | intros ?; discriminate ].

Ltac nd_case :=
  match goal with
  | |- never_diverges (match ?x with _ => _ end) => destruct x
  | |- never_diverges (if ?b then _ else _) => destruct b
  | |- forall _, _ => intros ?
  end.

Ltac nd_auto := repeat first [nd_rule | nd_case].

Lemma nd_verify_payee (iban name : list N) : never_diverges (Qonto._verify_payee iban name).
Proof. unfold Qonto._verify_payee. nd_auto. Qed.

Lemma nd_new_client (env : Qonto.environ) : never_diverges (Qonto.new_client env).
Proof. unfold Qonto.new_client, Qonto._resolve_bank_account_id. nd_auto. Qed.

(** [create_transfer] catches what its calls raise: it always returns a
    [TransferResult]. *)
Lemma create_transfer_returns (self : Qonto.QontoClient) (name iban : list N)
    (amount : Z) (period key : list N) (w : world) :
  exists res, fst (Qonto.create_transfer self name iban amount period key w) = inr res.
Proof.
  unfold Qonto.create_transfer. rewrite bind_unfold.
  pose proof (nd_verify_payee iban name w) as Hv.
  unfold try_except at 1. rewrite bind_unfold.
  destruct (Qonto._verify_payee iban name w) as [[e|t] w1]; simpl in Hv.
  { destruct e; simpl; eauto. congruence. }
  simpl. rewrite bind_unfold.
  destruct (guarded_request_returns
              (PostTransfer key t name iban amount period None) w1) as [o Ho].
  destruct (Qonto._request_caught _ w1) as [[e|o'] w2]; simpl in Ho; [discriminate|].
  destruct o' as [resp|]; [|simpl; eauto].
  destruct (_ =? 428)%Z; [|simpl; eauto].
  destruct (sca_session_token (resp_body resp)) as [|c tok] eqn:Htok; [simpl; eauto|].
  rewrite bind_unfold. simpl. rewrite bind_unfold.
  match goal with |- context [Qonto._poll_sca_session ?t ?w] =>
    destruct (poll_sca_session_returns t w) as [b Hb];
    destruct (Qonto._poll_sca_session t w) as [[e|b'] w3]; simpl in Hb; [discriminate|]
  end.
  destruct b'; [|simpl; eauto].
  rewrite bind_unfold.
  match goal with |- context [Qonto._request_caught ?r ?w] =>
    destruct (guarded_request_returns r w) as [o2 Ho2];
    destruct (Qonto._request_caught r w) as [[e|o2'] w4]; simpl in Ho2; [discriminate|]
  end.
  destruct o2'; simpl; eauto.
Qed.

(** ** One employee of the transfer loop *)

(** The four ways the body of the loop can go. *)
Lemma process_employee_cases (client : Qonto.QontoClient) (period : list N)
    (emp : Pdf.Employee) (ok fail : list (list N)) (w : world) :
  let key := key_of period emp in
  let run := Payroll.process_employee client period emp (ok, fail) w in
  ((Pdf.amount_cents emp <= 0)%Z
   /\ run = (inr (ok, fail ++ [Pdf.name emp]), with_log w (WARNING, NoAmount (Pdf.name emp))))
  \/ ((0 < Pdf.amount_cents emp)%Z
      /\ Ledger.is_already_processed (db w) key = true
      /\ run = (inr (ok ++ [Pdf.name emp], fail),
                with_log w (INFO, AlreadyProcessed (Pdf.name emp))))
  \/ ((0 < Pdf.amount_cents emp)%Z
      /\ Ledger.is_already_processed (db w) key = false
      /\ Ledger.fits_integer (Pdf.amount_cents emp) = false
      /\ run = (inl OverflowError, w))
  \/ ((0 < Pdf.amount_cents emp)%Z
      /\ Ledger.is_already_processed (db w) key = false
      /\ exists d1 res w2,
           Ledger.record_pending (clock w) key (Pdf.name emp) period
             (Pdf.amount_cents emp) (db w) = inr d1
           /\ Qonto.create_transfer client (Pdf.name emp) (Pdf.iban emp)
                (Pdf.amount_cents emp) period key (pending_world w key d1 emp)
              = (inr res, w2)
           /\ run = (inr (if Qonto.success res then (ok ++ [Pdf.name emp], fail)
                          else (ok, fail ++ [Pdf.name emp])),
                     settled w2 key (Pdf.name emp) res)).
Proof.
  intros key run.
  destruct (Pdf.amount_cents emp <=? 0)%Z eqn:Hamt.
  { left. split; [apply Z.leb_le; exact Hamt|].
    unfold run, Payroll.process_employee. cbv beta iota. fold (key_of period emp).
    rewrite Hamt. reflexivity. }
  right.
  assert (E1 : run = (done ← is_already_processed key;
                      if (done : bool) then
                        _log INFO (AlreadyProcessed (Pdf.name emp));;
                        mret (ok ++ [Pdf.name emp], fail)
                      else
                        record_pending key (Pdf.name emp) period (Pdf.amount_cents emp);;
                        _log INFO (Transferring (Pdf.name emp) (Pdf.iban_masked emp)
                                     (Pdf.amount_cents emp));;
                        result ← Qonto.create_transfer client (Pdf.name emp) (Pdf.iban emp)
                                    (Pdf.amount_cents emp) period key;
                        if Qonto.success result then
                          record_success key (Qonto.transfer_id result);;
                          _log INFO (TransferOk (Pdf.name emp) (Qonto.transfer_id result));;
                          mret (ok ++ [Pdf.name emp], fail)
                        else
                          record_failure key (Qonto.error result);;
                          _log ERROR (TransferFailed (Pdf.name emp) (Qonto.error result));;
                          mret (ok, fail ++ [Pdf.name emp])) w).
  { unfold run, Payroll.process_employee. cbv beta iota. fold (key_of period emp).
    rewrite Hamt. reflexivity. }
  apply Z.leb_gt in Hamt. clearbody run. subst run.
  rewrite bind_unfold. unfold is_already_processed. cbv beta iota.
  destruct (Ledger.is_already_processed (db w) key) eqn:Hdone.
  { left. split; [exact Hamt|]. split; reflexivity. }
  right. rewrite bind_unfold. unfold record_pending.
  destruct (Ledger.record_pending (clock w) key (Pdf.name emp) period
              (Pdf.amount_cents emp) (db w)) as [e|d1] eqn:Hpend.
  { left. split; [exact Hamt|]. split; [reflexivity|].
    unfold Ledger.record_pending in Hpend.
    destruct (Ledger.fits_integer _); [destruct (db w !! key); discriminate|].
    inversion Hpend. split; reflexivity. }
  right. split; [exact Hamt|]. split; [reflexivity|].
  rewrite bind_unfold. unfold _log at 1. cbv beta iota.
  cbn [clock bank db trace logs]. rewrite bind_unfold.
  change (World (clock w) (bank w) d1 (EvCommit (WritePending key) :: trace w) _)
    with (pending_world w key d1 emp).
  destruct (create_transfer_returns client (Pdf.name emp) (Pdf.iban emp)
              (Pdf.amount_cents emp) period key (pending_world w key d1 emp))
    as [res Hres].
  destruct (Qonto.create_transfer _ _ _ _ _ _ _) as [[e|res'] w2] eqn:Hct;
    simpl in Hres; [discriminate|]. inversion Hres; subst res'.
  exists d1, res, w2. split; [reflexivity|]. split; [exact Hct|].
  unfold settled. destruct (Qonto.success res); reflexivity.
Qed.

(** ** The ledger *)

Lemma record_pending_other (now : N) (key name period : list N) (amount : Z)
    (d d' : gmap (list N) Ledger.row) (k : list N) :
  Ledger.record_pending now key name period amount d = inr d' ->
  k <> key -> d' !! k = d !! k.
Proof.
  unfold Ledger.record_pending. intros H Hk.
  destruct (Ledger.fits_integer amount); [|discriminate].
  destruct (d !! key); inversion H; subst; apply lookup_insert_ne; congruence.
Qed.

Lemma record_pending_status (now : N) (key name period : list N) (amount : Z)
    (d d' : gmap (list N) Ledger.row) :
  Ledger.record_pending now key name period amount d = inr d' ->
  exists r', d' !! key = Some r' /\ Ledger.status r' = Ledger.pending
             /\ Ledger.transfer_id r' = (d !! key) ≫= Ledger.transfer_id.
Proof.
  unfold Ledger.record_pending. intros H.
  destruct (Ledger.fits_integer amount); [|discriminate].
  destruct (d !! key) as [r|]; inversion H; subst; rewrite lookup_insert_eq;
    eexists; (split; [reflexivity|]); split; reflexivity.
Qed.

Lemma record_success_other (now : N) (key : list N) (tid : option (list N))
    (d : gmap (list N) Ledger.row) (k : list N) :
  k <> key -> Ledger.record_success now key tid d !! k = d !! k.
Proof.
  unfold Ledger.record_success. intros Hk.
  destruct (d !! key); [apply lookup_insert_ne; congruence | reflexivity].
Qed.

Lemma record_failure_other (now : N) (key : list N)
    (d : gmap (list N) Ledger.row) (k : list N) :
  k <> key -> Ledger.record_failure now key d !! k = d !! k.
Proof.
  unfold Ledger.record_failure. intros Hk.
  destruct (d !! key); [apply lookup_insert_ne; congruence | reflexivity].
Qed.

Lemma is_already_processed_true (d : gmap (list N) Ledger.row) (key : list N) :
  Ledger.is_already_processed d key = true <->
  exists r, d !! key = Some r /\ Ledger.status r = Ledger.success.
Proof.
  unfold Ledger.is_already_processed. split.
  - destruct (d !! key) as [r|]; [|discriminate].
    intros H. apply bool_decide_eq_true in H. eauto.
  - intros (r & -> & Hs). apply bool_decide_eq_true. exact Hs.
Qed.

(** C10: for a key that is already in the ledger, [record_pending]
    changes only the status (to pending) and [updated_at]; the stored
    employee name, period, amount, transfer id and [created_at] stay,
    whatever name, period and amount are passed, and no other row is
    touched. *)
Theorem record_pending_keeps_stored_columns (now : N) (key name period : list N)
    (amount : Z) (d : gmap (list N) Ledger.row) (r : Ledger.row) :
  d !! key = Some r ->
  Ledger.fits_integer amount = true ->
  exists d' r',
    Ledger.record_pending now key name period amount d = inr d'
    /\ d' !! key = Some r'
    /\ Ledger.employee_name r' = Ledger.employee_name r
    /\ Ledger.period r' = Ledger.period r
    /\ Ledger.amount_cents r' = Ledger.amount_cents r
    /\ Ledger.transfer_id r' = Ledger.transfer_id r
    /\ Ledger.created_at r' = Ledger.created_at r
    /\ Ledger.status r' = Ledger.pending
    /\ Ledger.updated_at r' = now
    /\ forall k, k <> key -> d' !! k = d !! k.
Proof.
  intros Hr Hfit. unfold Ledger.record_pending. rewrite Hfit, Hr.
  eexists. eexists. split; [reflexivity|]. split; [apply lookup_insert_eq|].
  repeat (split; [reflexivity|]).
  intros k Hk. apply lookup_insert_ne. congruence.
Qed.

Lemma record_pending_keeps_stored_columns_witness :
  exists d' r',
    Ledger.record_pending 77 Sample.key (Sample.T "M. Richter") (Sample.T "2026-03") 1
      {[ Sample.key := Sample.paid_row ]} = inr d'
    /\ d' !! Sample.key = Some r'
    /\ Ledger.employee_name r' = Sample.T "Michael Richter"
    /\ Ledger.period r' = Sample.period
    /\ Ledger.amount_cents r' = 763363%Z
    /\ Ledger.transfer_id r' = Some (Sample.T "tr-1")
    /\ Ledger.created_at r' = 5
    /\ Ledger.status r' = Ledger.pending
    /\ Ledger.updated_at r' = 77
    /\ forall k, k <> Sample.key -> d' !! k = ({[ Sample.key := Sample.paid_row ]} : gmap (list N) Ledger.row) !! k.
Proof.
  apply (record_pending_keeps_stored_columns 77 Sample.key (Sample.T "M. Richter")
           (Sample.T "2026-03") 1 {[ Sample.key := Sample.paid_row ]} Sample.paid_row).
  - apply lookup_singleton_eq.
  - reflexivity.
Defined.

(** ** Invariants of a run *)

Lemma steps_weaken {A} (R R' : world -> world -> Prop) (m : M A) :
  (forall w w', R w w' -> R' w w') -> steps R m -> steps R' m.
Proof. intros HR Hm w. apply HR, Hm. Qed.

Lemma pending_first_app (a b : list event) :
  pending_first a -> pending_first b -> pending_first (a ++ b).
Proof.
  induction a as [|ev a IH]; simpl; [tauto|]. intros [Hev Ha] Hb.
  split; [|apply IH; assumption].
  destruct ev as [[]| | |]; try exact I. apply in_or_app. left. exact Hev.
Qed.

Lemma pending_first_harmless (tr : list event) :
  Forall no_transfer_request tr -> pending_first tr.
Proof.
  induction 1 as [|ev tr Hev _ IH]; simpl; [exact I|]. split; [|exact IH].
  destruct ev as [[]| | |]; try exact I. destruct Hev.
Qed.

Lemma pending_first_client (key : list N) (evs : list event) :
  Forall (client_event key) evs ->
  pending_first (evs ++ [EvCommit (WritePending key)]).
Proof.
  induction 1 as [|ev evs Hev _ IH]; simpl; [tauto|]. split; [|exact IH].
  destruct ev as [[]| | |]; try exact I. simpl in Hev. subst.
  apply in_or_app. right. left. reflexivity.
Qed.

#[global] Instance run_step_refl : Reflexive run_step.
Proof.
  intros w. split; [intros k r H _; exact H|]. split; [tauto|].
  exists []. split; [reflexivity | exact I].
Qed.

#[global] Instance run_step_trans : Transitive run_step.
Proof.
  intros w1 w2 w3 (Hk1 & Hc1 & n1 & Ht1 & Hp1) (Hk2 & Hc2 & n2 & Ht2 & Hp2).
  split; [|split].
  - intros k r Hr Hs. apply Hk2; [apply Hk1; assumption | exact Hs].
  - tauto.
  - exists (n2 ++ n1). split; [rewrite Ht2, Ht1; apply app_assoc|].
    apply pending_first_app; assumption.
Qed.

(** A step that leaves the table alone and sends no transfer request. *)
Lemma run_step_harmless (w w' : world) :
  quiet no_transfer_request w w' -> run_step w w'.
Proof.
  intros [Hd (new & Ht & Hf)]. split; [|split].
  - intros k r Hr _. rewrite Hd. exact Hr.
  - rewrite Hd. tauto.
  - exists new. split; [exact Ht | apply pending_first_harmless; exact Hf].
Qed.

Lemma consistent_pending (now : N) (key name period : list N) (amount : Z)
    (d d' : gmap (list N) Ledger.row) :
  Ledger.is_already_processed d key = false ->
  Ledger.record_pending now key name period amount d = inr d' ->
  ledger_consistent d -> ledger_consistent d'.
Proof.
  intros Hdone Hp Hc k r Hr Hs.
  destruct (decide (k = key)) as [->|Hne].
  - destruct (record_pending_status _ _ _ _ _ _ _ Hp) as (r' & Hr' & _ & Htid).
    rewrite Hr' in Hr. inversion Hr; subst r'. rewrite Htid.
    destruct (d !! key) as [r0|] eqn:Hr0; [|reflexivity]. simpl.
    apply (Hc key r0 Hr0). intros Hs0.
    assert (Ledger.is_already_processed d key = true) as Ht
      by (apply is_already_processed_true; eauto).
    congruence.
  - rewrite (record_pending_other _ _ _ _ _ _ _ _ Hp Hne) in Hr. eauto.
Qed.

Lemma consistent_settled (w : world) (key name : list N) (res : Qonto.TransferResult) :
  (forall r, db w !! key = Some r -> Ledger.transfer_id r = None) ->
  ledger_consistent (db w) -> ledger_consistent (db (settled w key name res)).
Proof.
  intros Hkey Hc k r Hr Hs. unfold settled in Hr.
  destruct (Qonto.success res); simpl in Hr.
  - destruct (decide (k = key)) as [->|Hne].
    + unfold Ledger.record_success in Hr. destruct (db w !! key) as [r0|] eqn:Hr0.
      * rewrite lookup_insert_eq in Hr. inversion Hr; subst r. simpl in Hs. congruence.
      * congruence.
    + rewrite record_success_other in Hr by exact Hne. eauto.
  - destruct (decide (k = key)) as [->|Hne].
    + unfold Ledger.record_failure in Hr. destruct (db w !! key) as [r0|] eqn:Hr0.
      * rewrite lookup_insert_eq in Hr. inversion Hr; subst r. simpl. eauto.
      * congruence.
    + rewrite record_failure_other in Hr by exact Hne. eauto.
Qed.

Lemma settled_other (w : world) (key name : list N) (res : Qonto.TransferResult)
    (k : list N) :
  k <> key -> db (settled w key name res) !! k = db w !! k.
Proof.
  intros Hne. unfold settled. destruct (Qonto.success res); simpl.
  - apply record_success_other. exact Hne.
  - apply record_failure_other. exact Hne.
Qed.

Lemma settled_trace (w : world) (key name : list N) (res : Qonto.TransferResult) :
  exists c, trace (settled w key name res) = EvCommit c :: trace w.
Proof. unfold settled. destruct (Qonto.success res); simpl; eauto. Qed.

(** The body of the transfer loop is a [run_step]. *)
Lemma steps_process_employee (client : Qonto.QontoClient) (period : list N)
    (emp : Pdf.Employee) (acc : list (list N) * list (list N)) :
  steps run_step (Payroll.process_employee client period emp acc).
Proof.
  destruct acc as [ok fail]. intros w.
  destruct (process_employee_cases client period emp ok fail w)
    as [[_ ->]|[(_ & _ & ->)|[(_ & _ & _ & ->)|(_ & Hdone & d1 & res & w2 & Hp & Hct & ->)]]];
    simpl snd; try (apply run_step_harmless; split; [reflexivity|]; exists [];
                    split; [reflexivity | constructor]).
  pose proof (steps_create_transfer client (Pdf.name emp) (Pdf.iban emp)
                (Pdf.amount_cents emp) period (key_of period emp)
                (pending_world w (key_of period emp) d1 emp)) as Hstep.
  fold (key_of period emp) in Hct. rewrite Hct in Hstep. simpl snd in Hstep.
  destruct Hstep as [[Hdb (new & Htr & Hev)] _]. simpl in Hdb, Htr.
  set (key := key_of period emp) in *.
  assert (Hnot : forall r, db w !! key = Some r -> Ledger.status r <> Ledger.success).
  { intros r Hr Hs.
    assert (Ledger.is_already_processed (db w) key = true)
      by (apply is_already_processed_true; eauto). congruence. }
  split; [|split].
  - intros k r Hr Hs. destruct (decide (k = key)) as [->|Hne].
    + exfalso. exact (Hnot r Hr Hs).
    + rewrite settled_other by exact Hne. rewrite Hdb.
      rewrite (record_pending_other _ _ _ _ _ _ _ _ Hp Hne). exact Hr.
  - intros Hc. apply consistent_settled.
    + intros r Hr. rewrite Hdb in Hr.
      destruct (record_pending_status _ _ _ _ _ _ _ Hp) as (r' & Hr' & _ & Htid).
      rewrite Hr' in Hr. inversion Hr; subst r'. rewrite Htid.
      destruct (db w !! key) as [r0|] eqn:Hr0; [|reflexivity]. simpl.
      apply (Hc key r0 Hr0). apply Hnot. reflexivity.
    + rewrite Hdb. eapply consistent_pending; eassumption.
  - destruct (settled_trace w2 key (Pdf.name emp) res) as [c Hc].
    exists (EvCommit c :: new ++ [EvCommit (WritePending key)]). split.
    + rewrite Hc, Htr. simpl. rewrite <- app_assoc. reflexivity.
    + simpl. split; [exact I|]. apply pending_first_client. exact Hev.
Qed.

Lemma steps_process_employees (client : Qonto.QontoClient) (period : list N) :
  forall (emps : list Pdf.Employee) (acc : list (list N) * list (list N)),
    steps run_step (Payroll.process_employees client period emps acc).
Proof.
  induction emps as [|emp emps IH]; intros acc; simpl.
  - apply steps_mret; apply _.
  - apply steps_bind; try apply _; [apply steps_process_employee | intros acc'; apply IH].
Qed.

(** ** The document stage and the whole tool *)

#[global] Instance pdf_step_refl : Reflexive pdf_step.
Proof.
  intros w. repeat (split; [reflexivity|]). exists []. split; [reflexivity | constructor].
Qed.

#[global] Instance pdf_step_trans : Transitive pdf_step.
Proof.
  intros w1 w2 w3 (Hc1 & Hb1 & Hd1 & Hl1 & n1 & Ht1 & Hf1)
    (Hc2 & Hb2 & Hd2 & Hl2 & n2 & Ht2 & Hf2).
  repeat (split; [congruence|]). exists (n2 ++ n1). split.
  - rewrite Ht2, Ht1. apply app_assoc.
  - apply Forall_app; split; assumption.
Qed.

Lemma steps_emit_save (idx : nat) (path : list N) :
  steps pdf_step (emit (EvSavePage idx path)).
Proof.
  intros w. simpl. repeat (split; [reflexivity|]). exists [EvSavePage idx path].
  split; [reflexivity|]. repeat constructor.
Qed.

Lemma steps_process_page (writable : list N -> bool) (period : list N)
    (skip_save : list (list N)) (idx : nat) (text : list N)
    (st : list Pdf.Employee * Pdf.ProcessingResult) :
  steps pdf_step (Pdf.process_page writable period skip_save idx text st).
Proof.
  unfold Pdf.process_page. destruct st as [employees res].
  repeat first [apply steps_emit_save | step_rule | step_case].
Qed.

Lemma steps_process_pages (writable : list N -> bool) (period : list N)
    (skip_save : list (list N)) :
  forall (pages : list (list N)) (idx : nat)
         (st : list Pdf.Employee * Pdf.ProcessingResult),
    steps pdf_step (Pdf.process_pages writable period skip_save idx pages st).
Proof.
  induction pages as [|text pages IH]; intros idx st; simpl.
  - apply steps_mret; apply _.
  - apply steps_bind; try apply _; [apply steps_process_page | intros st'; apply IH].
Qed.

Lemma steps_process_pdf (writable : list N -> bool) (pdf : option (list (list N)))
    (employees : list Pdf.Employee) (period : list N) (skip_save : list (list N)) :
  steps pdf_step (Pdf.process_pdf writable pdf employees period skip_save).
Proof.
  unfold Pdf.process_pdf. destruct pdf; [apply steps_process_pages|].
  apply steps_mret; apply _.
Qed.

Lemma run_step_pdf (w w' : world) : pdf_step w w' -> run_step w w'.
Proof.
  intros (_ & _ & Hd & _ & new & Ht & Hf). apply run_step_harmless.
  split; [exact Hd|]. exists new. split; [exact Ht|].
  eapply Forall_impl; [exact Hf|]. intros [| | |]; simpl; tauto.
Qed.

Lemma run_step_log (w w' : world) : log_step w w' -> run_step w w'.
Proof.
  intros (_ & _ & Hd & Ht). apply run_step_harmless.
  split; [exact Hd|]. exists []. split; [exact Ht | constructor].
Qed.

Lemma run_step_client (w w' : world) :
  client_step org_event w w' -> run_step w w'.
Proof.
  intros [[Hd (new & Ht & Hf)] _]. apply run_step_harmless.
  split; [exact Hd|]. exists new. split; [exact Ht|].
  eapply Forall_impl; [exact Hf|]. intros [[]| | |]; simpl; tauto.
Qed.

Lemma steps_run_log (l : level) (msg : message) : steps run_step (_log l msg).
Proof. intros w. apply run_step_log. repeat split. Qed.

Lemma steps_run_log_each {A} (l : level) (f : A -> message) (xs : list A) :
  steps run_step (Payroll.log_each l f xs).
Proof. intros w. apply run_step_log. repeat split. Qed.

Lemma steps_run_start_logs : steps run_step Payroll.start_logs.
Proof. intros w. apply run_step_log. repeat split. Qed.

Lemma steps_run_get_logs : steps run_step Payroll.get_logs.
Proof. intros w. apply run_step_log. repeat split. Qed.

(** The whole tool is a [run_step]. *)
Lemma steps_payroll_process (env : Qonto.environ) (writable : list N -> bool)
    (pdf : option (list (list N))) (csv_result : Payroll.ParseResult)
    (period : list N) (skip_transfers : bool) :
  steps run_step
    (Payroll.payroll_process env writable pdf csv_result period skip_transfers).
Proof.
  unfold Payroll.payroll_process.
  repeat first
    [ apply steps_run_log | apply steps_run_log_each | apply steps_run_start_logs
    | apply steps_run_get_logs | apply steps_process_employees
    | eapply steps_weaken; [exact run_step_pdf | apply steps_process_pdf]
    | eapply steps_weaken; [exact run_step_client | apply steps_new_client]
    | apply steps_mret; apply _ | apply steps_raise; apply _
    | apply steps_bind; try apply _ | apply steps_try_except; try apply _
    | step_case ].
Qed.

(** ** Success rows and the order of writes and requests *)

(** C2, the claim as stated fails: on a row with status success,
    [record_failure] sets the status to failed, [record_pending] sets it
    back to pending and [record_success] replaces the transfer id. *)
Lemma success_row_overwritten_by_ledger_operations :
  Ledger.status <$> (Ledger.record_failure 77 Sample.key Sample.paid_db !! Sample.key)
    = Some Ledger.failed
  /\ (exists d', Ledger.record_pending 77 Sample.key (Sample.T "Michael Richter")
                   Sample.period 763363 Sample.paid_db = inr d'
                 /\ Ledger.status <$> (d' !! Sample.key) = Some Ledger.pending)
  /\ Ledger.transfer_id <$> (Ledger.record_success 77 Sample.key None Sample.paid_db
                               !! Sample.key) = Some None
  /\ Ledger.status <$> (Sample.paid_db !! Sample.key) = Some Ledger.success.
Proof.
  unfold Ledger.record_failure, Ledger.record_pending, Ledger.record_success,
    Sample.paid_db.
  rewrite lookup_singleton_eq. split; [|split; [|split]].
  - rewrite lookup_insert_eq. reflexivity.
  - eexists. split; [reflexivity|]. rewrite lookup_insert_eq. reflexivity.
  - rewrite lookup_insert_eq. reflexivity.
  - reflexivity.
Qed.

(** C2, as amended: the ledger operations do not protect a row with
    status success; the tool does.  [payroll_process] writes only to
    keys that [is_already_processed] has just reported as not
    successful, so every row that has status success when a run starts
    has all its columns unchanged when the run ends, whatever the bank
    answers and also when the run stops with an exception. *)
Theorem success_rows_survive_payroll_process (env : Qonto.environ)
    (writable : list N -> bool) (pdf : option (list (list N)))
    (csv_result : Payroll.ParseResult) (period : list N) (skip_transfers : bool)
    (w : world) (k : list N) (r : Ledger.row) :
  db w !! k = Some r ->
  Ledger.status r = Ledger.success ->
  db (snd (Payroll.payroll_process env writable pdf csv_result period skip_transfers w))
    !! k = Some r.
Proof.
  intros Hr Hs.
  destruct (steps_payroll_process env writable pdf csv_result period skip_transfers w)
    as [Hkeep _].
  exact (Hkeep k r Hr Hs).
Qed.

Lemma success_rows_survive_payroll_process_witness :
  db (snd (Payroll.payroll_process Sample.env Sample.always_writable (Some [Sample.page])
             Sample.roster Sample.period false
             (Sample.paid_world [Sample.organization; Sample.verified; Sample.created])))
    !! Sample.key = Some Sample.paid_row.
Proof.
  apply (success_rows_survive_payroll_process Sample.env Sample.always_writable
           (Some [Sample.page]) Sample.roster Sample.period false
           (Sample.paid_world [Sample.organization; Sample.verified; Sample.created])
           Sample.key Sample.paid_row).
  - apply lookup_singleton_eq.
  - reflexivity.
Defined.



(** ** Requests against the script of the bank *)




Lemma mret_unfold {A} (a : A) (w : world) : (mret a : M A) w = (inr a, w).
Proof. reflexivity. Qed.







(** ** Waiting for the approval *)










(** ** Retries of [_request] *)







(** ** The stages of [payroll_process] *)

Lemma payroll_process_unfold (env : Qonto.environ) (writable : list N -> bool)
    (pdf : option (list (list N))) (csv_result : Payroll.ParseResult)
    (period : list N) (skip_transfers : bool) (w : world) :
  Payroll.payroll_process env writable pdf csv_result period skip_transfers w =
  match Payroll.errors csv_result, Payroll.employees csv_result with
  | _ :: _, _ =>
      (inr (Payroll.CsvErrors (Payroll.errors csv_result)),
       World (clock w) (bank w) (db w) (trace w) [])
  | [], [] => (inr Payroll.NoValidEmployees, World (clock w) (bank w) (db w) (trace w) [])
  | [], roster =>
      match Pdf.process_pdf writable pdf roster period []
              (roster_loaded w (List.length roster)) with
      | (inl e, w3) => (inl e, w3)
      | (inr (emps, res), w3) =>
          let w4 := pages_logged w3 res in
          if skip_transfers then reported w4 (INFO, TransfersSkipped)
          else
            match Qonto.new_client env w4 with
            | (inl (QontoConfigError reason), w5) =>
                reported w5 (ERROR, ConfigMissing reason)
            | (inl e, w5) => (inl e, w5)
            | (inr client, w5) =>
                match Payroll.process_employees client period emps ([], []) w5 with
                | (inl e, w6) => (inl e, w6)
                | (inr (transfer_ok, transfer_fail), w6) =>
                    reported w6
                      (INFO, Summary period (List.length (Pdf.saved_files res))
                               (List.length transfer_ok) (List.length transfer_fail)
                               transfer_fail)
                end
            end
      end
  end.
Proof.
  unfold Payroll.payroll_process. rewrite bind_unfold.
  unfold Payroll.start_logs. cbv beta iota.
  destruct (Payroll.errors csv_result) as [|err errs]; [|reflexivity].
  destruct (Payroll.employees csv_result) as [|emp emps]; [reflexivity|].
  set (roster := emp :: emps).
  rewrite bind_unfold. unfold _log at 1. cbv beta iota.
  rewrite bind_unfold. unfold _log at 1. cbv beta iota.
  cbn [clock bank db trace logs app]. rewrite bind_unfold.
  change (World (clock w) (bank w) (db w) (trace w) _)
    with (roster_loaded w (List.length roster)).
  destruct (Pdf.process_pdf writable pdf roster period [] _) as [[e|[emps' res]] w3];
    [reflexivity|].
  cbv zeta. cbn [fst snd].
  rewrite bind_unfold. unfold Payroll.log_each at 1. cbv beta iota.
  rewrite bind_unfold. unfold Payroll.log_each at 1. cbv beta iota.
  rewrite bind_unfold. unfold Payroll.log_each at 1. cbv beta iota.
  cbn [clock bank db trace logs].
  change (World (clock w3) (bank w3) (db w3) (trace w3) _) with (pages_logged w3 res).
  destruct skip_transfers.
  { rewrite bind_unfold. unfold _log at 1. cbv beta iota. rewrite bind_unfold.
    reflexivity. }
  rewrite bind_unfold. unfold try_except. rewrite bind_unfold.
  destruct (Qonto.new_client env (pages_logged w3 res)) as [[e|client] w5].
  { destruct e; try reflexivity. }
  rewrite mret_unfold. cbv beta iota. rewrite bind_unfold.
  destruct (Payroll.process_employees client period emps' ([], []) w5)
    as [[e|[transfer_ok transfer_fail]] w6]; reflexivity.
Qed.

(** ** Missing configuration *)

(** C5, the claim as stated fails: with every Qonto variable unset the
    run has matched and saved the page of the employee before it
    reports the configuration error. *)
Lemma config_error_comes_after_the_pages_are_saved :
  fst (Payroll.payroll_process Sample.no_env Sample.always_writable (Some [Sample.page])
         Sample.roster Sample.period false (Sample.start []))
  = inr (Payroll.Logs
           [(INFO, CsvLoaded 1); (INFO, PdfProcessing);
            (INFO, PdfSaved (Sample.T "/payroll/richter/202602_MRI.pdf"));
            (ERROR, ConfigMissing
                      (MissingVariables
                         ["QONTO_LOGIN"; "QONTO_SECRET_KEY"; "QONTO_DEBIT_IBAN";
                          "QONTO_CLIENT_ID"; "QONTO_CLIENT_SECRET"]%string))])
  /\ trace (snd (Payroll.payroll_process Sample.no_env Sample.always_writable
                   (Some [Sample.page]) Sample.roster Sample.period false
                   (Sample.start [])))
     = [EvSavePage 0 (Sample.T "/payroll/richter/202602_MRI.pdf")].
Proof. vm_compute. split; reflexivity. Qed.

Lemma new_client_without_variables (env : Qonto.environ) (w : world) :
  Qonto.missing_variables env <> [] ->
  Qonto.new_client env w
  = (inl (QontoConfigError (MissingVariables (Qonto.missing_variables env))), w).
Proof.
  intros Hm. unfold Qonto.new_client.
  destruct (Qonto.missing_variables env); [congruence | reflexivity].
Qed.

(** C5, as amended: when required Qonto variables are missing, a run
    with transfers does what a documents-only run does (the roster is
    loaded, the pages are matched and saved) and then reports the
    configuration error in place of the notice that transfers were
    skipped.  It sends no request to the bank and writes nothing to the
    ledger: its only events are saved pages. *)
Theorem missing_configuration_stops_before_transfers (env : Qonto.environ)
    (writable : list N -> bool) (pdf : option (list (list N)))
    (csv_result : Payroll.ParseResult) (period : list N) (w : world) :
  Qonto.missing_variables env <> [] ->
  let run := Payroll.payroll_process env writable pdf csv_result period false w in
  let documents_only := Payroll.payroll_process env writable pdf csv_result period true w in
  db (snd run) = db w
  /\ bank (snd run) = bank w
  /\ (exists new, trace (snd run) = new ++ trace w /\ Forall save_event new)
  /\ trace (snd run) = trace (snd documents_only)
  /\ (fst run = fst documents_only
      \/ exists lines,
           fst documents_only = inr (Payroll.Logs (lines ++ [(INFO, TransfersSkipped)]))
           /\ fst run
              = inr (Payroll.Logs
                       (lines ++ [(ERROR, ConfigMissing
                                            (MissingVariables
                                               (Qonto.missing_variables env)))]))).
Proof.
  intros Hm run documents_only. subst run documents_only.
  rewrite !payroll_process_unfold.
  assert (Hnone : exists new : list event, trace w = new ++ trace w /\ Forall save_event new)
    by (exists []; split; [reflexivity | constructor]).
  destruct (Payroll.errors csv_result) as [|err errs];
    [|cbn [fst snd db bank trace]; repeat (split; [try reflexivity; exact Hnone|]);
      left; reflexivity].
  destruct (Payroll.employees csv_result) as [|emp emps];
    [cbn [fst snd db bank trace]; repeat (split; [try reflexivity; exact Hnone|]);
     left; reflexivity|].
  cbv beta iota zeta. set (roster := emp :: emps).
  pose proof (steps_process_pdf writable pdf roster period []
                (roster_loaded w (List.length roster))) as Hpdf.
  destruct (Pdf.process_pdf writable pdf roster period [] _) as [[e|[emps' res]] w3];
    destruct Hpdf as (_ & Hb & Hd & _ & new & Ht & Hf);
    cbn [snd] in Hb, Hd, Ht;
    change (db (roster_loaded w _)) with (db w) in Hd;
    change (bank (roster_loaded w _)) with (bank w) in Hb;
    change (trace (roster_loaded w _)) with (trace w) in Ht.
  { cbn [fst snd]. split; [exact Hd|]. split; [exact Hb|].
    split; [exists new; split; assumption|]. split; [reflexivity | left; reflexivity]. }
  cbv zeta. rewrite (new_client_without_variables env _ Hm).
  unfold reported. cbn [fst snd db bank trace with_log pages_logged].
  split; [exact Hd|]. split; [exact Hb|].
  split; [exists new; split; assumption|]. split; [reflexivity|].
  right. eexists. split; reflexivity.
Qed.

Lemma missing_configuration_stops_before_transfers_witness :
  db (snd (Payroll.payroll_process Sample.no_env Sample.always_writable
             (Some [Sample.page]) Sample.roster Sample.period false
             (Sample.start [Sample.organization])))
  = db (Sample.start [Sample.organization])
  /\ bank (snd (Payroll.payroll_process Sample.no_env Sample.always_writable
                  (Some [Sample.page]) Sample.roster Sample.period false
                  (Sample.start [Sample.organization])))
     = [Sample.organization].
Proof.
  destruct (missing_configuration_stops_before_transfers Sample.no_env
              Sample.always_writable (Some [Sample.page]) Sample.roster Sample.period
              (Sample.start [Sample.organization])) as (Hd & Hb & _).
  - vm_compute. discriminate.
  - split; [exact Hd | exact Hb].
Defined.

(** ** The idempotency key *)

Ltac n_cases :=
  repeat (match goal with
          | |- context [?a <=? ?b] => destruct (N.leb_spec a b)
          | |- context [?a =? ?b] => destruct (N.eqb_spec a b)
          end; simpl).











Lemma lstrip_keeps_end (s : list N) (c : N) :
  Text.isspace c = false -> exists s', Text.lstrip (s ++ [c]) = s' ++ [c].
Proof.
  intros Hc. induction s as [|a s IH]; simpl.
  - rewrite Hc. exists []. reflexivity.
  - destruct (Text.isspace a); [exact IH | exists (a :: s); reflexivity].
Qed.






(** ** Amount extraction *)

Lemma extract_amount_loop_spec (text : list N) :
  forall patterns : list Regex.re,
    (exists before p after cents,
        patterns = before ++ p :: after
        /\ Forall (fun q => pattern_yield q text = None) before
        /\ pattern_yield p text = Some cents
        /\ (0 < cents)%Z
        /\ Pdf.extract_amount_loop patterns text = cents)
    \/ (Forall (fun q => pattern_yield q text = None) patterns
        /\ Pdf.extract_amount_loop patterns text = 0%Z).
Proof.
  induction patterns as [|p patterns IH]; simpl.
  - right. split; [constructor | reflexivity].
  - destruct (pattern_yield p text) as [cents|] eqn:Hp.
    + left. exists [], p, patterns, cents. pose proof Hp as Hy.
      unfold pattern_yield in Hp.
      destruct (Regex.search p text) as [g|]; [|discriminate].
      destruct (Pdf._german_amount_to_cents g) as [e|c]; [discriminate|].
      destruct (0 <? c)%Z eqn:Hc; [|discriminate]. inversion Hp; subst c.
      apply Z.ltb_lt in Hc.
      split; [reflexivity|]. split; [constructor|]. split; [exact Hy|].
      split; [exact Hc | reflexivity].
    + assert (Hskip : match Regex.search p text with
                      | Some g =>
                          match Pdf._german_amount_to_cents g with
                          | inl _ => Pdf.extract_amount_loop patterns text
                          | inr cents =>
                              if (0 <? cents)%Z then cents
                              else Pdf.extract_amount_loop patterns text
                          end
                      | None => Pdf.extract_amount_loop patterns text
                      end = Pdf.extract_amount_loop patterns text).
      { unfold pattern_yield in Hp. destruct (Regex.search p text) as [g|]; [|reflexivity].
        destruct (Pdf._german_amount_to_cents g) as [e|c]; [reflexivity|].
        destruct (0 <? c)%Z; [discriminate | reflexivity]. }
      rewrite Hskip.
      destruct IH as [(before & q & after & cents & -> & Hb & Hq & Hpos & Hr)|[Hall Hr]].
      * left. exists (p :: before), q, after, cents.
        split; [reflexivity|]. split; [constructor; assumption|].
        split; [exact Hq|]. split; [exact Hpos | exact Hr].
      * right. split; [constructor; assumption | exact Hr].
Qed.

(** C7: [_extract_amount] tries the patterns in their order and returns
    what the first pattern yields whose leftmost match parses to a
    strictly positive number of cents; it returns zero when no pattern
    yields one.  The labelled payout of 7.633,63 EUR gives 763363 cents
    and an amount of 0,00 gives zero. *)
Theorem extract_amount_returns_first_positive_yield :
  (forall text,
     (exists before p after cents,
         Regex.AMOUNT_PATTERNS = before ++ p :: after
         /\ Forall (fun q => pattern_yield q text = None) before
         /\ pattern_yield p text = Some cents
         /\ (0 < cents)%Z
         /\ Pdf._extract_amount text = cents)
     \/ (Forall (fun q => pattern_yield q text = None) Regex.AMOUNT_PATTERNS
         /\ Pdf._extract_amount text = 0%Z))
  /\ Pdf._extract_amount (Text.of_string "Auszahlungsbetrag: 7.633,63 EUR") = 763363%Z
  /\ Pdf._extract_amount (Text.of_string "Betrag 0,00") = 0%Z.
Proof.
  split; [|split].
  - intros text. apply extract_amount_loop_spec.
  - vm_compute. reflexivity.
  - vm_compute. reflexivity.
Qed.

(** ** Name matching *)








Lemma lstrip_head (s : list N) (c : N) (s' : list N) :
  Text.lstrip s = c :: s' -> Text.isspace c = false.
Proof.
  induction s as [|a s IH]; simpl; [discriminate|].
  destruct (Text.isspace a) eqn:Ha; [exact IH|]. intros H. inversion H; subst. exact Ha.
Qed.

Lemma strip_head (s : list N) :
  Text.strip s = [] \/ exists c s', Text.strip s = c :: s' /\ Text.isspace c = false.
Proof.
  unfold Text.strip, Text.rstrip. destruct (Text.lstrip s) as [|c x] eqn:Hx.
  - left. reflexivity.
  - right. pose proof (lstrip_head s c x Hx) as Hc. simpl rev.
    destruct (lstrip_keeps_end (rev x) c Hc) as [s' ->].
    rewrite rev_app_distr. simpl. eauto.
Qed.








(** ** Running the tool again *)



Lemma process_employees_cons (client : Qonto.QontoClient) (period : list N)
    (e : Pdf.Employee) (emps : list Pdf.Employee) (acc : list (list N) * list (list N))
    (w : world) :
  Payroll.process_employees client period (e :: emps) acc w
  = match Payroll.process_employee client period e acc w with
    | (inr acc', w') => Payroll.process_employees client period emps acc' w'
    | (inl ex, w') => (inl ex, w')
    end.
Proof. reflexivity. Qed.





(** ** The document stage decides the payments by the document alone *)


Lemma fmap_cons_inv {A B} (f : A -> B) (a b : A) (l l' : list A) :
  f <$> (a :: l) = f <$> (b :: l') -> f a = f b /\ f <$> l = f <$> l'.
Proof. rewrite !fmap_cons. intros H. injection H. auto. Qed.


Lemma best_match_names (text : list N) :
  forall (emps1 emps2 : list Pdf.Employee) (i : nat) (bs : Q) (be : option nat),
    Pdf.name <$> emps1 = Pdf.name <$> emps2 ->
    Pdf.best_match text emps1 i bs be = Pdf.best_match text emps2 i bs be.
Proof.
  induction emps1 as [|e1 emps1 IH]; intros [|e2 emps2] i bs be H;
    try discriminate; [reflexivity|].
  apply fmap_cons_inv in H. destruct H as [He Hrest]. simpl. rewrite He.
  destruct (Pdf._score_name_match text (Pdf.name e2)) as [ex|q]; [reflexivity|].
  destruct (negb (Qle_bool q bs)); apply IH; exact Hrest.
Qed.





Lemma process_pages_cons (writable : list N -> bool) (period : list N)
    (skip_save : list (list N)) (idx : nat) (text : list N) (pages : list (list N))
    (st : list Pdf.Employee * Pdf.ProcessingResult) (w : world) :
  Pdf.process_pages writable period skip_save idx (text :: pages) st w
  = match Pdf.process_page writable period skip_save idx text st w with
    | (inr st', w') => Pdf.process_pages writable period skip_save (S idx) pages st' w'
    | (inl e, w') => (inl e, w')
    end.
Proof. reflexivity. Qed.



Lemma process_page_names (writable : list N -> bool) (period : list N)
    (skip_save : list (list N)) (idx : nat) (text : list N)
    (st st' : list Pdf.Employee * Pdf.ProcessingResult) (w w' : world) :
  Pdf.process_page writable period skip_save idx text st w = (inr st', w') ->
  Pdf.name <$> fst st' = Pdf.name <$> fst st.
Proof.
  destruct st as [emps res]. unfold Pdf.process_page. rewrite bind_unfold. unfold lift.
  destruct (Pdf.match_page text emps) as [ex|[i|]]; [discriminate| |].
  2:{ intros H. inversion H; subst. reflexivity. }
  destruct (emps !! i) as [emp|] eqn:Hi; [|intros H; inversion H; subst; reflexivity].
  assert (Hins : forall x, Pdf.name x = Pdf.name emp ->
                           Pdf.name <$> <[i:=x]> emps = Pdf.name <$> emps).
  { intros x Hx. rewrite list_fmap_insert, Hx. apply list_insert_id.
    rewrite list_lookup_fmap, Hi. reflexivity. }
  assert (Hins2 : forall x y, Pdf.name x = Pdf.name emp -> Pdf.name y = Pdf.name emp ->
                              Pdf.name <$> <[i:=y]> (<[i:=x]> emps) = Pdf.name <$> emps).
  { intros x y Hx Hy. rewrite list_insert_insert_eq. apply Hins. exact Hy. }
  destruct (bool_decide _).
  { intros H. inversion H; subst. apply Hins. reflexivity. }
  rewrite bind_unfold. unfold lift.
  destruct (Pdf._make_filename (Pdf.name emp) period) as [ex|file]; [discriminate|].
  cbv beta iota. destruct (writable _).
  - rewrite bind_unfold. unfold emit. cbv beta iota. rewrite mret_unfold.
    intros H. inversion H; subst. apply Hins2; reflexivity.
  - intros H. inversion H; subst. apply Hins. reflexivity.
Qed.

Lemma process_pages_names (writable : list N -> bool) (period : list N)
    (skip_save : list (list N)) :
  forall (pages : list (list N)) (idx : nat)
         (st st' : list Pdf.Employee * Pdf.ProcessingResult) (w w' : world),
    Pdf.process_pages writable period skip_save idx pages st w = (inr st', w') ->
    Pdf.name <$> fst st' = Pdf.name <$> fst st.
Proof.
  induction pages as [|text pages IH]; intros idx st st' w w' H.
  - inversion H; subst. reflexivity.
  - rewrite process_pages_cons in H.
    destruct (Pdf.process_page writable period skip_save idx text st w)
      as [[ex|st1] w1] eqn:Hpage; [discriminate|].
    rewrite (IH _ _ _ _ _ H). exact (process_page_names _ _ _ _ _ _ _ _ _ Hpage).
Qed.

(** The document stage keeps the names of the roster. *)
Lemma process_pdf_names (writable : list N -> bool) (pdf : option (list (list N)))
    (roster : list Pdf.Employee) (period : list N) (skip_save : list (list N))
    (w w' : world) (st : list Pdf.Employee * Pdf.ProcessingResult) :
  Pdf.process_pdf writable pdf roster period skip_save w = (inr st, w') ->
  Pdf.name <$> fst st = Pdf.name <$> roster.
Proof.
  unfold Pdf.process_pdf. destruct pdf as [pages|].
  - intros H. exact (process_pages_names _ _ _ _ _ _ _ _ _ H).
  - intros H. inversion H; subst. reflexivity.
Qed.







(** ** The pattern of an IBAN *)

Lemma run_star (r1 : Regex.re) (st : Regex.mstate)
    (k : Regex.mstate -> option Regex.mstate) :
  Regex.run (Regex.Star r1) st k = star_loop r1 k (S (List.length (Regex.rest st))) st.
Proof. reflexivity. Qed.

Lemma star_class_matched (p : N -> bool) (k : Regex.mstate -> option Regex.mstate)
    (n : nat) :
  forall st m,
    star_loop (Regex.Cls p) k n st = Some m ->
    exists pre post,
      Regex.rest st = pre ++ post /\ forallb p pre = true
      /\ k (Regex.MState (rev pre ++ Regex.before st) post (Regex.cap st)) = Some m.
Proof.
  induction n as [|n IH]; intros st m H.
  - exists [], (Regex.rest st). destruct st; simpl in *. auto.
  - simpl in H. destruct st as [bef rst cp]. simpl in H.
    destruct rst as [|c rst'].
    + exists [], []. simpl. auto.
    + destruct (p c) eqn:Hp.
      * simpl in H.
        destruct (List.length rst' <? S (List.length rst'))%nat eqn:Hlt.
        -- destruct (star_loop (Regex.Cls p) k n (Regex.MState (c :: bef) rst' cp))
             as [m'|] eqn:Hrec.
           ++ inversion H; subst m'. clear H.
              destruct (IH _ _ Hrec) as (pre & post & E & Hall & Hk). simpl in *.
              exists (c :: pre), post. simpl. rewrite Hp, E, Hall.
              rewrite <- app_assoc. simpl. auto.
           ++ exists [], (c :: rst'). simpl. auto.
        -- apply Nat.ltb_ge in Hlt. lia.
      * exists [], (c :: rst'). simpl. auto.
Qed.

Lemma star_class_to_the_end (p : N -> bool) (tail : list N) :
  (tail = [] \/ (tail = [10] /\ p 10 = false)) ->
  forall (n : nat) (r bef : list N) (cp : option (list N)),
    forallb p r = true -> (List.length r <= n)%nat ->
    star_loop (Regex.Cls p) Iban.at_end n (Regex.MState bef (r ++ tail) cp)
    = Some (Regex.MState (rev r ++ bef) tail cp).
Proof.
  intros Htail n. induction n as [|n IH]; intros r bef cp Hall Hlen.
  - destruct r; [|simpl in Hlen; lia]. simpl.
    unfold Iban.at_end. simpl. destruct Htail as [->|[-> _]]; reflexivity.
  - destruct r as [|c r].
    + simpl. destruct Htail as [->|[-> Hp]]; simpl.
      * reflexivity.
      * rewrite Hp. reflexivity.
    + simpl in Hall. apply andb_true_iff in Hall as [Hc Hall].
      simpl. rewrite Hc. simpl.
      assert (Hlt : (List.length (r ++ tail) <? S (List.length (r ++ tail)))%nat = true)
        by (apply Nat.ltb_lt; lia).
      rewrite Hlt. rewrite IH; [|assumption|simpl in Hlen; lia].
      rewrite <- app_assoc. reflexivity.
Qed.

Lemma run_seq (r1 r2 : Regex.re) (st : Regex.mstate)
    (k : Regex.mstate -> option Regex.mstate) :
  Regex.run (Regex.Seq r1 r2) st k = Regex.run r1 st (fun st' => Regex.run r2 st' k).
Proof. reflexivity. Qed.

Lemma run_class (p : N -> bool) (bef s : list N) (cp : option (list N))
    (k : Regex.mstate -> option Regex.mstate) :
  Regex.run (Regex.Cls p) (Regex.MState bef s cp) k
  = match s with
    | c :: s' => if p c then k (Regex.MState (c :: bef) s' cp) else None
    | [] => None
    end.
Proof. reflexivity. Qed.

Lemma run_eps (st : Regex.mstate) (k : Regex.mstate -> option Regex.mstate) :
  Regex.run Regex.Eps st k = k st.
Proof. reflexivity. Qed.

Lemma line_feed_is_no_iban_character : Iban.is_upper_or_digit 10 = false.
Proof. reflexivity. Qed.

Lemma at_end_spec (st m : Regex.mstate) :
  Iban.at_end st = Some m -> Regex.rest st = [] \/ Regex.rest st = [10].
Proof.
  unfold Iban.at_end. destruct (Regex.rest st) as [|x post]; [auto|].
  destruct (N.eq_dec x 10) as [->|Hx].
  - destruct post; [auto|discriminate].
  - intros H. exfalso.
    destruct x as [|x]; [destruct post; discriminate|].
    repeat (destruct x as [x|x|]; try (destruct post; discriminate H)); congruence.
Qed.

(** What [_IBAN_RE.match] accepts: two capital letters, two digits, at
    least one more digit or capital letter, nothing else up to the end
    or up to a closing line feed. *)
Lemma iban_re_match_spec (s : list N) :
  Iban.iban_re_match s = true <->
  exists a b c d e r tail,
    s = a :: b :: c :: d :: e :: r ++ tail
    /\ (tail = [] \/ tail = [10])
    /\ Iban.is_upper a = true /\ Iban.is_upper b = true
    /\ Regex.is_digit c = true /\ Regex.is_digit d = true
    /\ Iban.is_upper_or_digit e = true /\ forallb Iban.is_upper_or_digit r = true.
Proof.
  unfold Iban.iban_re_match, Iban._IBAN_RE, Regex.seq. cbn [fold_right].
  split.
  - intros H.
    destruct s as [|a [|b [|c [|d [|e r0]]]]];
      repeat (rewrite run_seq, run_class in H;
              try match type of H with
                  | context [if ?p ?x then _ else _] => destruct (p x) eqn:?
                  end);
      try discriminate H.
    rewrite run_seq, run_star in H.
    destruct (star_loop (Regex.Cls Iban.is_upper_or_digit)
                (fun st' => Regex.run Regex.Eps st' Iban.at_end)
                (S (List.length (Regex.rest (Regex.MState [e; d; c; b; a] r0 None))))
                (Regex.MState [e; d; c; b; a] r0 None)) as [m|] eqn:Hs;
      [|discriminate H].
    apply star_class_matched in Hs as (pre & post & E & Hall & Hk).
    simpl in E. rewrite run_eps in Hk.
    exists a, b, c, d, e, pre, post. subst r0.
    repeat split; try assumption.
    apply at_end_spec in Hk. exact Hk.
  - intros (a & b & c & d & e & r & tail & -> & Htail & Ha & Hb & Hc & Hd & He & Hr).
    rewrite run_seq, run_class, Ha.
    rewrite run_seq, run_class, Hb.
    rewrite run_seq, run_class, Hc.
    rewrite run_seq, run_class, Hd.
    rewrite run_seq, run_class, He.
    rewrite run_seq, run_star.
    assert (Hext : forall n st,
               star_loop (Regex.Cls Iban.is_upper_or_digit)
                 (fun st' => Regex.run Regex.Eps st' Iban.at_end) n st
               = star_loop (Regex.Cls Iban.is_upper_or_digit) Iban.at_end n st).
    { induction n as [|n IH]; intros st; [reflexivity|].
      simpl. destruct st as [bf [|x rs] cp]; simpl; [reflexivity|].
      destruct (Iban.is_upper_or_digit x); [|reflexivity].
      simpl. destruct (List.length rs <? S (List.length rs))%nat; [|reflexivity].
      rewrite IH. reflexivity. }
    rewrite Hext.
    rewrite (star_class_to_the_end Iban.is_upper_or_digit tail).
    + reflexivity.
    + destruct Htail as [->| ->]; [left; reflexivity|right; split; reflexivity].
    + assumption.
    + simpl. rewrite length_app. lia.
Qed.

(** ** [int] and [_iban_to_int] on digits and capital letters *)

Lemma in_range (c : N) (lo len : nat) :
  N.of_nat lo <= c < N.of_nat (lo + len) -> In c (List.map N.of_nat (seq lo len)).
Proof.
  intros H. apply in_map_iff. exists (N.to_nat c). split; [lia|].
  apply in_seq. lia.
Qed.

Lemma digit_range (c : N) : Regex.is_digit c = true <-> 48 <= c <= 57.
Proof.
  unfold Regex.is_digit. rewrite andb_true_iff, !N.leb_le. reflexivity.
Qed.

Lemma upper_range (c : N) : Iban.is_upper c = true <-> 65 <= c <= 90.
Proof.
  unfold Iban.is_upper. rewrite andb_true_iff, !N.leb_le. reflexivity.
Qed.

Lemma digit_facts (c : N) :
  Regex.is_digit c = true ->
  Iban.isalpha_char c = false /\ Iban.int_space c = false
  /\ Iban.is_upper c = false /\ Text.isspace c = false
  /\ Text.upper_char c = [c] /\ (c =? 32) = false /\ (c =? 95) = false
  /\ c <> 45 /\ c <> 43.
Proof.
  intros H. apply digit_range in H.
  assert (Hall : Forall (fun c => Iban.isalpha_char c = false /\ Iban.int_space c = false
                            /\ Iban.is_upper c = false /\ Text.isspace c = false
                            /\ Text.upper_char c = [c] /\ (c =? 32) = false
                            /\ (c =? 95) = false /\ c <> 45 /\ c <> 43)
                   (List.map N.of_nat (seq 48 10))).
  { vm_compute. repeat (constructor; [repeat split; discriminate|]). constructor. }
  rewrite Forall_forall in Hall. apply Hall. apply list_elem_of_In, in_range. lia.
Qed.

Lemma letter_facts (c : N) :
  Iban.is_upper c = true ->
  Iban.isalpha_char c = true /\ Regex.is_digit c = false /\ Text.isspace c = false
  /\ Text.upper_char c = [c] /\ (c =? 32) = false
  /\ Text.str_of_int (Z.of_N c - 55) = [48 + (c - 55) / 10; 48 + (c - 55) mod 10].
Proof.
  intros H. apply upper_range in H.
  assert (Hall : Forall (fun c => Iban.isalpha_char c = true /\ Regex.is_digit c = false
                            /\ Text.isspace c = false
                            /\ Text.upper_char c = [c] /\ (c =? 32) = false
                            /\ Text.str_of_int (Z.of_N c - 55)
                               = [48 + (c - 55) / 10; 48 + (c - 55) mod 10])
                   (List.map N.of_nat (seq 65 26))).
  { vm_compute. repeat (constructor; [repeat split; reflexivity|]). constructor. }
  rewrite Forall_forall in Hall. apply Hall. apply list_elem_of_In, in_range. lia.
Qed.

Lemma upper_or_digit_cases (c : N) :
  Iban.is_upper_or_digit c = true ->
  (Regex.is_digit c = true /\ Iban.is_upper c = false)
  \/ (Iban.is_upper c = true /\ Regex.is_digit c = false).
Proof.
  unfold Iban.is_upper_or_digit. intros H. apply orb_true_iff in H as [H|H].
  - right. split; [assumption|]. apply letter_facts in H. tauto.
  - left. split; [assumption|]. apply digit_facts in H. tauto.
Qed.

Lemma int_body_digits (ds : list N) :
  forallb Regex.is_digit ds = true ->
  forall (after_digit : bool) (acc : Z) (count : nat),
    ds <> [] \/ after_digit = true ->
    Iban.int_body after_digit acc count ds
    = Some (iban_number_from acc ds, (count + List.length ds)%nat).
Proof.
  induction ds as [|d ds IH]; intros Hall after_digit acc count Hne.
  - destruct Hne as [Hne| ->]; [congruence|]. simpl. rewrite Nat.add_0_r. reflexivity.
  - simpl in Hall. apply andb_true_iff in Hall as [Hd Hall].
    simpl. rewrite Hd. rewrite IH; [|assumption|right; reflexivity].
    f_equal. f_equal. simpl. lia.
Qed.

Lemma skip_leading_stops (p : N -> bool) (c : N) (s : list N) :
  p c = false -> Iban.skip_leading p (c :: s) = c :: s.
Proof. intros H. simpl. rewrite H. reflexivity. Qed.

(** [int] reads a plain numeral of at most 4300 digits as its value. *)
Lemma int_of_digits (ds : list N) :
  forallb Regex.is_digit ds = true -> ds <> [] -> (List.length ds <= 4300)%nat ->
  Iban.int ds = inr (iban_number_from 0 ds).
Proof.
  intros Hall Hne Hlen. unfold Iban.int.
  assert (Hskip : rev (Iban.skip_leading Iban.int_space
                         (rev (Iban.skip_leading Iban.int_space ds))) = ds).
  { destruct ds as [|d ds]; [congruence|].
    pose proof Hall as Hall'. simpl in Hall'. apply andb_true_iff in Hall' as [Hd _].
    rewrite skip_leading_stops by (apply digit_facts in Hd; tauto).
    destruct (rev (d :: ds)) as [|z zs] eqn:Hrev.
    { apply (f_equal (@List.length N)) in Hrev. rewrite length_rev in Hrev.
      discriminate Hrev. }
    assert (Hz : Regex.is_digit z = true).
    { rewrite forallb_forall in Hall. apply Hall. apply in_rev. rewrite Hrev.
      left. reflexivity. }
    rewrite skip_leading_stops by (apply digit_facts in Hz; tauto).
    rewrite <- Hrev. apply rev_involutive. }
  rewrite Hskip.
  destruct ds as [|d ds]; [congruence|].
  pose proof Hall as Hall'. simpl in Hall'. apply andb_true_iff in Hall' as [Hd _].
  assert (Hsign : match d :: ds with
                  | 45 :: body => (true, body)
                  | 43 :: body => (false, body)
                  | _ => (false, d :: ds)
                  end = (false, d :: ds)).
  { apply digit_range in Hd.
    assert (Hin : In d (List.map N.of_nat (seq 48 10))) by (apply in_range; lia).
    simpl in Hin. repeat (destruct Hin as [<-|Hin]; [reflexivity|]). destruct Hin. }
  rewrite Hsign. cbn [fst snd].
  rewrite int_body_digits; [|assumption|left; discriminate].
  destruct (4300 <? 0 + List.length (d :: ds))%nat eqn:Hbig.
  - apply Nat.ltb_lt in Hbig. lia.
  - reflexivity.
Qed.

Lemma two_places (c : N) :
  65 <= c <= 90 ->
  exists q r, (c - 55) / 10 = q /\ (c - 55) mod 10 = r
              /\ q < 10 /\ r < 10 /\ c - 55 = 10 * q + r.
Proof.
  intros H. exists ((c - 55) / 10), ((c - 55) mod 10).
  split; [reflexivity|]. split; [reflexivity|].
  split; [apply N.Div0.div_lt_upper_bound; lia|].
  split; [apply N.mod_lt; lia|].
  apply N.div_mod. lia.
Qed.

Lemma iban_number_letter (c : N) (acc : Z) (s : list N) :
  Iban.is_upper c = true ->
  iban_number_from acc ([48 + (c - 55) / 10; 48 + (c - 55) mod 10] ++ s)
  = iban_number_from (100 * acc + (Z.of_N c - 55)) s.
Proof.
  intros H. apply upper_range in H.
  destruct (two_places c H) as (q & r & -> & -> & Hq & Hr & E).
  assert (H1 : Regex.is_digit (48 + q) = true) by (apply digit_range; lia).
  assert (H2 : Regex.is_digit (48 + r) = true) by (apply digit_range; lia).
  simpl. rewrite H1, H2. f_equal. lia.
Qed.

(** Spelling the letters out as numbers, as [_iban_to_int] does, gives
    the digits of the check number. *)
Lemma spelled_out (s : list N) :
  forallb Iban.is_upper_or_digit s = true ->
  let ds := List.concat
              (List.map (fun ch => if Iban.isalpha_char ch
                                   then Text.str_of_int (Z.of_N ch - 55) else [ch]) s) in
  forallb Regex.is_digit ds = true
  /\ (List.length ds <= 2 * List.length s)%nat
  /\ (s <> [] -> ds <> [])
  /\ forall acc, iban_number_from acc ds = iban_number_from acc s.
Proof.
  induction s as [|c s IH]; intros Hall ds.
  - subst ds. simpl. repeat split; auto.
  - simpl in Hall. apply andb_true_iff in Hall as [Hc Hall].
    specialize (IH Hall). cbv zeta in IH. destruct IH as (IH1 & IH2 & _ & IH4).
    subst ds. cbn [List.map List.concat].
    destruct (upper_or_digit_cases c Hc) as [[Hd Hu]|[Hu Hd]].
    + destruct (digit_facts c Hd) as (Ha & _).
      rewrite Ha. simpl. rewrite Hd. repeat split.
      * assumption.
      * lia.
      * discriminate.
      * intros acc. apply IH4.
    + destruct (letter_facts c Hu) as (Ha & _ & _ & _ & _ & Hs).
      rewrite Ha, Hs. repeat split.
      * apply upper_range in Hu.
        destruct (two_places c Hu) as (q & r & -> & -> & Hq & Hr & E).
        assert (H1 : Regex.is_digit (48 + q) = true) by (apply digit_range; lia).
        assert (H2 : Regex.is_digit (48 + r) = true) by (apply digit_range; lia).
        simpl. rewrite IH1, H1, H2. reflexivity.
      * simpl. lia.
      * discriminate.
      * intros acc. rewrite iban_number_letter by assumption.
        simpl. rewrite Hd. apply IH4.
Qed.

Lemma iban_to_int_spec (iban : list N) :
  forallb Iban.is_upper_or_digit iban = true -> iban <> [] ->
  (List.length iban <= 2150)%nat ->
  Iban._iban_to_int iban = inr (check_number iban).
Proof.
  intros Hall Hne Hlen. unfold Iban._iban_to_int, check_number.
  assert (Hre : forallb Iban.is_upper_or_digit (skipn 4 iban ++ firstn 4 iban) = true).
  { rewrite forallb_app. rewrite <- (firstn_skipn 4 iban), forallb_app in Hall.
    apply andb_true_iff in Hall as [H1 H2]. rewrite H1, H2. reflexivity. }
  assert (Hl : List.length (skipn 4 iban ++ firstn 4 iban) = List.length iban).
  { rewrite length_app, Nat.add_comm, <- length_app, firstn_skipn. reflexivity. }
  destruct (spelled_out _ Hre) as (H1 & H2 & H3 & H4).
  rewrite int_of_digits.
  - rewrite H4. reflexivity.
  - assumption.
  - apply H3. intros E. rewrite E in Hl. simpl in Hl. destruct iban; [congruence|discriminate].
  - lia.
Qed.

(** ** The normal form of an IBAN *)

Lemma strip_last (s x : list N) (c : N) :
  Text.strip s = x ++ [c] -> Text.isspace c = false.
Proof.
  unfold Text.strip, Text.rstrip. intros H.
  apply (f_equal (@rev N)) in H. rewrite rev_involutive, rev_app_distr in H.
  simpl in H. eapply lstrip_head. exact H.
Qed.

Lemma replace_char_app (old : N) (new s t : list N) :
  Text.replace_char old new (s ++ t)
  = Text.replace_char old new s ++ Text.replace_char old new t.
Proof. unfold Text.replace_char. rewrite List.map_app, concat_app. reflexivity. Qed.

Lemma upper_app (s t : list N) : Text.upper (s ++ t) = Text.upper s ++ Text.upper t.
Proof. unfold Text.upper. rewrite List.map_app, concat_app. reflexivity. Qed.

Lemma upper_char_last (c : N) :
  Text.isspace c = false ->
  exists y z, Text.upper_char c = y ++ [z] /\ z <> 10.
Proof.
  intros Hc. unfold Text.upper_char.
  destruct (((97 <=? c) && (c <=? 122)) || ((224 <=? c) && (c <=? 254) && negb (c =? 247)))
    eqn:H1.
  - exists [], (c - 32). split; [reflexivity|].
    rewrite orb_true_iff, !andb_true_iff, !N.leb_le in H1. lia.
  - destruct (c =? 223); [exists [83], 83; split; [reflexivity|discriminate]|].
    destruct (c =? 255); [exists [], 376; split; [reflexivity|discriminate]|].
    destruct (c =? 181); [exists [], 924; split; [reflexivity|discriminate]|].
    exists [], c. split; [reflexivity|]. intros ->. discriminate Hc.
Qed.

(** The normal form never ends in a line feed. *)
Lemma normalize_last (raw y : list N) (z : N) :
  Iban.normalize raw = y ++ [z] -> z <> 10.
Proof.
  unfold Iban.normalize.
  remember (Text.strip raw) as t eqn:Hs. symmetry in Hs.
  destruct t as [|x t _] using rev_ind.
  - simpl. intros H. destruct y; discriminate H.
  - pose proof (strip_last raw _ _ Hs) as Hx.
    rewrite replace_char_app, upper_app.
    assert (E : Text.replace_char 32 [] [x] = [x]).
    { unfold Text.replace_char. simpl.
      destruct (x =? 32) eqn:E32; [|reflexivity].
      apply N.eqb_eq in E32. subst x. discriminate Hx. }
    rewrite E. unfold Text.upper at 2. simpl. rewrite app_nil_r.
    destruct (upper_char_last x Hx) as (y' & z' & -> & Hz).
    rewrite app_assoc. intros H. apply app_inj_tail in H as [_ <-]. exact Hz.
Qed.

Lemma iban_lengths_bounded (country : list N) (n : N) :
  Iban.IBAN_LENGTHS !! country = Some n -> 15 <= n <= 32.
Proof.
  unfold Iban.IBAN_LENGTHS. intros H. apply elem_of_list_to_map_2 in H.
  match type of H with
  | _ ∈ ?l => assert (Hall : Forall (fun p : list N * N => 15 <= snd p <= 32) l)
  end.
  { repeat (constructor; [simpl; lia|]). constructor. }
  rewrite Forall_forall in Hall. exact (Hall _ H).
Qed.

Lemma registered_iban_matches (iban : list N) :
  registered_iban iban -> Iban.iban_re_match iban = true.
Proof.
  intros (_ & (a & b & c & d & account & -> & Ha & Hb & Hc & Hd & Hne & Hall) & _).
  apply iban_re_match_spec. destruct account as [|e r]; [congruence|].
  simpl in Hall. apply andb_true_iff in Hall as [He Hr].
  exists a, b, c, d, e, r, []. rewrite app_nil_r. repeat split; auto.
Qed.

Lemma matched_normal_form (raw : list N) :
  Iban.iban_re_match (Iban.normalize raw) = true ->
  exists a b c d account,
    Iban.normalize raw = a :: b :: c :: d :: account
    /\ Iban.is_upper a = true /\ Iban.is_upper b = true
    /\ Regex.is_digit c = true /\ Regex.is_digit d = true
    /\ account <> [] /\ forallb Iban.is_upper_or_digit account = true.
Proof.
  intros H. apply iban_re_match_spec in H
    as (a & b & c & d & e & r & tail & E & Htail & Ha & Hb & Hc & Hd & He & Hr).
  destruct Htail as [-> | ->].
  - rewrite app_nil_r in E. exists a, b, c, d, (e :: r).
    split; [exact E|]. do 4 (split; [assumption|]). split; [discriminate|].
    simpl. rewrite He, Hr. reflexivity.
  - exfalso. apply (normalize_last raw (a :: b :: c :: d :: e :: r) 10); [|reflexivity].
    rewrite E. reflexivity.
Qed.

Lemma shaped_iban_number (a b c d : N) (account : list N) :
  Iban.is_upper a = true -> Iban.is_upper b = true ->
  Regex.is_digit c = true -> Regex.is_digit d = true ->
  forallb Iban.is_upper_or_digit account = true ->
  (List.length account <= 2000)%nat ->
  Iban._iban_to_int (a :: b :: c :: d :: account)
  = inr (check_number (a :: b :: c :: d :: account)).
Proof.
  intros Ha Hb Hc Hd Hall Hlen. apply iban_to_int_spec.
  - simpl. unfold Iban.is_upper_or_digit at 1 2 3 4.
    rewrite Ha, Hb, Hc, Hd, Hall, !orb_true_r. reflexivity.
  - discriminate.
  - simpl. lia.
Qed.

(** The two ways [validate_iban] ends: it accepts a registered IBAN,
    or it rejects with an error text what is not one. *)
Lemma validate_iban_cases (raw : list N) :
  (registered_iban (Iban.normalize raw)
   /\ Iban.validate_iban raw
      = inr (Iban.MkValidation true (Iban._mask_iban (Iban.normalize raw)) []))
  \/ (~ registered_iban (Iban.normalize raw)
      /\ exists error,
           error <> []
           /\ Iban.validate_iban raw
              = inr (Iban.MkValidation false (Iban._mask_iban (Iban.normalize raw)) error)).
Proof.
  unfold Iban.validate_iban. set (iban := Iban.normalize raw).
  assert (Hreject : forall msg, msg <> [] -> ~ registered_iban iban ->
            (registered_iban iban
             /\ inr (Iban.MkValidation false (Iban._mask_iban iban) msg)
                = (inr (Iban.MkValidation true (Iban._mask_iban iban) [])
                   : exn + Iban.ValidationResult))
            \/ (~ registered_iban iban
                /\ exists error,
                     error <> []
                     /\ inr (Iban.MkValidation false (Iban._mask_iban iban) msg)
                        = (inr (Iban.MkValidation false (Iban._mask_iban iban) error)
                           : exn + Iban.ValidationResult))).
  { intros msg Hmsg Hno. right. split; [exact Hno|]. exists msg. split; [exact Hmsg|].
    reflexivity. }
  destruct (List.length iban <? 5)%nat eqn:Hshort.
  { apply Hreject; [discriminate|].
    intros (_ & (a & b & c & d & account & E & _ & _ & _ & _ & Hne & _) & _).
    apply Nat.ltb_lt in Hshort. rewrite E in Hshort. destruct account; [congruence|].
    simpl in Hshort. lia. }
  destruct (Iban.isalpha (firstn 2 iban)) eqn:Halpha; simpl negb; cbv iota.
  2:{ apply Hreject; [discriminate|].
      intros (_ & (a & b & c & d & account & E & Ha & Hb & _) & _).
      rewrite E in Halpha. simpl in Halpha.
      destruct (letter_facts a Ha) as (Ha' & _). destruct (letter_facts b Hb) as (Hb' & _).
      rewrite Ha', Hb' in Halpha. discriminate Halpha. }
  destruct (Iban.IBAN_LENGTHS !! firstn 2 iban) as [expected_len|] eqn:Hlen.
  2:{ apply Hreject; [discriminate|]. intros (H & _). congruence. }
  destruct (N.of_nat (List.length iban) =? expected_len) eqn:Hexp; simpl negb; cbv iota.
  2:{ apply Hreject; [discriminate|]. intros (H & _).
      apply N.eqb_neq in Hexp. congruence. }
  apply N.eqb_eq in Hexp.
  destruct (Iban.iban_re_match iban) eqn:Hre; simpl negb; cbv iota.
  2:{ apply Hreject; [discriminate|]. intros H.
      apply registered_iban_matches in H. congruence. }
  destruct (matched_normal_form raw Hre)
    as (a & b & c & d & account & E & Ha & Hb & Hc & Hd & Hne & Hall).
  fold iban in E.
  pose proof (iban_lengths_bounded _ _ Hlen) as Hbound.
  assert (Hacc : (List.length account <= 2000)%nat).
  { rewrite E in Hexp. simpl in Hexp. lia. }
  assert (Hint : Iban._iban_to_int iban = inr (check_number iban)).
  { rewrite E. apply shaped_iban_number; assumption. }
  rewrite Hint.
  destruct (check_number iban mod 97 =? 1)%Z eqn:Hmod; simpl negb; cbv iota.
  - left. split; [|reflexivity].
    split; [congruence|]. split.
    + exists a, b, c, d, account. repeat split; assumption.
    + apply Z.eqb_eq. exact Hmod.
  - apply Hreject; [discriminate|]. intros (_ & _ & H).
    apply Z.eqb_neq in Hmod. congruence.
Qed.


(** ** What the MOD-97 check detects *)

Lemma lstrip_to_mark (pre post : list N) (c : N) :
  Text.isspace c = false ->
  Text.lstrip (pre ++ c :: post) = Text.lstrip pre ++ c :: post.
Proof.
  intros Hc. induction pre as [|a pre IH]; simpl.
  - rewrite Hc. reflexivity.
  - destruct (Text.isspace a); [exact IH|reflexivity].
Qed.

Lemma rstrip_from_mark (pre post : list N) (c : N) :
  Text.isspace c = false ->
  Text.rstrip (pre ++ c :: post) = pre ++ c :: Text.rstrip post.
Proof.
  intros Hc. unfold Text.rstrip.
  rewrite rev_app_distr. simpl. rewrite <- app_assoc. simpl.
  rewrite lstrip_to_mark by exact Hc.
  rewrite rev_app_distr. simpl. rewrite rev_involutive, <- app_assoc. reflexivity.
Qed.

(** A digit stays where it is when an IBAN is brought to normal form. *)
Lemma normalize_around_digit (pre post : list N) (c : N) :
  Regex.is_digit c = true ->
  Iban.normalize (pre ++ c :: post)
  = Text.upper (Text.replace_char 32 [] (Text.lstrip pre))
    ++ c :: Text.upper (Text.replace_char 32 [] (Text.rstrip post)).
Proof.
  intros Hc. destruct (digit_facts c Hc) as (_ & _ & _ & Hsp & Hup & H32 & _).
  unfold Iban.normalize, Text.strip.
  rewrite lstrip_to_mark, rstrip_from_mark by exact Hsp.
  change (c :: Text.rstrip post) with ([c] ++ Text.rstrip post).
  rewrite !replace_char_app, !upper_app.
  unfold Text.replace_char at 2. simpl. rewrite H32. simpl.
  unfold Text.upper at 2. simpl. rewrite Hup. reflexivity.
Qed.

Lemma iban_number_app (x y : list N) (acc : Z) :
  iban_number_from acc (x ++ y) = iban_number_from (iban_number_from acc x) y.
Proof.
  revert acc. induction x as [|c x IH]; intros acc; simpl; [reflexivity|].
  destruct (Regex.is_digit c); apply IH.
Qed.

Lemma iban_places_nonneg (s : list N) : (0 <= iban_places s)%Z.
Proof. induction s as [|c s IH]; simpl; [lia|]. destruct (Regex.is_digit c); lia. Qed.

Lemma iban_number_shift (y : list N) (acc : Z) :
  (iban_number_from acc y = acc * 10 ^ iban_places y + iban_number_from 0 y)%Z.
Proof.
  revert acc. induction y as [|c y IH]; intros acc; simpl.
  - lia.
  - pose proof (iban_places_nonneg y) as Hp.
    destruct (Regex.is_digit c).
    + rewrite (IH (10 * acc + (Z.of_N c - 48))%Z), (IH (10 * 0 + (Z.of_N c - 48))%Z).
      rewrite Z.pow_add_r by lia. lia.
    + rewrite (IH (100 * acc + (Z.of_N c - 55))%Z), (IH (100 * 0 + (Z.of_N c - 55))%Z).
      rewrite Z.pow_add_r by lia. lia.
Qed.

(** The number of a string with the digit [c] in it, as a function of [c]. *)
Lemma iban_number_at_digit (x y : list N) (c : N) :
  Regex.is_digit c = true ->
  (iban_number_from 0 (x ++ c :: y)
   = (10 * iban_number_from 0 x + (Z.of_N c - 48)) * 10 ^ iban_places y
     + iban_number_from 0 y)%Z.
Proof.
  intros Hc. rewrite iban_number_app. simpl. rewrite Hc.
  apply iban_number_shift.
Qed.

(** Moving the first four characters to the end keeps a marked
    character between two strings that do not depend on it. *)
Lemma rearranged_around (a b : list N) :
  exists x y, forall c : N,
    skipn 4 (a ++ c :: b) ++ firstn 4 (a ++ c :: b) = x ++ c :: y.
Proof.
  destruct a as [|a1 [|a2 [|a3 [|a4 a]]]].
  - exists (skipn 3 b), (firstn 3 b). intros c. reflexivity.
  - exists (skipn 2 b ++ [a1]), (firstn 2 b). intros c. simpl.
    rewrite <- app_assoc. reflexivity.
  - exists (skipn 1 b ++ [a1; a2]), (firstn 1 b). intros c. simpl.
    rewrite <- app_assoc. reflexivity.
  - exists (b ++ [a1; a2; a3]), []. intros c. simpl.
    rewrite <- app_assoc. reflexivity.
  - exists a, (b ++ [a1; a2; a3; a4]). intros c. simpl.
    rewrite skipn_O, firstn_O, <- app_assoc. reflexivity.
Qed.

Lemma ten_to_the_n_is_prime_to_97 (n : Z) : (0 <= n)%Z -> Z.gcd 97 (10 ^ n) = 1%Z.
Proof. intros Hn. apply Z.coprime_pow_r; [exact Hn|reflexivity]. Qed.

(** Two strings that differ in one digit have check numbers that differ
    modulo 97. *)
Lemma changed_digit_changes_check (a b : list N) (c c' : N) :
  Regex.is_digit c = true -> Regex.is_digit c' = true -> c <> c' ->
  (check_number (a ++ c :: b) mod 97 <> check_number (a ++ c' :: b) mod 97)%Z.
Proof.
  intros Hc Hc' Hne. unfold check_number.
  destruct (rearranged_around a b) as (x & y & E). rewrite !E.
  rewrite !iban_number_at_digit by assumption.
  intros H.
  apply digit_range in Hc, Hc'.
  pose proof (iban_places_nonneg y) as Hp.
  assert (Hdiv : (97 | 10 ^ iban_places y * (Z.of_N c - Z.of_N c'))%Z).
  { apply Z.mod_divide; [lia|].
    match type of H with
    | (?u mod 97 = ?v mod 97)%Z =>
        replace (10 ^ iban_places y * (Z.of_N c - Z.of_N c'))%Z with (u - v)%Z by ring;
        rewrite Zminus_mod, H, Z.sub_diag; reflexivity
    end. }
  apply Z.gauss in Hdiv; [|apply ten_to_the_n_is_prime_to_97; exact Hp].
  destruct Hdiv as [k Hk]. lia.
Qed.

(** X2: the MOD-97 check catches every single wrong digit.  If an input
    is accepted and one of its digits is replaced by another digit, the
    result is rejected. *)
Theorem validate_iban_rejects_a_changed_digit (pre post : list N) (c c' : N) :
  Regex.is_digit c = true -> Regex.is_digit c' = true -> c <> c' ->
  (exists r, Iban.validate_iban (pre ++ c :: post) = inr r /\ Iban.valid r = true) ->
  exists r', Iban.validate_iban (pre ++ c' :: post) = inr r' /\ Iban.valid r' = false.
Proof.
  intros Hc Hc' Hne (r & Hr & Hv).
  destruct (validate_iban_cases (pre ++ c :: post))
    as [[(_ & _ & Hmod) _]|[_ (error & _ & E)]].
  2:{ rewrite E in Hr. inversion Hr; subst r. discriminate Hv. }
  destruct (validate_iban_cases (pre ++ c' :: post))
    as [[(_ & _ & Hmod') _]|[_ (error & _ & E)]].
  2:{ rewrite E. eexists. split; reflexivity. }
  exfalso.
  rewrite normalize_around_digit in Hmod, Hmod' by assumption.
  exact (changed_digit_changes_check _ _ c c' Hc Hc' Hne (eq_trans Hmod (eq_sym Hmod'))).
Qed.

Lemma validate_iban_rejects_a_changed_digit_witness :
  exists r', Iban.validate_iban (Sample.T "DE8937040044053201300" ++ 49 :: []) = inr r'
             /\ Iban.valid r' = false.
Proof.
  apply (validate_iban_rejects_a_changed_digit (Sample.T "DE8937040044053201300") [] 48 49).
  - reflexivity.
  - reflexivity.
  - discriminate.
  - eexists. split; vm_compute; reflexivity.
Defined.

Lemma rearranged_around_pair (a b : list N) :
  List.length a <> 3%nat ->
  exists x y, forall c d : N,
    skipn 4 (a ++ c :: d :: b) ++ firstn 4 (a ++ c :: d :: b) = x ++ c :: d :: y.
Proof.
  intros Ha. destruct a as [|a1 [|a2 [|a3 [|a4 a]]]].
  - exists (skipn 2 b), (firstn 2 b). intros c d. reflexivity.
  - exists (skipn 1 b ++ [a1]), (firstn 1 b). intros c d. simpl.
    rewrite <- app_assoc. reflexivity.
  - exists (b ++ [a1; a2]), []. intros c d. simpl.
    rewrite <- app_assoc. reflexivity.
  - simpl in Ha. congruence.
  - exists a, (b ++ [a1; a2; a3; a4]). intros c d. simpl.
    rewrite skipn_O, firstn_O, <- app_assoc. reflexivity.
Qed.

Lemma iban_places_bound (s : list N) : (iban_places s <= 2 * Z.of_nat (List.length s))%Z.
Proof.
  induction s as [|c s IH]; simpl List.length; simpl iban_places; [lia|].
  destruct (Regex.is_digit c); lia.
Qed.

(** The order of 10 modulo 97 is 96: no smaller power leaves 1. *)
Lemma power_of_ten_mod_97 (p : Z) : (1 <= p <= 95)%Z -> (10 ^ p mod 97 <> 1)%Z.
Proof.
  intros Hp.
  assert (Hall : forallb (fun n => negb (10 ^ Z.of_nat n mod 97 =? 1)%Z) (seq 1 95) = true)
    by (vm_compute; reflexivity).
  rewrite forallb_forall in Hall. specialize (Hall (Z.to_nat p)).
  rewrite Z2Nat.id in Hall by lia.
  intros E. rewrite E in Hall. discriminate Hall. apply in_seq. lia.
Qed.

(** Two strings that differ by the exchange of two neighbouring digits
    have check numbers that differ modulo 97, as long as the number has
    fewer than 96 decimal places. *)
Lemma swapped_digits_change_check (a b : list N) (c d : N) :
  Regex.is_digit c = true -> Regex.is_digit d = true -> c <> d ->
  (List.length a + List.length b <= 45)%nat ->
  (check_number (a ++ c :: d :: b) mod 97 <> check_number (a ++ d :: c :: b) mod 97)%Z.
Proof.
  intros Hc Hd Hne Hlen.
  pose proof Hc as Hc'. pose proof Hd as Hd'. apply digit_range in Hc', Hd'.
  unfold check_number. intros H.
  destruct (Nat.eq_dec (List.length a) 3%nat) as [H3|H3].
  - destruct a as [|a1 [|a2 [|a3 [|a4 a]]]]; try discriminate H3. clear H3.
    replace (skipn 4 ([a1; a2; a3] ++ c :: d :: b) ++ firstn 4 ([a1; a2; a3] ++ c :: d :: b))
      with ([] ++ d :: (b ++ [a1; a2; a3]) ++ [c]) in H
      by (simpl; rewrite <- app_assoc; reflexivity).
    replace (skipn 4 ([a1; a2; a3] ++ d :: c :: b) ++ firstn 4 ([a1; a2; a3] ++ d :: c :: b))
      with ([] ++ c :: (b ++ [a1; a2; a3]) ++ [d]) in H
      by (simpl; rewrite <- app_assoc; reflexivity).
    set (m := b ++ [a1; a2; a3]) in *.
    rewrite (iban_number_at_digit [] (m ++ [c]) d Hd) in H.
    rewrite (iban_number_at_digit [] (m ++ [d]) c Hc) in H.
    rewrite (iban_number_at_digit m [] c Hc), (iban_number_at_digit m [] d Hd) in H.
    cbn [iban_number_from iban_places] in H.
    assert (Hm : iban_places (m ++ [c]) = (iban_places m + 1)%Z
                 /\ iban_places (m ++ [d]) = (iban_places m + 1)%Z).
    { clear - Hc Hd. induction m as [|z m [IH1 IH2]]; simpl.
      - rewrite Hc, Hd. split; reflexivity.
      - rewrite IH1, IH2. split; lia. }
    destruct Hm as [Hm1 Hm2]. rewrite Hm1, Hm2 in H.
    pose proof (iban_places_nonneg m) as Hp.
    pose proof (iban_places_bound m) as Hb.
    assert (Hml : List.length m = (List.length b + 3)%nat).
    { subst m. rewrite length_app. reflexivity. }
    simpl in Hlen.
    set (P := (iban_places m + 1)%Z) in *.
    set (M := iban_number_from 0 m) in *.
    assert (Hdiv : (97 | (Z.of_N d - Z.of_N c) * (10 ^ P - 1))%Z).
    { apply Z.mod_divide; [lia|].
      match type of H with
      | (?u mod 97 = ?v mod 97)%Z =>
          replace ((Z.of_N d - Z.of_N c) * (10 ^ P - 1))%Z with (u - v)%Z;
          [rewrite Zminus_mod, H, Z.sub_diag; reflexivity|]
      end.
      subst P. ring. }
    apply Z.gauss in Hdiv.
    + apply (power_of_ten_mod_97 P); [subst P; lia|].
      destruct Hdiv as [k Hk].
      replace (10 ^ P)%Z with (1 + k * 97)%Z by lia.
      rewrite Z.mod_add by lia. reflexivity.
    + assert (Hk : In (Z.of_N d - Z.of_N c)%Z
                     [-9; -8; -7; -6; -5; -4; -3; -2; -1; 1; 2; 3; 4; 5; 6; 7; 8; 9]%Z).
      { assert (E : (-9 <= Z.of_N d - Z.of_N c <= 9 /\ Z.of_N d - Z.of_N c <> 0)%Z) by lia.
        revert E. generalize (Z.of_N d - Z.of_N c)%Z. intros z [H1 H2].
        simpl. lia. }
      simpl in Hk.
      repeat (destruct Hk as [<-|Hk]; [reflexivity|]). destruct Hk.
  - destruct (rearranged_around_pair a b H3) as (x & y & E). rewrite !E in H.
    change (x ++ c :: d :: y) with (x ++ c :: [d] ++ y) in H.
    change (x ++ d :: c :: y) with (x ++ d :: [c] ++ y) in H.
    rewrite !iban_number_at_digit in H by assumption.
    rewrite !(iban_number_app [_] y) in H. simpl in H. rewrite Hc, Hd in H.
    rewrite (iban_number_shift y (10 * 0 + (Z.of_N d - 48))%Z) in H.
    rewrite (iban_number_shift y (10 * 0 + (Z.of_N c - 48))%Z) in H.
    pose proof (iban_places_nonneg y) as Hp.
    rewrite !Z.pow_add_r in H by lia.
    assert (Hdiv : (97 | 10 ^ iban_places y * (9 * (Z.of_N c - Z.of_N d)))%Z).
    { apply Z.mod_divide; [lia|].
      match type of H with
      | (?u mod 97 = ?v mod 97)%Z =>
          replace (10 ^ iban_places y * (9 * (Z.of_N c - Z.of_N d)))%Z with (u - v)%Z
            by ring;
          rewrite Zminus_mod, H, Z.sub_diag; reflexivity
      end. }
    apply Z.gauss in Hdiv; [|apply ten_to_the_n_is_prime_to_97; exact Hp].
    destruct Hdiv as [k Hk]. lia.
Qed.

Lemma normalize_around_pair (pre post : list N) (c d : N) :
  Regex.is_digit c = true -> Regex.is_digit d = true ->
  Iban.normalize (pre ++ c :: d :: post)
  = Text.upper (Text.replace_char 32 [] (Text.lstrip pre))
    ++ c :: d :: Text.upper (Text.replace_char 32 [] (Text.rstrip post)).
Proof.
  intros Hc Hd. rewrite normalize_around_digit by exact Hc.
  destruct (digit_facts d Hd) as (_ & _ & _ & Hsp & Hup & H32 & _).
  pose proof (rstrip_from_mark [] post d Hsp) as E. simpl in E. rewrite E.
  change (d :: Text.rstrip post) with ([d] ++ Text.rstrip post).
  rewrite replace_char_app, upper_app.
  unfold Text.replace_char at 2. simpl. rewrite H32. simpl.
  unfold Text.upper at 2. simpl. rewrite Hup. reflexivity.
Qed.

(** X3: the MOD-97 check catches every exchange of two neighbouring
    digits.  If an input is accepted and two different digits that
    stand next to each other change places, the result is rejected. *)
Theorem validate_iban_rejects_swapped_digits (pre post : list N) (c d : N) :
  Regex.is_digit c = true -> Regex.is_digit d = true -> c <> d ->
  (exists r, Iban.validate_iban (pre ++ c :: d :: post) = inr r /\ Iban.valid r = true) ->
  exists r', Iban.validate_iban (pre ++ d :: c :: post) = inr r' /\ Iban.valid r' = false.
Proof.
  intros Hc Hd Hne (r & Hr & Hv).
  destruct (validate_iban_cases (pre ++ c :: d :: post))
    as [[(Hlen & _ & Hmod) _]|[_ (error & _ & E)]].
  2:{ rewrite E in Hr. inversion Hr; subst r. discriminate Hv. }
  destruct (validate_iban_cases (pre ++ d :: c :: post))
    as [[(_ & _ & Hmod') _]|[_ (error & _ & E)]].
  2:{ rewrite E. eexists. split; reflexivity. }
  exfalso.
  apply iban_lengths_bounded in Hlen.
  rewrite normalize_around_pair in Hmod, Hmod', Hlen by assumption.
  rewrite length_app in Hlen. simpl in Hlen.
  refine (swapped_digits_change_check _ _ c d Hc Hd Hne _ (eq_trans Hmod (eq_sym Hmod'))).
  lia.
Qed.

Lemma validate_iban_rejects_swapped_digits_witness :
  exists r', Iban.validate_iban (Sample.T "DE89370400440532" ++ 49 :: 48 :: Sample.T "3000")
             = inr r'
             /\ Iban.valid r' = false.
Proof.
  apply (validate_iban_rejects_swapped_digits (Sample.T "DE89370400440532")
           (Sample.T "3000") 48 49).
  - reflexivity.
  - reflexivity.
  - discriminate.
  - eexists. split; vm_compute; reflexivity.
Defined.

(** ** Spaces and case in an IBAN *)

Lemma replace_char_rev (old : N) (s : list N) :
  Text.replace_char old [] (rev s) = rev (Text.replace_char old [] s).
Proof.
  induction s as [|c s IH]; [reflexivity|].
  simpl rev. rewrite replace_char_app, IH.
  change (c :: s) with ([c] ++ s). rewrite (replace_char_app old [] [c] s), rev_app_distr.
  f_equal. unfold Text.replace_char. simpl. destruct (c =? old); reflexivity.
Qed.











(** ** The masked form *)

Lemma mask_iban_short (iban : list N) :
  (List.length iban < 8)%nat -> Iban._mask_iban iban = iban.
Proof.
  intros H. unfold Iban._mask_iban.
  destruct (List.length iban <? 8)%nat eqn:E; [reflexivity|].
  apply Nat.ltb_ge in E. lia.
Qed.

Lemma mask_iban_long (iban : list N) :
  (8 <= List.length iban)%nat ->
  Iban._mask_iban iban
  = firstn 4 iban ++ List.repeat 42 (List.length iban - 8)
    ++ skipn (List.length iban - 4) iban.
Proof.
  intros H. unfold Iban._mask_iban.
  destruct (List.length iban <? 8)%nat eqn:E; [|reflexivity].
  apply Nat.ltb_lt in E. lia.
Qed.

Lemma lookup_repeat {A} (x : A) (n i : nat) :
  (i < n)%nat -> List.repeat x n !! i = Some x.
Proof.
  revert i. induction n as [|n IH]; intros i Hi; [lia|].
  destruct i as [|i]; [reflexivity|]. simpl. apply IH. lia.
Qed.

(** X5: the masked form has the length of the IBAN and shows its first
    four and its last four characters; of an IBAN of eight or more
    characters every character between them is an asterisk, so that two
    IBANs of one length that agree on their first four and last four
    characters have the same masked form.  An IBAN of fewer than eight
    characters is not masked at all. *)
Theorem mask_iban_shows_only_the_ends (iban : list N) :
  List.length (Iban._mask_iban iban) = List.length iban
  /\ firstn 4 (Iban._mask_iban iban) = firstn 4 iban
  /\ skipn (List.length iban - 4) (Iban._mask_iban iban)
     = skipn (List.length iban - 4) iban
  /\ (forall i : nat,
        (4 <= i < List.length iban - 4)%nat -> Iban._mask_iban iban !! i = Some 42)
  /\ (forall other : list N,
        (8 <= List.length iban)%nat ->
        List.length other = List.length iban ->
        firstn 4 other = firstn 4 iban ->
        skipn (List.length iban - 4) other = skipn (List.length iban - 4) iban ->
        Iban._mask_iban other = Iban._mask_iban iban)
  /\ ((List.length iban < 8)%nat -> Iban._mask_iban iban = iban).
Proof.
  destruct (Nat.lt_ge_cases (List.length iban) 8) as [Hs|Hl].
  - rewrite (mask_iban_short iban Hs).
    repeat split; try reflexivity; intros; lia.
  - rewrite (mask_iban_long iban Hl).
    assert (H4 : List.length (firstn 4 iban) = 4%nat) by (rewrite length_firstn; lia).
    assert (Hr : List.length (List.repeat 42 (List.length iban - 8))
                 = (List.length iban - 8)%nat) by apply repeat_length.
    assert (Hk : List.length (skipn (List.length iban - 4) iban) = 4%nat)
      by (rewrite length_skipn; lia).
    split; [rewrite !length_app, H4, Hr, Hk; lia|].
    split; [rewrite firstn_app, H4; simpl; rewrite firstn_O, app_nil_r;
            apply firstn_all2; lia|].
    split.
    { rewrite app_assoc, skipn_app.
      rewrite skipn_all2 by (rewrite length_app, H4, Hr; lia).
      rewrite length_app, H4, Hr.
      replace (List.length iban - 4 - (4 + (List.length iban - 8)))%nat with 0%nat by lia.
      reflexivity. }
    split.
    { intros i Hi.
      rewrite lookup_app_r by (rewrite H4; lia).
      rewrite lookup_app_l by (rewrite H4, Hr; lia).
      rewrite H4. apply lookup_repeat. lia. }
    split.
    { intros other _ Hlen Hf Hk'. rewrite mask_iban_long by lia.
      rewrite Hlen, Hf, Hk'. reflexivity. }
    intros. lia.
Qed.

(** ** Texts without blanks at their ends *)

Lemma strip_of_trimmed (t : list N) : trimmed t -> Text.strip t = t.
Proof.
  intros [Hh Hl]. unfold Text.strip, Text.rstrip.
  assert (E1 : Text.lstrip t = t).
  { destruct t as [|c t]; [reflexivity|]. simpl. rewrite Hh. reflexivity. }
  rewrite E1.
  assert (E2 : Text.lstrip (rev t) = rev t).
  { destruct (rev t) as [|c t']; [reflexivity|]. simpl. rewrite Hl. reflexivity. }
  rewrite E2. apply rev_involutive.
Qed.

Lemma strip_is_trimmed (s : list N) : trimmed (Text.strip s).
Proof.
  split.
  - destruct (strip_head s) as [->|(c & s' & -> & Hc)]; [exact I|exact Hc].
  - destruct (rev (Text.strip s)) as [|c t] eqn:E; [exact I|].
    apply (strip_last s (rev t) c).
    rewrite <- (rev_involutive (Text.strip s)), E. reflexivity.
Qed.

Lemma strip_strip (s : list N) : Text.strip (Text.strip s) = Text.strip s.
Proof. apply strip_of_trimmed, strip_is_trimmed. Qed.

Lemma upper_char_cases (c : N) :
  (Text.upper_char c = [c - 32]
   /\ ((97 <= c /\ c <= 122) \/ (224 <= c /\ c <= 254 /\ c <> 247)))
  \/ (c = 223 /\ Text.upper_char c = [83; 83])
  \/ (c = 255 /\ Text.upper_char c = [376])
  \/ (c = 181 /\ Text.upper_char c = [924])
  \/ (Text.upper_char c = [c]
      /\ ~ ((97 <= c /\ c <= 122) \/ (224 <= c /\ c <= 254 /\ c <> 247))
      /\ c <> 223 /\ c <> 255 /\ c <> 181).
Proof.
  unfold Text.upper_char. n_cases;
    first [ left; split; [reflexivity|lia]
          | right; left; split; [assumption|reflexivity]
          | right; right; left; split; [assumption|reflexivity]
          | right; right; right; left; split; [assumption|reflexivity]
          | right; right; right; right; split; [reflexivity|lia] ].
Qed.

Lemma isspace_below_capitals (c : N) :
  (97 <= c /\ c <= 122) \/ (224 <= c /\ c <= 254 /\ c <> 247) ->
  Text.isspace c = false /\ Text.isspace (c - 32) = false.
Proof.
  intros H. unfold Text.isspace. split; n_cases; try reflexivity; lia.
Qed.

(** A character that is no blank has an upper case without blanks; a
    blank is left as it is. *)
Lemma upper_char_blanks (c : N) :
  (Text.isspace c = false ->
   Text.upper_char c <> [] /\ Forall (fun z => Text.isspace z = false) (Text.upper_char c))
  /\ (Text.isspace c = true -> Text.upper_char c = [c]).
Proof.
  destruct (upper_char_cases c)
    as [[E H]|[[-> E]|[[-> E]|[[-> E]|(E & H & H1 & H2 & H3)]]]]; rewrite E.
  - destruct (isspace_below_capitals c H) as [Hc Hc']. split.
    + intros _. split; [discriminate|]. repeat constructor. exact Hc'.
    + congruence.
  - split; [intros _; split; [discriminate|repeat constructor]|discriminate].
  - split; [intros _; split; [discriminate|repeat constructor]|discriminate].
  - split; [intros _; split; [discriminate|repeat constructor]|discriminate].
  - split; [|reflexivity]. intros Hc. split; [discriminate|]. repeat constructor. exact Hc.
Qed.

Lemma upper_char_rev (c : N) : rev (Text.upper_char c) = Text.upper_char c.
Proof.
  destruct (upper_char_cases c)
    as [[E _]|[[_ E]|[[_ E]|[[_ E]|(E & _)]]]]; rewrite E; reflexivity.
Qed.

Lemma upper_rev (s : list N) : Text.upper (rev s) = rev (Text.upper s).
Proof.
  induction s as [|c s IH]; [reflexivity|].
  simpl rev. rewrite upper_app, IH.
  change (c :: s) with ([c] ++ s). rewrite (upper_app [c] s), rev_app_distr.
  f_equal. unfold Text.upper. simpl. rewrite !app_nil_r. symmetry. apply upper_char_rev.
Qed.

Lemma upper_head (c : N) (s : list N) :
  Text.isspace c = false ->
  exists z t, Text.upper (c :: s) = z :: t /\ Text.isspace z = false.
Proof.
  intros Hc. destruct (upper_char_blanks c) as [H _].
  destruct (H Hc) as [Hne Hall].
  change (c :: s) with ([c] ++ s). rewrite upper_app.
  unfold Text.upper at 1. simpl. rewrite app_nil_r.
  destruct (Text.upper_char c) as [|z t]; [congruence|].
  exists z, (t ++ Text.upper s). split; [reflexivity|].
  inversion Hall; assumption.
Qed.

Lemma upper_trimmed (t : list N) : trimmed t -> trimmed (Text.upper t).
Proof.
  intros [Hh Hl]. split.
  - destruct t as [|c t]; [exact I|].
    destruct (upper_head c t Hh) as (z & t' & -> & Hz). exact Hz.
  - rewrite <- upper_rev. destruct (rev t) as [|c t']; [exact I|].
    destruct (upper_head c t' Hl) as (z & t'' & -> & Hz). exact Hz.
Qed.

Lemma replace_space_head (c : N) (s : list N) :
  Text.isspace c = false ->
  Text.replace_char 32 [] (c :: s) = c :: Text.replace_char 32 [] s.
Proof.
  intros Hc. change (c :: s) with ([c] ++ s). rewrite replace_char_app.
  unfold Text.replace_char at 1. simpl.
  destruct (c =? 32) eqn:E; [|reflexivity].
  apply N.eqb_eq in E. subst c. discriminate Hc.
Qed.

Lemma replace_space_trimmed (t : list N) :
  trimmed t -> trimmed (Text.replace_char 32 [] t).
Proof.
  intros [Hh Hl]. split.
  - destruct t as [|c t]; [exact I|]. rewrite replace_space_head by exact Hh. exact Hh.
  - rewrite <- replace_char_rev. destruct (rev t) as [|c t']; [exact I|].
    rewrite replace_space_head by exact Hl. exact Hl.
Qed.

Lemma replace_space_free (s : list N) :
  Forall (fun c => c <> 32) (Text.replace_char 32 [] s).
Proof.
  induction s as [|c s IH]; [constructor|].
  change (c :: s) with ([c] ++ s). rewrite replace_char_app. apply Forall_app. split; [|exact IH].
  unfold Text.replace_char. simpl. destruct (N.eqb_spec c 32); simpl; repeat constructor.
  assumption.
Qed.

Lemma replace_space_none (s : list N) :
  Forall (fun c => c <> 32) s -> Text.replace_char 32 [] s = s.
Proof.
  induction 1 as [|c s Hc _ IH]; [reflexivity|].
  change (c :: s) with ([c] ++ s). rewrite replace_char_app, IH. f_equal.
  unfold Text.replace_char. simpl. apply N.eqb_neq in Hc. rewrite Hc. reflexivity.
Qed.

Lemma upper_space_free (s : list N) :
  Forall (fun c => c <> 32) s -> Forall (fun c => c <> 32) (Text.upper s).
Proof.
  induction 1 as [|c s Hc _ IH]; [constructor|].
  change (c :: s) with ([c] ++ s). rewrite upper_app. apply Forall_app. split; [|exact IH].
  unfold Text.upper. simpl. rewrite app_nil_r.
  destruct (upper_char_cases c)
    as [[E H]|[[_ E]|[[_ E]|[[_ E]|(E & _)]]]]; rewrite E; repeat constructor;
    try discriminate; try assumption. lia.
Qed.

Lemma upper_upper (s : list N) : Text.upper (Text.upper s) = Text.upper s.
Proof.
  induction s as [|c s IH]; [reflexivity|].
  change (c :: s) with ([c] ++ s). rewrite !upper_app, IH. f_equal.
  unfold Text.upper at 2 3. simpl. rewrite app_nil_r.
  destruct (upper_char_cases c)
    as [[E H]|[[_ E]|[[_ E]|[[_ E]|(E & H & H1 & H2 & H3)]]]]; rewrite E;
    try reflexivity.
  - unfold Text.upper. simpl. rewrite app_nil_r.
    destruct (upper_char_cases (c - 32))
      as [[_ H']|[[H' _]|[[H' _]|[[H' _]|(E' & _)]]]]; try lia. exact E'.
  - unfold Text.upper. simpl. rewrite app_nil_r. exact E.
Qed.

(** The normal form of an IBAN is its own normal form. *)
Lemma normalize_normal (raw : list N) :
  Iban.normalize (Iban.normalize raw) = Iban.normalize raw.
Proof.
  unfold Iban.normalize.
  set (u := Text.replace_char 32 [] (Text.strip raw)).
  assert (Ht : trimmed (Text.upper u))
    by (apply upper_trimmed, replace_space_trimmed, strip_is_trimmed).
  rewrite (strip_of_trimmed _ Ht).
  rewrite replace_space_none by (apply upper_space_free, replace_space_free).
  apply upper_upper.
Qed.

(** ** Reading the roster *)

Lemma row_label_nonempty (row_num : Z) (name rest : list N) :
  Csv.row_label row_num name ++ rest <> [].
Proof. unfold Csv.row_label. simpl. discriminate. Qed.

(** One record gives one employee that has been checked, or one error. *)
Lemma parse_row_cases (prepare : list N -> Csv.dir_outcome)
    (fieldnames : list (list N)) (name_col iban_col dir_col : list N)
    (row_num : Z) (record : list (list N)) (result result' : Payroll.ParseResult) :
  Csv.parse_row prepare fieldnames name_col iban_col dir_col row_num record result
  = Some result' ->
  (exists e, checked_employee prepare e
             /\ Payroll.employees result' = Payroll.employees result ++ [e]
             /\ Payroll.errors result' = Payroll.errors result)
  \/ (exists error, error <> []
                    /\ Payroll.employees result' = Payroll.employees result
                    /\ Payroll.errors result' = Payroll.errors result ++ [error]).
Proof.
  unfold Csv.parse_row.
  set (row := Csv.dict_row fieldnames record).
  pose proof (strip_is_trimmed (Csv.get_or_empty row name_col)) as Hname.
  pose proof (strip_is_trimmed (Csv.get_or_empty row dir_col)) as Hdir.
  fold (Iban.normalize (Csv.get_or_empty row iban_col)).
  set (name := Text.strip (Csv.get_or_empty row name_col)) in *.
  set (raw_dir := Text.strip (Csv.get_or_empty row dir_col)) in *.
  set (raw_iban := Iban.normalize (Csv.get_or_empty row iban_col)).
  destruct name as [|n0 name'] eqn:En.
  { intros H. inversion H; subst result'. right. simpl. eexists.
    split; [|split; reflexivity]. discriminate. }
  rewrite <- En in *.
  destruct (validate_iban_cases raw_iban) as [[Hreg E]|[Hno (error & Herr & E)]];
    rewrite E; simpl negb; cbv iota.
  2:{ intros H. inversion H; subst result'. right. simpl. eexists.
      split; [|split; reflexivity]. apply row_label_nonempty. }
  unfold raw_iban in Hreg. rewrite normalize_normal in Hreg. fold raw_iban in Hreg.
  destruct raw_dir as [|d0 dir'] eqn:Ed.
  { intros H. inversion H; subst result'. right. simpl. eexists.
    split; [|split; reflexivity]. apply row_label_nonempty. }
  rewrite <- Ed in *.
  destruct (prepare raw_dir) as [target_dir|exc|] eqn:Hp; [| |discriminate].
  - intros H. inversion H; subst result'. left. simpl. eexists.
    split; [|split; reflexivity].
    unfold checked_employee. simpl.
    split; [rewrite En; discriminate|].
    split; [apply strip_of_trimmed; exact Hname|].
    split; [apply normalize_normal|].
    split; [exact Hreg|].
    split; [unfold raw_iban at 1; rewrite normalize_normal; reflexivity|].
    split; [exists raw_dir; split; [rewrite Ed; discriminate|exact Hp]|].
    repeat split.
  - intros H. inversion H; subst result'. right. simpl. eexists.
    split; [|split; reflexivity]. apply row_label_nonempty.
Qed.

(** The loop gives one employee or one error for every record read, in
    the order of the records. *)
Lemma parse_rows_cases (prepare : list N -> Csv.dir_outcome)
    (fieldnames : list (list N)) (name_col iban_col dir_col : list N)
    (records : list (list (list N))) :
  forall (row_num : Z) (result result' : Payroll.ParseResult),
    Csv.parse_rows prepare fieldnames name_col iban_col dir_col row_num records result
    = Some result' ->
    exists employees errors,
      Payroll.employees result' = Payroll.employees result ++ employees
      /\ Payroll.errors result' = Payroll.errors result ++ errors
      /\ Forall (checked_employee prepare) employees
      /\ Forall (fun error => error <> []) errors
      /\ (List.length employees + List.length errors
          = List.length (records_read records))%nat.
Proof.
  induction records as [|record records IH]; intros row_num result result' H.
  - simpl in H. inversion H; subst result'. exists [], [].
    rewrite !app_nil_r. repeat split; constructor.
  - destruct record as [|cell cells].
    + simpl in H. exact (IH _ _ _ H).
    + cbn [Csv.parse_rows] in H.
      destruct (Csv.parse_row prepare fieldnames name_col iban_col dir_col row_num
                  (cell :: cells) result) as [result1|] eqn:Hrow; [|discriminate].
      destruct (IH _ _ _ H) as (emps & errs & E1 & E2 & Hc & Hne & Hlen).
      destruct (parse_row_cases _ _ _ _ _ _ _ _ _ Hrow)
        as [(e & He & F1 & F2)|(error & Herr & F1 & F2)].
      * exists (e :: emps), errs. rewrite E1, E2, F1, F2, <- app_assoc.
        repeat split; try assumption; [constructor; assumption|]. simpl. lia.
      * exists emps, (error :: errs). rewrite E1, E2, F1, F2, <- app_assoc.
        repeat split; try assumption; [constructor; assumption|]. simpl. lia.
Qed.

(** What [parse_csv] returns: either a single error and no employee, or
    the yield of the loop over the records of a table whose header has
    the three columns. *)
Lemma parse_csv_cases (path : list N) (src : Csv.source)
    (prepare : list N -> Csv.dir_outcome) (r : Payroll.ParseResult) :
  Csv.parse_csv path src prepare = Some r ->
  (exists error, error <> [] /\ r = Payroll.MkParseResult [] [error]
                 /\ forall fieldnames records fails,
                      src = Csv.Table (fieldnames :: records) fails ->
                      has_required_columns fieldnames -> records_read records = [])
  \/ (exists fieldnames records,
        src = Csv.Table (fieldnames :: records) false
        /\ has_required_columns fieldnames
        /\ Forall (checked_employee prepare) (Payroll.employees r)
        /\ Forall (fun error => error <> []) (Payroll.errors r)
        /\ (0 < List.length (records_read records))%nat
        /\ (List.length (Payroll.employees r) + List.length (Payroll.errors r)
            = List.length (records_read records))%nat).
Proof.
  unfold Csv.parse_csv.
  assert (Honly : forall error : list N,
            error <> [] ->
            (forall fieldnames records fails,
               src = Csv.Table (fieldnames :: records) fails ->
               has_required_columns fieldnames -> records_read records = []) ->
            Some (Payroll.MkParseResult [] [error]) = Some r ->
            (exists error, error <> [] /\ r = Payroll.MkParseResult [] [error]
                           /\ forall fieldnames records fails,
                                src = Csv.Table (fieldnames :: records) fails ->
                                has_required_columns fieldnames -> records_read records = [])
            \/ (exists fieldnames records,
                  src = Csv.Table (fieldnames :: records) false
                  /\ has_required_columns fieldnames
                  /\ Forall (checked_employee prepare) (Payroll.employees r)
                  /\ Forall (fun error => error <> []) (Payroll.errors r)
                  /\ (0 < List.length (records_read records))%nat
                  /\ (List.length (Payroll.employees r) + List.length (Payroll.errors r)
                      = List.length (records_read records))%nat)).
  { intros error Herr Hsrc H. inversion H; subst r. left. exists error. auto. }
  destruct src as [| | |rows fails].
  - apply Honly; [discriminate|]. intros; discriminate.
  - discriminate.
  - apply Honly; [discriminate|]. intros; discriminate.
  - destruct rows as [|fieldnames records].
    { destruct fails; [discriminate|]. apply Honly; [discriminate|]. intros; discriminate. }
    set (lowered := Csv.fieldnames_lower fieldnames).
    destruct (List.filter _ Csv.REQUIRED_COLUMNS) as [|m missing] eqn:Hmiss.
    2:{ apply Honly; [discriminate|].
        intros f rs fl E Hreq. inversion E; subst f rs fl. exfalso.
        assert (Hin : In m (List.filter
                              (fun col => match lowered !! col with
                                          | Some _ => false
                                          | None => true
                                          end) Csv.REQUIRED_COLUMNS))
          by (rewrite Hmiss; left; reflexivity).
        apply filter_In in Hin as [Hin Hnone].
        unfold has_required_columns in Hreq. rewrite Forall_forall in Hreq.
        apply list_elem_of_In in Hin. destruct (Hreq _ Hin) as [x Hx].
        fold lowered in Hx. rewrite Hx in Hnone. discriminate Hnone. }
    assert (Hreq : has_required_columns fieldnames).
    { unfold has_required_columns. apply Forall_forall. intros col Hcol.
      apply list_elem_of_In in Hcol.
      destruct (lowered !! col) as [x|] eqn:Hx; [exists x; exact Hx|]. exfalso.
      assert (Hin : In col (List.filter
                              (fun col => match lowered !! col with
                                          | Some _ => false
                                          | None => true
                                          end) Csv.REQUIRED_COLUMNS))
        by (apply filter_In; split; [exact Hcol|rewrite Hx; reflexivity]).
      rewrite Hmiss in Hin. destruct Hin. }
    destruct (lowered !! Text.of_string "name") as [name_col|]; [|discriminate].
    destruct (lowered !! Text.of_string "iban") as [iban_col|]; [|discriminate].
    destruct (lowered !! Text.of_string "zielordner") as [dir_col|]; [|discriminate].
    destruct (Csv.parse_rows prepare fieldnames name_col iban_col dir_col 2 records
                (Payroll.MkParseResult [] [])) as [result|] eqn:Hrows; [|discriminate].
    destruct fails; [discriminate|].
    destruct (parse_rows_cases _ _ _ _ _ _ _ _ _ Hrows)
      as (emps & errs & E1 & E2 & Hc & Hne & Hlen).
    simpl in E1, E2. rewrite E1, E2.
    destruct emps as [|e emps]; [destruct errs as [|error errs]|].
    + apply Honly; [discriminate|].
      intros f rs fl E _. inversion E; subst f rs fl.
      simpl in Hlen. destruct (records_read records); [reflexivity|discriminate].
    + intros H. inversion H; subst r. right. exists fieldnames, records.
      rewrite E1, E2. repeat split; try assumption. rewrite <- Hlen. simpl. lia.
    + intros H. inversion H; subst r. right. exists fieldnames, records.
      rewrite E1, E2. repeat split; try assumption. rewrite <- Hlen. simpl. lia.
Qed.



(** X7: every record is accounted for.  For a table whose header has the
    three required columns, every non-empty record after the header
    gives exactly one employee or exactly one error message, and a table
    without such a record gives the one message that there are no valid
    entries; no message is empty. *)
Theorem parse_csv_accounts_for_every_record (path : list N)
    (fieldnames : list (list N)) (records : list (list (list N)))
    (prepare : list N -> Csv.dir_outcome) (r : Payroll.ParseResult) :
  has_required_columns fieldnames ->
  Csv.parse_csv path (Csv.Table (fieldnames :: records) false) prepare = Some r ->
  (List.length (Payroll.employees r) + List.length (Payroll.errors r)
   = Nat.max 1 (List.length (records_read records)))%nat
  /\ Forall (fun error => error <> []) (Payroll.errors r).
Proof.
  intros Hreq H.
  destruct (parse_csv_cases _ _ _ _ H)
    as [(error & Herr & -> & Hnone)
       |(fieldnames' & records' & E & _ & _ & Hne & Hpos & Hlen)].
  - rewrite (Hnone fieldnames records false eq_refl Hreq). simpl.
    split; [reflexivity|]. repeat constructor. exact Herr.
  - inversion E; subst fieldnames' records'. split; [lia|exact Hne].
Qed.

Lemma parse_csv_accounts_for_every_record_witness :
  (List.length (Payroll.employees RosterFile.parsed)
   + List.length (Payroll.errors RosterFile.parsed)
   = Nat.max 1 (List.length
                  (records_read [RosterFile.richter_record; [];
                                 RosterFile.nameless_record;
                                 RosterFile.mistyped_record])))%nat
  /\ Forall (fun error => error <> []) (Payroll.errors RosterFile.parsed).
Proof.
  apply (parse_csv_accounts_for_every_record RosterFile.path RosterFile.header
           [RosterFile.richter_record; []; RosterFile.nameless_record;
            RosterFile.mistyped_record] RosterFile.ready).
  - unfold has_required_columns. repeat constructor; vm_compute; eauto.
  - vm_compute. reflexivity.
Defined.

Lemma reported_is_a_log (w : world) (line : level * message) :
  fst (reported w line) <> inr Payroll.NoValidEmployees.
Proof. unfold reported. simpl. discriminate. Qed.

(** X8: [parse_csv] never returns empty-handed: a result without errors
    has at least one employee.  So [payroll_process] never gives the
    answer that the CSV holds no valid employees for a roster that
    [parse_csv] returned: that check of the tool is never taken. *)
Theorem parsed_roster_is_never_empty_handed (path : list N) (src : Csv.source)
    (prepare : list N -> Csv.dir_outcome) (r : Payroll.ParseResult)
    (env : Qonto.environ) (writable : list N -> bool) (pdf : option (list (list N)))
    (period : list N) (skip_transfers : bool) (w : world) :
  Csv.parse_csv path src prepare = Some r ->
  (Payroll.errors r = [] -> Payroll.employees r <> [])
  /\ fst (Payroll.payroll_process env writable pdf r period skip_transfers w)
     <> inr Payroll.NoValidEmployees.
Proof.
  intros H.
  assert (Hsome : Payroll.errors r = [] -> Payroll.employees r <> []).
  { destruct (parse_csv_cases _ _ _ _ H)
      as [(error & _ & -> & _)|(fieldnames & records & _ & _ & _ & _ & Hpos & Hlen)].
    - discriminate.
    - intros E1 E2. rewrite E1, E2 in Hlen. simpl in Hlen. lia. }
  split; [exact Hsome|].
  rewrite payroll_process_unfold.
  destruct (Payroll.errors r) as [|error errors]; [|simpl; discriminate].
  destruct (Payroll.employees r) as [|emp emps]; [exfalso; apply Hsome; reflexivity|].
  cbv beta iota zeta.
  destruct (Pdf.process_pdf writable pdf (emp :: emps) period []
              (roster_loaded w (List.length (emp :: emps)))) as [[e|[emps' res]] w3];
    [simpl; discriminate|].
  destruct skip_transfers; [apply reported_is_a_log|].
  destruct (Qonto.new_client env (pages_logged w3 res)) as [[e|client] w5].
  - destruct e; simpl; discriminate.
  - destruct (Payroll.process_employees client period emps' ([], []) w5)
      as [[e|[transfer_ok transfer_fail]] w6]; [simpl; discriminate|].
    apply reported_is_a_log.
Qed.

Lemma parsed_roster_is_never_empty_handed_witness :
  (Payroll.errors RosterFile.parsed = [] -> Payroll.employees RosterFile.parsed <> [])
  /\ fst (Payroll.payroll_process Sample.env Sample.always_writable (Some [Sample.page])
            RosterFile.parsed Sample.period true (Sample.start []))
     <> inr Payroll.NoValidEmployees.
Proof.
  apply (parsed_roster_is_never_empty_handed RosterFile.path RosterFile.table
           RosterFile.ready).
  vm_compute. reflexivity.
Defined.

(** ** The document stage returns *)










(** ** The run returns *)



(** The transfer loop returns its two lists, or an amount did not fit
    into the INTEGER column of the ledger. *)
Lemma process_employees_ends (client : Qonto.QontoClient) (period : list N) :
  forall (emps : list Pdf.Employee) (ok fail : list (list N)) (w : world),
    (exists ok' fail',
        fst (Payroll.process_employees client period emps (ok, fail) w) = inr (ok', fail')
        /\ (List.length ok' + List.length fail'
            = List.length ok + List.length fail + List.length emps)%nat)
    \/ (fst (Payroll.process_employees client period emps (ok, fail) w) = inl OverflowError
        /\ Exists (fun e => Ledger.fits_integer (Pdf.amount_cents e) = false) emps).
Proof.
  induction emps as [|e emps IH]; intros ok fail w.
  - left. exists ok, fail. simpl. split; [reflexivity|lia].
  - rewrite process_employees_cons.
    assert (Hgo : forall ok1 fail1 w1,
              (List.length ok1 + List.length fail1
               = List.length ok + List.length fail + 1)%nat ->
              (exists ok' fail',
                  fst (Payroll.process_employees client period emps (ok1, fail1) w1)
                  = inr (ok', fail')
                  /\ (List.length ok' + List.length fail'
                      = List.length ok + List.length fail + List.length (e :: emps))%nat)
              \/ (fst (Payroll.process_employees client period emps (ok1, fail1) w1)
                  = inl OverflowError
                  /\ Exists (fun e => Ledger.fits_integer (Pdf.amount_cents e) = false)
                       (e :: emps))).
    { intros ok1 fail1 w1 Hlen.
      destruct (IH ok1 fail1 w1) as [(ok' & fail' & E & Hl)|[E Hex]].
      - left. exists ok', fail'. split; [exact E|]. simpl. lia.
      - right. split; [exact E|]. apply Exists_cons_tl. exact Hex. }
    destruct (process_employee_cases client period e ok fail w)
      as [[_ ->]|[(_ & _ & ->)|[(_ & _ & Hfit & ->)|(_ & _ & d1 & res & w2 & _ & _ & ->)]]].
    + apply Hgo. rewrite length_app. simpl. lia.
    + apply Hgo. rewrite length_app. simpl. lia.
    + right. split; [reflexivity|]. apply Exists_cons_hd. exact Hfit.
    + destruct (Qonto.success res); apply Hgo; rewrite length_app; simpl; lia.
Qed.



(** X11: the summary counts every employee once.  When the report of a
    run ends with the summary line, the transfers counted as ok and the
    transfers counted as failed are together as many as the roster has
    employees, the failed names listed are as many as the failed count,
    and the summary is for the period of the run. *)
Theorem summary_counts_every_employee (env : Qonto.environ)
    (writable : list N -> bool) (pdf : option (list (list N)))
    (csv_result : Payroll.ParseResult) (period : list N) (skip_transfers : bool)
    (w : world) (lines : list (level * message)) (l : level) (summary_period : list N)
    (saved ok failed : nat) (failed_names : list (list N)) :
  fst (Payroll.payroll_process env writable pdf csv_result period skip_transfers w)
  = inr (Payroll.Logs (lines ++ [(l, Summary summary_period saved ok failed failed_names)])) ->
  (ok + failed = List.length (Payroll.employees csv_result))%nat
  /\ failed = List.length failed_names
  /\ summary_period = period.
Proof.
  rewrite payroll_process_unfold.
  destruct (Payroll.errors csv_result) as [|error errors]; [|discriminate].
  destruct (Payroll.employees csv_result) as [|emp emps]; [discriminate|].
  cbv beta iota zeta.
  destruct (Pdf.process_pdf writable pdf (emp :: emps) period []
              (roster_loaded w (List.length (emp :: emps)))) as [[e|[emps' res]] w3] eqn:Hpdf;
    [discriminate|].
  pose proof (process_pdf_names _ _ _ _ _ _ _ _ Hpdf) as Hn. simpl fst in Hn.
  apply (f_equal (@List.length (list N))) in Hn. rewrite !length_fmap in Hn.
  assert (Hlast : forall w0 line,
            fst (reported w0 line)
            = inr (Payroll.Logs
                     (lines ++ [(l, Summary summary_period saved ok failed failed_names)])) ->
            line = (l, Summary summary_period saved ok failed failed_names)).
  { intros w0 line H. unfold reported in H. simpl in H. inversion H as [H'].
    apply app_inj_tail in H' as [_ H']. exact H'. }
  destruct skip_transfers.
  { intros H. apply Hlast in H. discriminate H. }
  destruct (Qonto.new_client env (pages_logged w3 res)) as [[e|client] w5].
  { destruct e; try discriminate. intros H. apply Hlast in H. discriminate H. }
  destruct (process_employees_ends client period emps' [] [] w5)
    as [(ok' & fail' & E & Hl)|[E _]];
    destruct (Payroll.process_employees client period emps' ([], []) w5)
      as [[ex|[transfer_ok transfer_fail]] w6]; simpl in E; try discriminate E;
    [|discriminate].
  inversion E; subst ok' fail'. intros H. apply Hlast in H. inversion H; subst.
  simpl in Hl. split; [lia|]. split; reflexivity.
Qed.

Lemma summary_counts_every_employee_witness :
  (1 + 0 = List.length (Payroll.employees Sample.roster))%nat
  /\ 0%nat = List.length ([] : list (list N))
  /\ Sample.period = Sample.period.
Proof.
  apply (summary_counts_every_employee Sample.env Sample.always_writable
           (Some [Sample.page]) Sample.roster Sample.period false
           (Sample.start [Sample.organization; Sample.verified; Sample.created])
           [(INFO, CsvLoaded 1); (INFO, PdfProcessing);
            (INFO, PdfSaved (Sample.T "/payroll/richter/202602_MRI.pdf"));
            (INFO, Transferring (Sample.T "Michael Richter") (Sample.T "DE89****3000") 763363);
            (INFO, TransferOk (Sample.T "Michael Richter") (Some (Sample.T "tr-1")))]
           INFO Sample.period 1 1 0 []).
  vm_compute. reflexivity.
Defined.

(** X12: a run with [skip_transfers] stays offline.  Whatever the
    document and the roster are, the run sends no request, waits for
    nothing and leaves the ledger alone: clock, bank and ledger are as
    before, and the only events of the run are pages written. *)
Theorem run_without_transfers_stays_offline (env : Qonto.environ)
    (writable : list N -> bool) (pdf : option (list (list N)))
    (csv_result : Payroll.ParseResult) (period : list N) (w : world) :
  offline_step w
    (snd (Payroll.payroll_process env writable pdf csv_result period true w)).
Proof.
  rewrite payroll_process_unfold.
  assert (Hidle : forall lines,
            offline_step w (World (clock w) (bank w) (db w) (trace w) lines)).
  { intros lines. repeat (split; [reflexivity|]). exists [].
    split; [reflexivity|constructor]. }
  destruct (Payroll.errors csv_result) as [|error errors]; [|apply Hidle].
  destruct (Payroll.employees csv_result) as [|emp emps]; [apply Hidle|].
  cbv beta iota zeta.
  pose proof (steps_process_pdf writable pdf (emp :: emps) period []
                (roster_loaded w (List.length (emp :: emps)))) as Hstep.
  destruct (Pdf.process_pdf writable pdf (emp :: emps) period []
              (roster_loaded w (List.length (emp :: emps)))) as [[e|[emps' res]] w3];
    simpl snd in *; destruct Hstep as (Hc & Hb & Hd & _ & Hnew); simpl in Hc, Hb, Hd, Hnew;
    repeat (split; [assumption|]); exact Hnew.
Qed.

(** ** The rows of the ledger during a run *)

Lemma same_payment_refl (r : Ledger.row) : same_payment r r.
Proof. repeat split. Qed.

Lemma same_payment_trans (r1 r2 r3 : Ledger.row) :
  same_payment r1 r2 -> same_payment r2 r3 -> same_payment r1 r3.
Proof.
  intros (A1 & A2 & A3 & A4) (B1 & B2 & B3 & B4). repeat split; congruence.
Qed.

#[global] Instance ledger_step_refl : Reflexive ledger_step.
Proof.
  intros w. split; [|split; auto].
  intros k r Hr. exists r. split; [exact Hr|apply same_payment_refl].
Qed.

#[global] Instance ledger_step_trans : Transitive ledger_step.
Proof.
  intros w1 w2 w3 (A1 & A2 & A3) (B1 & B2 & B3). split; [|split].
  - intros k r Hr. destruct (A1 k r Hr) as (r2 & Hr2 & S12).
    destruct (B1 k r2 Hr2) as (r3 & Hr3 & S23). exists r3.
    split; [exact Hr3|]. eapply same_payment_trans; eassumption.
  - intros k r' Hr' Hp. apply A2; [|exact Hp]. exact (B2 k r' Hr' Hp).
  - auto.
Qed.

Lemma ledger_step_same_db (w w' : world) : db w' = db w -> ledger_step w w'.
Proof.
  intros E. split; [|split].
  - intros k r Hr. exists r. rewrite E. split; [exact Hr|apply same_payment_refl].
  - intros k r' Hr' _. rewrite <- E. exact Hr'.
  - rewrite E. auto.
Qed.

(** The row that [record_pending] leaves under its key. *)
Lemma record_pending_row (now : N) (key name period : list N) (amount : Z)
    (d d' : gmap (list N) Ledger.row) :
  Ledger.record_pending now key name period amount d = inr d' ->
  exists r1,
    d' !! key = Some r1
    /\ match d !! key with
       | Some r => same_payment r r1
       | None =>
           Ledger.employee_name r1 = name /\ Ledger.period r1 = period
           /\ Ledger.amount_cents r1 = amount
       end.
Proof.
  unfold Ledger.record_pending.
  destruct (Ledger.fits_integer amount); [|discriminate].
  destruct (d !! key) as [r|]; intros H; inversion H; subst d';
    rewrite lookup_insert_eq; eexists; (split; [reflexivity|]); repeat split.
Qed.

(** The row that recording the outcome leaves under its key. *)
Lemma settled_row (w : world) (key name : list N) (res : Qonto.TransferResult)
    (r1 : Ledger.row) :
  db w !! key = Some r1 ->
  exists r2,
    db (settled w key name res) !! key = Some r2
    /\ same_payment r1 r2 /\ Ledger.status r2 <> Ledger.pending.
Proof.
  intros Hr. unfold settled. destruct (Qonto.success res); simpl.
  - unfold Ledger.record_success. rewrite Hr, lookup_insert_eq.
    eexists. split; [reflexivity|]. split; [repeat split|discriminate].
  - unfold Ledger.record_failure. rewrite Hr, lookup_insert_eq.
    eexists. split; [reflexivity|]. split; [repeat split|discriminate].
Qed.

Lemma steps_ledger_process_employee (client : Qonto.QontoClient) (period : list N)
    (emp : Pdf.Employee) (acc : list (list N) * list (list N)) :
  steps ledger_step (Payroll.process_employee client period emp acc).
Proof.
  destruct acc as [ok fail]. intros w.
  destruct (process_employee_cases client period emp ok fail w)
    as [[_ ->]|[(_ & _ & ->)|[(_ & _ & _ & ->)|(_ & _ & d1 & res & w2 & Hp & Hct & ->)]]];
    simpl snd; try (apply ledger_step_same_db; reflexivity).
  pose proof (steps_create_transfer client (Pdf.name emp) (Pdf.iban emp)
                (Pdf.amount_cents emp) period (key_of period emp)
                (pending_world w (key_of period emp) d1 emp)) as Hstep.
  fold (key_of period emp) in Hct. rewrite Hct in Hstep. simpl snd in Hstep.
  destruct Hstep as [[Hdb _] _]. simpl in Hdb.
  set (key := key_of period emp) in *.
  destruct (record_pending_row _ _ _ _ _ _ _ Hp) as (r1 & Hr1 & Hold).
  rewrite <- Hdb in Hr1.
  destruct (settled_row w2 key (Pdf.name emp) res r1 Hr1) as (r2 & Hr2 & S12 & Hnp).
  assert (Hother : forall k, k <> key ->
            db (settled w2 key (Pdf.name emp) res) !! k = db w !! k).
  { intros k Hne. rewrite settled_other by exact Hne. rewrite Hdb.
    apply (record_pending_other _ _ _ _ _ _ _ _ Hp Hne). }
  split; [|split].
  - intros k r Hr. destruct (decide (k = key)) as [->|Hne].
    + exists r2. split; [exact Hr2|]. rewrite Hr in Hold.
      eapply same_payment_trans; eassumption.
    + exists r. rewrite Hother by exact Hne. split; [exact Hr|apply same_payment_refl].
  - intros k r' Hr' Hpend. destruct (decide (k = key)) as [->|Hne].
    + rewrite Hr2 in Hr'. inversion Hr'; subst r'. contradiction.
    + rewrite Hother in Hr' by exact Hne. exact Hr'.
  - intros Hkeyed k r Hr. destruct (decide (k = key)) as [->|Hne].
    + rewrite Hr2 in Hr. inversion Hr; subst r. destruct S12 as (E1 & E2 & E3 & _).
      rewrite E1, E2, E3.
      destruct (db w !! key) as [r0|] eqn:Hr0.
      * destruct Hold as (F1 & F2 & F3 & _). rewrite F1, F2, F3. exact (Hkeyed key r0 Hr0).
      * destruct Hold as (F1 & F2 & F3). rewrite F1, F2, F3. reflexivity.
    + rewrite Hother in Hr by exact Hne. exact (Hkeyed k r Hr).
Qed.

Lemma steps_ledger_process_employees (client : Qonto.QontoClient) (period : list N) :
  forall (emps : list Pdf.Employee) (acc : list (list N) * list (list N)),
    steps ledger_step (Payroll.process_employees client period emps acc).
Proof.
  induction emps as [|emp emps IH]; intros acc; simpl.
  - apply steps_mret; apply _.
  - apply steps_bind; try apply _; [apply steps_ledger_process_employee|intros acc'; apply IH].
Qed.

Lemma ledger_step_pdf (w w' : world) : pdf_step w w' -> ledger_step w w'.
Proof. intros (_ & _ & Hd & _). apply ledger_step_same_db. exact Hd. Qed.

Lemma ledger_step_log (w w' : world) : log_step w w' -> ledger_step w w'.
Proof. intros (_ & _ & Hd & _). apply ledger_step_same_db. exact Hd. Qed.

Lemma ledger_step_client (w w' : world) : client_step org_event w w' -> ledger_step w w'.
Proof. intros [[Hd _] _]. apply ledger_step_same_db. exact Hd. Qed.

Lemma steps_ledger_log (l : level) (msg : message) : steps ledger_step (_log l msg).
Proof. intros w. apply ledger_step_log. repeat split. Qed.

Lemma steps_ledger_log_each {A} (l : level) (f : A -> message) (xs : list A) :
  steps ledger_step (Payroll.log_each l f xs).
Proof. intros w. apply ledger_step_log. repeat split. Qed.

Lemma steps_ledger_start_logs : steps ledger_step Payroll.start_logs.
Proof. intros w. apply ledger_step_log. repeat split. Qed.

Lemma steps_ledger_get_logs : steps ledger_step Payroll.get_logs.
Proof. intros w. apply ledger_step_log. repeat split. Qed.

(** The whole tool is a [ledger_step]. *)
Lemma steps_ledger_payroll_process (env : Qonto.environ) (writable : list N -> bool)
    (pdf : option (list (list N))) (csv_result : Payroll.ParseResult)
    (period : list N) (skip_transfers : bool) :
  steps ledger_step
    (Payroll.payroll_process env writable pdf csv_result period skip_transfers).
Proof.
  unfold Payroll.payroll_process.
  repeat first
    [ apply steps_ledger_log | apply steps_ledger_log_each | apply steps_ledger_start_logs
    | apply steps_ledger_get_logs
    | apply steps_ledger_process_employees
    | eapply steps_weaken; [exact ledger_step_pdf | apply steps_process_pdf]
    | eapply steps_weaken; [exact ledger_step_client | apply steps_new_client]
    | apply steps_mret; apply _ | apply steps_raise; apply _
    | apply steps_bind; try apply _ | apply steps_try_except; try apply _
    | step_case ].
Qed.

(** X13: a run that returns leaves no transfer pending.  A row that is
    pending when [payroll_process] has returned its report was in the
    ledger before the run, pending and exactly as it is: every row that
    the run itself set to pending has been settled as success or failed
    by the end of the run. *)
Theorem run_leaves_no_transfer_pending (env : Qonto.environ)
    (writable : list N -> bool) (pdf : option (list (list N)))
    (csv_result : Payroll.ParseResult) (period : list N) (skip_transfers : bool)
    (w : world) (k : list N) (r : Ledger.row) :
  (exists report,
      fst (Payroll.payroll_process env writable pdf csv_result period skip_transfers w)
      = inr report) ->
  db (snd (Payroll.payroll_process env writable pdf csv_result period skip_transfers w))
    !! k = Some r ->
  Ledger.status r = Ledger.pending ->
  db w !! k = Some r.
Proof.
  intros _ Hr Hp.
  destruct (steps_ledger_payroll_process env writable pdf csv_result period skip_transfers w)
    as (_ & Hpending & _).
  exact (Hpending k r Hr Hp).
Qed.

Lemma run_leaves_no_transfer_pending_witness :
  db (StaleLedger.start [Sample.organization; Sample.verified; Sample.created])
    !! StaleLedger.key = Some StaleLedger.row.
Proof.
  apply (run_leaves_no_transfer_pending Sample.env Sample.always_writable
           (Some [Sample.page]) Sample.roster Sample.period false
           (StaleLedger.start [Sample.organization; Sample.verified; Sample.created])
           StaleLedger.key StaleLedger.row).
  - eexists. vm_compute. reflexivity.
  - vm_compute. reflexivity.
  - reflexivity.
Defined.

(** X14: a run never drops or rewrites the payment of a ledger row.
    Every row that is in the ledger before [payroll_process] is there
    afterwards under the same key, with the employee name, period,
    amount and creation time it had; and if every row is stored under
    the idempotency key of its own name, period and amount before the
    run, this is so afterwards. *)
Theorem run_keeps_the_rows_of_the_ledger (env : Qonto.environ)
    (writable : list N -> bool) (pdf : option (list (list N)))
    (csv_result : Payroll.ParseResult) (period : list N) (skip_transfers : bool)
    (w : world) :
  (forall k r,
     db w !! k = Some r ->
     exists r',
       db (snd (Payroll.payroll_process env writable pdf csv_result period
                  skip_transfers w)) !! k = Some r'
       /\ same_payment r r')
  /\ (ledger_keyed (db w) ->
      ledger_keyed
        (db (snd (Payroll.payroll_process env writable pdf csv_result period
                    skip_transfers w)))).
Proof.
  destruct (steps_ledger_payroll_process env writable pdf csv_result period skip_transfers w)
    as (Hrows & _ & Hkeyed).
  split; [exact Hrows|exact Hkeyed].
Qed.

(** ** Which page counts for an employee *)

Lemma match_page_names (text : list N) (emps1 emps2 : list Pdf.Employee) :
  Pdf.name <$> emps1 = Pdf.name <$> emps2 ->
  Pdf.match_page text emps1 = Pdf.match_page text emps2.
Proof.
  intros H. unfold Pdf.match_page. rewrite (best_match_names text emps1 emps2 0 0%Q None H).
  reflexivity.
Qed.

(** What one page does to the employee at position [i]: the employee
    that the page is matched to gets its index and its amount, every
    other employee is left as it is. *)
Lemma process_page_roster (writable : list N -> bool) (period : list N)
    (skip_save : list (list N)) (idx : nat) (text : list N)
    (emps emps1 : list Pdf.Employee) (res res1 : Pdf.ProcessingResult) (w w1 : world)
    (i : nat) (e : Pdf.Employee) :
  Pdf.process_page writable period skip_save idx text (emps, res) w
  = (inr (emps1, res1), w1) ->
  emps !! i = Some e ->
  exists e1,
    emps1 !! i = Some e1 /\ same_person e e1
    /\ match Pdf.match_page text emps with
       | inr (Some j) =>
           if Nat.eqb j i
           then Pdf.page_index e1 = Z.of_nat idx
                /\ Pdf.amount_cents e1 = Pdf._extract_amount text
           else e1 = e
       | _ => e1 = e
       end.
Proof.
  unfold Pdf.process_page. rewrite bind_unfold. unfold lift.
  destruct (Pdf.match_page text emps) as [ex|[j|]]; [discriminate| |].
  2:{ rewrite mret_unfold. intros H He. inversion H; subst. exists e.
      split; [exact He|]. split; [repeat split|reflexivity]. }
  cbv beta iota.
  destruct (emps !! j) as [emp|] eqn:Hj.
  2:{ rewrite mret_unfold. intros H He. inversion H; subst. exists e.
      split; [exact He|]. split; [repeat split|].
      destruct (Nat.eqb_spec j i) as [->|_]; [congruence|reflexivity]. }
  set (emp1 := Pdf.set_match idx (Pdf._extract_amount text) emp).
  assert (Hgo : forall x,
            same_person emp x ->
            Pdf.page_index x = Z.of_nat idx ->
            Pdf.amount_cents x = Pdf._extract_amount text ->
            forall emps', emps !! i = Some e ->
              (emps' = <[j:=x]> emps \/ emps' = <[j:=x]> (<[j:=emp1]> emps)) ->
              exists e1,
                emps' !! i = Some e1 /\ same_person e e1
                /\ (if Nat.eqb j i
                    then Pdf.page_index e1 = Z.of_nat idx
                         /\ Pdf.amount_cents e1 = Pdf._extract_amount text
                    else e1 = e)).
  { intros x Hx Hpi Ham emps' He Hemps'.
    assert (E : emps' = <[j:=x]> emps).
    { destruct Hemps' as [->| ->]; [reflexivity|apply list_insert_insert_eq]. }
    subst emps'.
    destruct (Nat.eqb_spec j i) as [->|Hne].
    - exists x. rewrite list_lookup_insert_eq by (eapply lookup_lt_Some; exact He).
      rewrite Hj in He. inversion He; subst e.
      split; [reflexivity|]. split; [exact Hx|]. split; assumption.
    - exists e. rewrite list_lookup_insert_ne by exact Hne.
      split; [exact He|]. split; [repeat split|reflexivity]. }
  assert (Hs1 : same_person emp emp1) by (repeat split).
  assert (Hs2 : same_person emp (Pdf.set_saved emp1)) by (repeat split).
  destruct (bool_decide _).
  { rewrite mret_unfold. intros H He. inversion H; subst.
    apply (Hgo emp1 Hs1 eq_refl eq_refl); [exact He|left; reflexivity]. }
  rewrite bind_unfold. unfold lift.
  destruct (Pdf._make_filename (Pdf.name emp) period) as [ex|file]; [discriminate|].
  cbv beta iota. destruct (writable _).
  - rewrite bind_unfold. unfold emit. cbv beta iota. rewrite mret_unfold.
    intros H He. inversion H; subst.
    apply (Hgo (Pdf.set_saved emp1) Hs2 eq_refl eq_refl); [exact He|right; reflexivity].
  - rewrite mret_unfold. intros H He. inversion H; subst.
    apply (Hgo emp1 Hs1 eq_refl eq_refl); [exact He|left; reflexivity].
Qed.

Lemma same_person_trans (e1 e2 e3 : Pdf.Employee) :
  same_person e1 e2 -> same_person e2 e3 -> same_person e1 e3.
Proof.
  intros (A1 & A2 & A3 & A4) (B1 & B2 & B3 & B4). repeat split; congruence.
Qed.

Lemma process_pages_roster (writable : list N -> bool) (period : list N)
    (skip_save : list (list N)) (roster : list Pdf.Employee) (i : nat) :
  forall (pages : list (list N)) (idx : nat) (emps emps' : list Pdf.Employee)
         (res res' : Pdf.ProcessingResult) (w w' : world) (e : Pdf.Employee),
    Pdf.name <$> emps = Pdf.name <$> roster ->
    Pdf.process_pages writable period skip_save idx pages (emps, res) w
    = (inr (emps', res'), w') ->
    emps !! i = Some e ->
    exists e',
      emps' !! i = Some e' /\ same_person e e'
      /\ match last_page_of roster i idx pages with
         | Some (j, text) =>
             Pdf.page_index e' = Z.of_nat j
             /\ Pdf.amount_cents e' = Pdf._extract_amount text
         | None => e' = e
         end.
Proof.
  induction pages as [|text pages IH]; intros idx emps emps' res res' w w' e Hn Hrun He.
  - simpl in Hrun. rewrite mret_unfold in Hrun. inversion Hrun; subst.
    exists e. split; [exact He|]. split; [repeat split|reflexivity].
  - rewrite process_pages_cons in Hrun.
    destruct (Pdf.process_page writable period skip_save idx text (emps, res) w)
      as [[ex|[emps1 res1]] w1] eqn:Hpage; [discriminate|].
    pose proof (process_page_names _ _ _ _ _ _ _ _ _ Hpage) as Hn1. simpl in Hn1.
    destruct (process_page_roster _ _ _ _ _ _ _ _ _ _ _ i e Hpage He)
      as (e1 & He1 & S1 & Hm).
    destruct (IH (S idx) emps1 emps' res1 res' w1 w' e1 (eq_trans Hn1 Hn) Hrun He1)
      as (e' & He' & S2 & Hlast).
    exists e'. split; [exact He'|]. split; [eapply same_person_trans; eassumption|].
    cbn [last_page_of].
    destruct (last_page_of roster i (S idx) pages) as [[j t]|]; [exact Hlast|].
    subst e'. rewrite (match_page_names text emps roster Hn) in Hm.
    destruct (Pdf.match_page text roster) as [ex|[j|]]; try exact Hm.
    destruct (Nat.eqb j i); exact Hm.
Qed.

(** X15: the last matching page counts.  When [process_pdf] returns,
    every employee keeps name, IBAN, masked IBAN and target directory;
    an employee that some page is matched to has the index and the
    amount of the last such page of the document, whatever earlier
    pages said; an employee that no page is matched to is unchanged. *)
Theorem last_matching_page_counts (writable : list N -> bool)
    (pages : list (list N)) (roster employees' : list Pdf.Employee)
    (period : list N) (skip_save : list (list N)) (res : Pdf.ProcessingResult)
    (w w' : world) (i : nat) (e : Pdf.Employee) :
  Pdf.process_pdf writable (Some pages) roster period skip_save w
  = (inr (employees', res), w') ->
  roster !! i = Some e ->
  exists e',
    employees' !! i = Some e' /\ same_person e e'
    /\ match last_page_of roster i 0 pages with
       | Some (j, text) =>
           Pdf.page_index e' = Z.of_nat j
           /\ Pdf.amount_cents e' = Pdf._extract_amount text
       | None => e' = e
       end.
Proof.
  unfold Pdf.process_pdf. intros Hrun He.
  exact (process_pages_roster writable period skip_save roster i pages 0 roster employees'
           _ res w w' e eq_refl Hrun He).
Qed.

Lemma last_matching_page_counts_witness :
  exists e',
    [TwoPages.richter_after] !! 0%nat = Some e' /\ same_person Sample.richter e'
    /\ match last_page_of [Sample.richter] 0 0 TwoPages.pages with
       | Some (j, text) =>
           Pdf.page_index e' = Z.of_nat j
           /\ Pdf.amount_cents e' = Pdf._extract_amount text
       | None => e' = Sample.richter
       end.
Proof.
  apply (last_matching_page_counts Sample.always_writable TwoPages.pages [Sample.richter]
           [TwoPages.richter_after] Sample.period [] TwoPages.result (Sample.start [])
           (snd TwoPages.run) 0 Sample.richter).
  - vm_compute. reflexivity.
  - reflexivity.
Defined.

(** ** Doubles: the quotient of two integers *)

Lemma div_rne_unique (num den k : Z) :
  (0 < den)%Z -> (2 * Z.abs (num - k * den) < den)%Z -> Float64.div_rne num den = k.
Proof.
  intros Hden Hnear. unfold Float64.div_rne.
  pose proof (Z.div_mod num den ltac:(lia)) as Hdm.
  pose proof (Z.mod_pos_bound num den Hden) as Hr.
  set (q := (num / den)%Z) in *. set (r := (num mod den)%Z) in *.
  assert (Hq : (q = k \/ q = k - 1)%Z) by nia.
  destruct (2 * r <? den)%Z eqn:E1; [apply Z.ltb_lt in E1|apply Z.ltb_ge in E1].
  - destruct Hq as [Hq|Hq]; [exact Hq|]. nia.
  - destruct (den <? 2 * r)%Z eqn:E2; [apply Z.ltb_lt in E2|apply Z.ltb_ge in E2].
    + destruct Hq as [Hq|Hq]; [|lia]. nia.
    + nia.
Qed.

Lemma div_rne_near (num den : Z) :
  (0 < den)%Z ->
  (2 * Z.abs (Float64.div_rne num den * den - num) <= den)%Z
  /\ (num / den <= Float64.div_rne num den)%Z.
Proof.
  intros Hden. unfold Float64.div_rne.
  pose proof (Z.div_mod num den ltac:(lia)) as Hdm.
  pose proof (Z.mod_pos_bound num den Hden) as Hr.
  set (q := (num / den)%Z) in *. set (r := (num mod den)%Z) in *.
  destruct (2 * r <? den)%Z eqn:E1; [apply Z.ltb_lt in E1|apply Z.ltb_ge in E1].
  - split; [nia|lia].
  - destruct (den <? 2 * r)%Z eqn:E2; [apply Z.ltb_lt in E2|apply Z.ltb_ge in E2].
    + split; [nia|lia].
    + destruct (Z.even q); split; try lia; nia.
Qed.

(** The quotient of [p] by [q] as a double, where the exponent turns
    out negative and in the normal range: the mantissa has 53 bits and
    is the scaled quotient, rounded. *)
Lemma of_ratio_small (p q : Z) :
  (0 < p)%Z -> (0 < q)%Z ->
  (Z.log2 p - Z.log2 q - 52 < 0)%Z ->
  (-1074 <= Z.log2 p - Z.log2 q - 53)%Z ->
  exists m e : Z,
    Float64.of_ratio p q = Float64.Fin m e
    /\ (Z.log2 p - Z.log2 q - 53 <= e < 0)%Z
    /\ (2 ^ 52 <= m)%Z
    /\ (2 * Z.abs (m * q - p * 2 ^ (- e)) <= q)%Z.
Proof.
  intros Hp Hq Hneg Hlow.
  pose proof (Z.log2_spec p Hp) as [Hp1 Hp2].
  pose proof (Z.log2_spec q Hq) as [Hq1 Hq2].
  pose proof (Z.log2_nonneg p) as Hlp. pose proof (Z.log2_nonneg q) as Hlq.
  set (lp := Z.log2 p) in *. set (lq := Z.log2 q) in *.
  set (e1 := (lp - lq - 52)%Z) in *.
  (* the first scaling already has 52 bits *)
  assert (Hfirst : (2 ^ 51 * q <= p * 2 ^ (- e1))%Z).
  { assert (E : (2 ^ lp * 2 ^ (- e1) = 2 ^ 51 * 2 ^ Z.succ lq)%Z).
    { rewrite <- !Z.pow_add_r by lia. f_equal. lia. }
    assert (0 < 2 ^ (- e1))%Z by (apply Z.pow_pos_nonneg; lia).
    nia. }
  assert (Hpos1 : (0 < 2 ^ (- e1))%Z) by (apply Z.pow_pos_nonneg; lia).
  assert (Hdouble : (2 ^ (- (e1 - 1)) = 2 * 2 ^ (- e1))%Z).
  { replace (- (e1 - 1))%Z with (Z.succ (- e1)) by lia.
    rewrite Z.pow_succ_r by lia. reflexivity. }
  unfold Float64.of_ratio.
  destruct (p =? 0)%Z eqn:E0; [apply Z.eqb_eq in E0; lia|].
  fold lp lq e1.
  unfold Float64.scaled at 1.
  destruct (0 <=? e1)%Z eqn:E1; [apply Z.leb_le in E1; lia|].
  set (e2 := if (2 ^ 52 <=? p * 2 ^ (- e1) / q)%Z then e1 else (e1 - 1)%Z).
  assert (He2 : ((e2 = e1 /\ 2 ^ 52 <= p * 2 ^ (- e1) / q)
                 \/ (e2 = e1 - 1 /\ p * 2 ^ (- e1) / q < 2 ^ 52))%Z).
  { unfold e2. destruct (2 ^ 52 <=? p * 2 ^ (- e1) / q)%Z eqn:E;
      [apply Z.leb_le in E; left|apply Z.leb_gt in E; right]; split; auto. }
  clearbody e2.
  assert (Hmax : Z.max e2 (-1074) = e2) by lia.
  rewrite Hmax. unfold Float64.scaled.
  destruct (0 <=? e2)%Z eqn:E2; [apply Z.leb_le in E2; lia|].
  destruct (div_rne_near (p * 2 ^ (- e2)) q Hq) as [Hnear Hfloor].
  assert (Hbig : (2 ^ 52 <= p * 2 ^ (- e2) / q)%Z).
  { destruct He2 as [[-> H]|[-> _]]; [exact H|].
    rewrite Hdouble. apply Z.div_le_lower_bound; [lia|].
    change (2 ^ 52)%Z with (2 * 2 ^ 51)%Z. nia. }
  exists (Float64.div_rne (p * 2 ^ (- e2)) q), e2.
  replace ((971 <? e2)%Z) with false by (symmetry; apply Z.ltb_ge; lia).
  replace ((e2 =? 971)%Z) with false by (symmetry; apply Z.eqb_neq; lia).
  simpl. split; [reflexivity|]. split; [lia|]. split; [lia|exact Hnear].
Qed.

(** The double nearest to a hundredth of [n], for [n] below [2^52],
    rounds back to [n] when it is scaled by a hundred. *)
Lemma hundredth_rounds_back (n : Z) :
  (0 < n < 2 ^ 52)%Z ->
  exists m e : Z,
    Float64.of_ratio n 100 = Float64.Fin m e
    /\ (-59 <= e < 0)%Z /\ (2 ^ 52 <= m)%Z
    /\ (2 * Z.abs (m * 100 - n * 2 ^ (- e)) <= 100)%Z
    /\ (100 < 2 ^ (- e))%Z.
Proof.
  intros [Hn Hlt].
  assert (Hl : (Z.log2 n < 52)%Z) by (apply Z.log2_lt_pow2; lia).
  pose proof (Z.log2_nonneg n) as Hl0.
  assert (H100 : Z.log2 100 = 6%Z) by reflexivity.
  destruct (of_ratio_small n 100) as (m & e & E & He & Hm & Hnear); try lia.
  exists m, e. rewrite H100 in He.
  split; [exact E|]. split; [lia|]. split; [exact Hm|]. split; [exact Hnear|].
  assert (Hs : (0 < 2 ^ (- e))%Z) by (apply Z.pow_pos_nonneg; lia).
  set (s := (2 ^ (- e))%Z) in *.
  destruct (Z_lt_le_dec 100 s) as [H|H]; [exact H|exfalso].
  assert (n * s <= (2 ^ 52 - 1) * 100)%Z by (apply Z.mul_le_mono_nonneg; lia).
  lia.
Qed.

(** X16: the amount text is the exact amount.  For an amount of fewer
    than [2^52] cents, [f"{amount_cents / 100:.2f}"] is the amount in
    euros and cents as decimal arithmetic gives it, although the code
    goes through a double. *)
Theorem amount_text_is_exact (amount_cents : Z) :
  (Z.abs amount_cents < 2 ^ 52)%Z ->
  Money.amount_text amount_cents
  = inr ((if (amount_cents <? 0)%Z then [45] else [])
         ++ Text.str_of_int (Z.abs amount_cents / 100) ++ [46]
         ++ Money.two_digits (Z.abs amount_cents mod 100)).
Proof.
  intros Hlt. unfold Money.amount_text.
  set (n := Z.abs amount_cents) in *.
  destruct (Z.eq_dec n 0%Z) as [E0|Hne].
  - rewrite E0. reflexivity.
  - destruct (hundredth_rounds_back n) as (m & e & E & He & Hm & Hnear & Hs);
      [lia|].
    rewrite E. unfold Money.format_2f.
    destruct (0 <=? e)%Z eqn:Ee; [apply Z.leb_le in Ee; lia|].
    rewrite (div_rne_unique (m * 100) (2 ^ (- e)) n) by lia.
    reflexivity.
Qed.

Lemma amount_text_is_exact_witness :
  Money.amount_text 763363%Z = inr (Sample.T "7633.63").
Proof.
  apply (amount_text_is_exact 763363%Z). vm_compute. reflexivity.
Defined.

(** A hundredth of [n] as a double, times a hundred, rounded: [n]
    again, for [n] below [2^51]. *)
Lemma hundredth_times_hundred (n : Z) :
  (0 <= n < 2 ^ 51)%Z ->
  Float64.round (Float64.mul100 (Float64.of_ratio n 100)) = Some n.
Proof.
  intros [Hn Hlt].
  destruct (Z.eq_dec n 0%Z) as [->|Hne]; [reflexivity|].
  destruct (hundredth_rounds_back n) as (m & e & E & He & Hm & Hnear & Hs);
    [lia|].
  rewrite E. unfold Float64.mul100.
  destruct (0 <=? e)%Z eqn:Ee; [apply Z.leb_le in Ee; lia|].
  assert (Hlogs : Z.log2 (2 ^ (- e)) = (- e)%Z) by (apply Z.log2_pow2; lia).
  assert (Hpow : (2 ^ (52 - e) = 2 ^ 52 * 2 ^ (- e))%Z).
  { rewrite <- Z.pow_add_r by lia. f_equal; lia. }
  set (s := (2 ^ (- e))%Z) in *.
  assert (Hns : (n * s <= (2 ^ 51 - 1) * s)%Z)
    by (apply Z.mul_le_mono_nonneg_r; lia).
  assert (Hs200 : (200 <= s)%Z).
  { destruct (Z_lt_le_dec s 200) as [H|H]; [exfalso|exact H].
    assert (n * s <= (2 ^ 51 - 1) * 199)%Z by (apply Z.mul_le_mono_nonneg; lia).
    lia. }
  assert (Hup : (Z.log2 (m * 100) < 52 - e)%Z).
  { apply Z.log2_lt_pow2; [lia|]. rewrite Hpow. lia. }
  assert (Hdown : (52 <= Z.log2 (m * 100))%Z).
  { apply Z.log2_le_pow2; lia. }
  destruct (of_ratio_small (m * 100) s) as (m2 & e2 & E2 & He2 & Hm2 & Hnear2);
    try lia.
  rewrite E2. unfold Float64.round.
  destruct (0 <=? e2)%Z eqn:Ee2; [apply Z.leb_le in Ee2; lia|].
  f_equal.
  assert (Hs2 : (0 < 2 ^ (- e2))%Z) by (apply Z.pow_pos_nonneg; lia).
  set (s2 := (2 ^ (- e2))%Z) in *.
  set (d1 := (m2 * s - m * 100 * s2)%Z) in *.
  set (d2 := (m * 100 - n * s)%Z) in *.
  set (a := (m2 - n * s2)%Z).
  assert (Ha : (a * s = d1 + s2 * d2)%Z) by (unfold a, d1, d2; ring).
  assert (Hd2 : (Z.abs (s2 * d2) = s2 * Z.abs d2)%Z)
    by (rewrite Z.abs_mul, (Z.abs_eq s2) by lia; reflexivity).
  assert (Has : (2 * (Z.abs a * s) <= s + 100 * s2)%Z).
  { replace (Z.abs a * s)%Z with (Z.abs (a * s))
      by (rewrite Z.abs_mul, (Z.abs_eq s) by lia; reflexivity).
    rewrite Ha. pose proof (Z.abs_triangle d1 (s2 * d2)) as Ht.
    rewrite Hd2 in Ht.
    assert (s2 * (2 * Z.abs d2) <= s2 * 100)%Z
      by (apply Z.mul_le_mono_nonneg_l; lia).
    lia. }
  assert (Hs3 : (3 <= s2)%Z).
  { destruct (Z_lt_le_dec s2 3) as [H|H]; [exfalso|exact H].
    assert (Hm2s : (2 ^ 52 * s <= m2 * s)%Z)
      by (apply Z.mul_le_mono_nonneg_r; lia).
    assert (Hm2a : (m2 = a + n * s2)%Z) by (unfold a; ring).
    assert (Hnss : (n * s2 * s <= (2 ^ 51 - 1) * 2 * s)%Z).
    { apply Z.mul_le_mono_nonneg_r; [lia|].
      apply Z.mul_le_mono_nonneg; lia. }
    assert (Hle : (a * s <= Z.abs a * s)%Z)
      by (apply Z.mul_le_mono_nonneg_r; lia).
    assert (Hexp : (m2 * s = a * s + n * s2 * s)%Z) by (rewrite Hm2a; ring).
    lia. }
  apply div_rne_unique; [exact Hs2|].
  fold a. destruct (Z_lt_le_dec (2 * Z.abs a) s2) as [H|H]; [exact H|exfalso].
  assert (Hprod : (s2 * s <= 2 * Z.abs a * s)%Z)
    by (apply Z.mul_le_mono_nonneg_r; lia).
  assert (Hgap : (200 <= (s2 - 1) * (s - 100))%Z).
  { change 200%Z with (2 * 100)%Z. apply Z.mul_le_mono_nonneg; lia. }
  lia.
Qed.

(** ** German amounts *)

Lemma digit_is_no_mark (c : N) :
  Regex.is_digit c = true -> (c =? 46) = false /\ (c =? 44) = false.
Proof.
  unfold Regex.is_digit. intros H. apply andb_prop in H as [H1 H2].
  apply N.leb_le in H1. split; apply N.eqb_neq; lia.
Qed.

Lemma german_body_normal (body : list N) :
  digits_and_dots body ->
  Text.replace_char 44 [46] (Text.replace_char 46 [] body)
  = List.filter Regex.is_digit body.
Proof.
  induction 1 as [|c body Hc _ IH]; [reflexivity|].
  change (c :: body) with ([c] ++ body).
  rewrite !replace_char_app, IH. simpl List.filter.
  destruct Hc as [Hd| ->].
  - rewrite Hd. destruct (digit_is_no_mark c Hd) as [H46 H44].
    unfold Text.replace_char. simpl. rewrite H46. simpl. rewrite H44. reflexivity.
  - reflexivity.
Qed.

Lemma split_at_dot_digits (ds rest : list N) :
  Forall (fun c => Regex.is_digit c = true) ds ->
  Float64.split_at_dot (ds ++ 46 :: rest) = (ds, Some rest).
Proof.
  induction 1 as [|c ds Hc _ IH]; [reflexivity|].
  simpl. destruct (digit_is_no_mark c Hc) as [H46 _]. rewrite H46, IH. reflexivity.
Qed.

Lemma digits_value_decimal (ds : list N) (acc : Z) :
  Forall (fun c => Regex.is_digit c = true) ds ->
  Float64.digits_value acc ds
  = Some (fold_left (fun acc d => (10 * acc + (Z.of_N d - 48))%Z) ds acc).
Proof.
  intros H. revert acc. induction H as [|c ds Hc _ IH]; intros acc; [reflexivity|].
  simpl. rewrite Hc. apply IH.
Qed.

Lemma decimal_nonneg (ds : list N) (acc : Z) :
  Forall (fun c => Regex.is_digit c = true) ds -> (0 <= acc)%Z ->
  (0 <= fold_left (fun acc d => (10 * acc + (Z.of_N d - 48))%Z) ds acc)%Z.
Proof.
  intros H. revert acc. induction H as [|c ds Hc _ IH]; intros acc Hacc; [exact Hacc|].
  simpl. apply IH. unfold Regex.is_digit in Hc. apply andb_prop in Hc as [H1 _].
  apply N.leb_le in H1. lia.
Qed.

Lemma filter_digits (s : list N) :
  Forall (fun c => Regex.is_digit c = true) (List.filter Regex.is_digit s).
Proof.
  apply Forall_forall. intros c Hc.
  apply list_elem_of_In, List.filter_In in Hc. tauto.
Qed.

(** X17: a German amount is read to the cent.  For an amount written
    with digits, dots as thousands separators, a comma and two decimals,
    [_german_amount_to_cents] returns the number that the digits write,
    as long as it is below [2^51] cents: going through a double loses
    nothing. *)
Theorem german_amount_is_read_to_the_cent (body : list N) (c1 c2 : N) :
  digits_and_dots body ->
  Regex.is_digit c1 = true -> Regex.is_digit c2 = true ->
  (decimal (List.filter Regex.is_digit body ++ [c1; c2]) < 2 ^ 51)%Z ->
  Pdf._german_amount_to_cents (body ++ [44; c1; c2])
  = inr (decimal (List.filter Regex.is_digit body ++ [c1; c2])).
Proof.
  intros Hbody H1 H2 Hlt.
  pose proof (filter_digits body) as Hds.
  set (ds := List.filter Regex.is_digit body) in *.
  assert (Hall : Forall (fun c => Regex.is_digit c = true) (ds ++ [c1; c2])).
  { apply Forall_app. split; [exact Hds|]. repeat constructor; assumption. }
  assert (Hnorm : Text.replace_char 44 [46] (Text.replace_char 46 [] (body ++ [44; c1; c2]))
                  = ds ++ 46 :: [c1; c2]).
  { rewrite !replace_char_app, german_body_normal by exact Hbody. fold ds.
    destruct (digit_is_no_mark c1 H1) as [A1 B1].
    destruct (digit_is_no_mark c2 H2) as [A2 B2].
    unfold Text.replace_char. simpl. rewrite A1, A2. simpl. rewrite B1, B2.
    reflexivity. }
  unfold Pdf._german_amount_to_cents. rewrite Hnorm.
  unfold Float64.parse. rewrite (split_at_dot_digits ds [c1; c2] Hds).
  change (default [] (Some [c1; c2])) with [c1; c2].
  assert (Hparse : forall A (x y : A), match ds, [c1; c2] with
                                      | [], [] => x
                                      | _, _ => y
                                      end = y)
    by (intros; destruct ds; reflexivity).
  rewrite (Hparse _ None). rewrite (digits_value_decimal _ 0%Z Hall).
  fold (decimal (ds ++ [c1; c2])).
  change (10 ^ Z.of_nat (List.length [c1; c2]))%Z with 100%Z.
  rewrite hundredth_times_hundred; [reflexivity|].
  split; [|exact Hlt]. unfold decimal. apply decimal_nonneg; [exact Hall|lia].
Qed.

Lemma german_amount_is_read_to_the_cent_witness :
  Pdf._german_amount_to_cents (Sample.T "7.633,63") = inr 763363%Z.
Proof.
  apply (german_amount_is_read_to_the_cent (Sample.T "7.633") 54 51).
  - repeat constructor; (left; reflexivity) || (right; reflexivity).
  - reflexivity.
  - reflexivity.
  - vm_compute. reflexivity.
Defined.
